(** * mp4ff: box codec exemplars (stss, audio sample entry) and the AVC
      Annex-B helpers, as a shallow embedding.

    Go values are modelled as follows.
    - [uint16], [uint32], [uint64] and [int] are [Z] with the wrap-around of
      each operation written out ([uint16], [uint32], [uint64] below).
    - [[]byte] is [list byte]; a slice has its capacity equal to its length
      (as after [make([]byte, n)]), so a slice expression out of the length
      is a run-time panic.
    - a function returning [(T, error)] returns an [outcome T]: [Ret] for a
      nil error, [Fail] for a non-nil error, [Panic] for a run-time panic.
    - an [io.Writer] is the sequence of bytes written to it so far. *)

From Stdlib Require Import ZArith List String Ascii Lia Bool Arith.
From Stdlib Require Import Init.Byte.
From Equations Require Import Equations.
Import ListNotations.

Local Open Scope string_scope.
Local Open Scope list_scope.
Local Open Scope Z_scope.

(** ** Machine integers and bytes *)

Definition uint16 (z : Z) : Z := z mod 2 ^ 16.
Definition uint32 (z : Z) : Z := z mod 2 ^ 32.
Definition uint64 (z : Z) : Z := z mod 2 ^ 64.

(** [int(x)] for a [uint64] x: two's complement reinterpretation. *)
Definition int_of_uint64 (z : Z) : Z := if z <? 2 ^ 63 then z else z - 2 ^ 64.

Definition Z_of_byte (b : byte) : Z := Z.of_N (Byte.to_N b).

Definition byte_of_Z (z : Z) : byte :=
  match Byte.of_N (Z.to_N (z mod 256)) with
  | Some b => b
  | None => x00
  end.

Definition len {A : Type} (l : list A) : Z := Z.of_nat (List.length l).

(** ** Errors, outcomes *)

Inductive error : Type :=
| EOF                          (* io.EOF *)
| ErrUnexpectedEOF             (* io.ErrUnexpectedEOF *)
| ErrSliceWrite                (* overflow of a fixed slice writer *)
| Errorf (msg : string).       (* fmt.Errorf(...) *)

Inductive outcome (A : Type) : Type :=
| Ret (a : A)
| Fail (e : error)
| Panic.
Arguments Ret {A} a.
Arguments Fail {A} e.
Arguments Panic {A}.

(** The value of an [error] result: [Ret tt] is the nil error. *)
Definition status : Type := outcome unit.
Definition ok : status := Ret tt.

Definition bind {A B : Type} (m : outcome A) (k : A -> outcome B) : outcome B :=
  match m with
  | Ret a => k a
  | Fail e => Fail e
  | Panic => Panic
  end.

Declare Scope go_scope.
Notation "x <- m ;; k" := (bind m (fun x => k))
  (at level 61, m at next level, right associativity) : go_scope.
Notation "' pat <- m ;; k" :=
  (bind m (fun x => match x with pat => k end))
  (at level 61, pat pattern, m at next level, right associativity) : go_scope.
Local Open Scope go_scope.

(** ** Slices and big-endian integers (encoding/binary) *)

(** [data[lo:hi]]: panics (here [None]) unless [0 <= lo <= hi <= len(data)]. *)
Definition slice (data : list byte) (lo hi : Z) : option (list byte) :=
  if (0 <=? lo) && (lo <=? hi) && (hi <=? len data)
  then Some (firstn (Z.to_nat (hi - lo)) (skipn (Z.to_nat lo) data))
  else None.

(** [binary.BigEndian.Uint16], [Uint32]: index the first bytes of the slice,
    with a panic on a slice that is too short. *)
Definition BigEndian_Uint16 (b : list byte) : option Z :=
  match b with
  | b0 :: b1 :: _ => Some (Z.lor (Z.shiftl (Z_of_byte b0) 8) (Z_of_byte b1))
  | _ => None
  end.

Definition BigEndian_Uint32 (b : list byte) : option Z :=
  match b with
  | b0 :: b1 :: b2 :: b3 :: _ =>
      Some (Z.lor (Z.lor (Z.lor (Z.shiftl (Z_of_byte b0) 24)
                                (Z.shiftl (Z_of_byte b1) 16))
                         (Z.shiftl (Z_of_byte b2) 8))
                  (Z_of_byte b3))
  | _ => None
  end.

(** [binary.BigEndian.PutUint16], [PutUint32] *)
Definition PutUint16 (n : Z) : list byte :=
  [byte_of_Z (Z.shiftr n 8); byte_of_Z n].

Definition PutUint32 (n : Z) : list byte :=
  [byte_of_Z (Z.shiftr n 24); byte_of_Z (Z.shiftr n 16);
   byte_of_Z (Z.shiftr n 8); byte_of_Z n].

Definition orPanic {A : Type} (o : option A) : outcome A :=
  match o with
  | Some a => Ret a
  | None => Panic
  end.

(** ** io.Writer and io.Reader *)

(** An [io.Writer] that accepts every write (a [bytes.Buffer]): its state is
    what was written so far. *)
Definition ioWriter : Type := list byte.
Definition Write (w : ioWriter) (p : list byte) : ioWriter := w ++ p.

(** An [io.Reader] over a byte sequence: its state is what is left to read. *)
Definition ioReader : Type := list byte.

(** ** bits.SliceWriter *)

Module Bits.

(** Modelled from the spec: the byte cursor of package [bits] is not among
    the files at hand ("sequential reader/writer over a byte buffer with
    fixed-width big-endian integer operations, zero-padding writes"). The
    writer is over a fixed buffer of [sw_len] bytes, of which [sw_buf] were
    written ([buf[:off]]); writes return nothing, so a write that does not
    fit is recorded in the accumulated error read back by [AccError], and
    once an error is recorded later writes do nothing. *)
Record SliceWriter : Type := mkSW {
  sw_buf : list byte;
  sw_len : Z;
  accError : option error
}.

Definition NewSliceWriterWithSize (size : Z) : SliceWriter :=
  mkSW [] size None.

Definition WriteBytes (sw : SliceWriter) (p : list byte) : SliceWriter :=
  match accError sw with
  | Some _ => sw
  | None =>
      if len (sw_buf sw) + len p >? sw_len sw
      then mkSW (sw_buf sw) (sw_len sw) (Some ErrSliceWrite)
      else mkSW (sw_buf sw ++ p) (sw_len sw) None
  end.

Definition WriteUint16 (sw : SliceWriter) (n : Z) : SliceWriter :=
  WriteBytes sw (PutUint16 n).
Definition WriteUint32 (sw : SliceWriter) (n : Z) : SliceWriter :=
  WriteBytes sw (PutUint32 n).
Definition WriteZeroBytes (sw : SliceWriter) (n : nat) : SliceWriter :=
  WriteBytes sw (repeat x00 n).

Definition AccError (sw : SliceWriter) : status :=
  match accError sw with
  | Some e => Fail e
  | None => ok
  end.

Definition Bytes (sw : SliceWriter) : list byte := sw_buf sw.
Definition Offset (sw : SliceWriter) : Z := len (sw_buf sw).

End Bits.

(** ** Box headers *)

(** Modelled from the spec: the constants and the header type are declared
    in a file that is not at hand. "header(8)"; "24-bit flag field"; a header
    holds the tag, the declared size and its own length ("8-byte (or 16-byte
    for 64-bit size) box header"). *)
Definition boxHeaderSize : Z := 8.
Definition flagsMask : Z := 0x00ffffff.

Record boxHeader : Type := mkHdr {
  hdr_name : string;
  hdr_size : Z;      (* uint64 *)
  hdr_hdrlen : Z     (* int *)
}.

(** Modelled from the spec: "4-byte type tag (ASCII)", the first four
    characters of the tag, zero-padded. *)
Definition tagBytes (name : string) : list byte :=
  let bs := list_byte_of_string name in
  firstn 4 (bs ++ repeat x00 4).

(** Modelled from the spec: the header writers live in a file that is not at
    hand. "Generic box header: 4-byte size, 4-byte type tag (ASCII)"; the
    8-byte extended size is "not used by the two exemplar boxes", so a size
    that does not fit the 4-byte field is an error. *)
Definition headerBytes (type : string) (size : Z) : outcome (list byte) :=
  if size >=? 2 ^ 32
  then Fail (Errorf "Box size is too big for normal 4-byte size field")
  else Ret (PutUint32 (uint32 size) ++ tagBytes type).

(** Modelled from the spec: see [headerBytes]; the header goes to an
    [io.Writer]. *)
Definition EncodeHeader (type : string) (size : Z) (w : ioWriter)
  : ioWriter * status :=
  match headerBytes type size with
  | Ret bs => (Write w bs, ok)
  | Fail e => (w, Fail e)
  | Panic => (w, Panic)
  end.

(** Modelled from the spec: see [headerBytes]; the header goes to a slice
    writer. *)
Definition EncodeHeaderSW (type : string) (size : Z) (sw : Bits.SliceWriter)
  : Bits.SliceWriter * status :=
  match headerBytes type size with
  | Ret bs => (Bits.WriteBytes sw bs, ok)
  | Fail e => (sw, Fail e)
  | Panic => (sw, Panic)
  end.

(** Modelled from the spec: [readBoxBody] is not at hand. A decoder "must
    consume exactly the number of bytes declared in its own header"; with
    fewer bytes available it is a truncation error. *)
Definition readBoxBody (r : ioReader) (hdr : boxHeader)
  : outcome (list byte) * ioReader :=
  let bodyLen := uint64 (hdr_size hdr - hdr_hdrlen hdr) in
  if bodyLen =? 0 then (Ret [], r)
  else if len r =? 0 then (Fail EOF, r)
  else if len r <? bodyLen then (Fail ErrUnexpectedEOF, [])
  else (Ret (firstn (Z.to_nat bodyLen) r), skipn (Z.to_nat bodyLen) r).

(** ** StssBox - Sync Sample Box *)

Record StssBox : Type := mkStss {
  Version : Z;               (* byte *)
  Flags : Z;                 (* uint32 *)
  SampleNumber : list Z      (* []uint32 *)
}.

Module Stss.

(** The loop of [DecodeStss]: [k] iterations are left, [i] is the loop
    variable, [acc] is [b.SampleNumber]. *)
Fixpoint decodeSamples (k : nat) (i : Z) (data : list byte) (acc : list Z)
  : outcome (list Z) :=
  match k with
  | O => Ret acc
  | S k' =>
      bs <- orPanic (slice data (8 + 4 * i) (12 + 4 * i)) ;;
      sample <- orPanic (BigEndian_Uint32 bs) ;;
      decodeSamples k' (i + 1) data (acc ++ [sample])
  end.

(** [DecodeStss] after [readBoxBody] has returned [data]. *)
Definition decodeBody (data : list byte) : outcome StssBox :=
  b0 <- orPanic (slice data 0 4) ;;
  versionAndFlags <- orPanic (BigEndian_Uint32 b0) ;;
  b1 <- orPanic (slice data 4 8) ;;
  ec <- orPanic (BigEndian_Uint32 b1) ;;
  samples <- decodeSamples (Z.to_nat ec) 0 data [] ;;
  Ret (mkStss (Z.shiftr versionAndFlags 24 mod 2 ^ 8)
              (Z.land versionAndFlags flagsMask)
              samples).

Definition DecodeStss (hdr : boxHeader) (startPos : Z) (r : ioReader)
  : outcome StssBox * ioReader :=
  match readBoxBody r hdr with
  | (Ret data, r') => (decodeBody data, r')
  | (Fail e, r') => (Fail e, r')
  | (Panic, r') => (Panic, r')
  end.

Definition EntryCount (b : StssBox) : Z := uint32 (len (SampleNumber b)).

(** [Type] (a reserved word here) *)
Definition Type_ (b : StssBox) : string := "stss".

(** The sum is computed on [int] and converted to [uint64]: altogether a
    reduction modulo [2^64]. *)
Definition Size (b : StssBox) : Z :=
  uint64 (boxHeaderSize + 8 + len (SampleNumber b) * 4).

(** [b.SampleNumber[h]]: a panic when out of range. *)
Definition index (l : list Z) (h : Z) : option Z :=
  if (0 <=? h) && (h <? len l) then nth_error l (Z.to_nat h) else None.

(** The loop [for i < j] of [IsSyncSample]; it returns the final [i]. The
    sum [i + j] stays within [int]: a slice of [uint32] has fewer than
    [2^61] elements. *)
Equations? search (s : list Z) (sampleNr : Z) (i j : Z) : outcome Z
  by wf (Z.to_nat (j - i)) lt :=
  search s sampleNr i j with Z_lt_dec i j => {
    | right _ => Ret i
    | left _ =>
        let h := Z.shiftr (i + j) 1 in
        match index s h with
        | None => Panic
        | Some v =>
            if v <? sampleNr
            then search s sampleNr (h + 1) j
            else search s sampleNr i h
        end }.
Proof.
  all: subst h; rewrite Z.shiftr_div_pow2 by lia; change (2 ^ 1) with 2.
  all: pose proof (Z.div_le_lower_bound (i + j) 2 i);
       pose proof (Z.div_lt_upper_bound (i + j) 2 j); lia.
Qed.

Definition IsSyncSample (b : StssBox) (sampleNr : Z) : outcome bool :=
  let nrSamples := len (SampleNumber b) in
  i <- search (SampleNumber b) sampleNr 0 nrSamples ;;
  if i <? nrSamples
  then v <- orPanic (index (SampleNumber b) i) ;; Ret (v =? sampleNr)
  else Ret false.

Fixpoint writeSamples (sw : Bits.SliceWriter) (l : list Z) : Bits.SliceWriter :=
  match l with
  | [] => sw
  | x :: l' => writeSamples (Bits.WriteUint32 sw x) l'
  end.

Definition EncodeSW (b : StssBox) (sw : Bits.SliceWriter)
  : Bits.SliceWriter * status :=
  match EncodeHeaderSW (Type_ b) (Size b) sw with
  | (sw1, Ret _) =>
      let versionAndFlags := uint32 (uint32 (Z.shiftl (Version b) 24) + Flags b) in
      let sw2 := Bits.WriteUint32 sw1 versionAndFlags in
      let sw3 := Bits.WriteUint32 sw2 (uint32 (len (SampleNumber b))) in
      let sw4 := writeSamples sw3 (SampleNumber b) in
      (sw4, Bits.AccError sw4)
  | (sw1, err) => (sw1, err)
  end.

(** [make([]byte, n)] panics on a negative [n]. *)
Definition Encode (b : StssBox) (w : ioWriter) : ioWriter * status :=
  let n := int_of_uint64 (Size b) in
  if n <? 0 then (w, Panic)
  else
    match EncodeSW b (Bits.NewSliceWriterWithSize n) with
    | (sw, Ret _) => (Write w (Bits.Bytes sw), ok)
    | (_, err) => (w, err)
    end.

End Stss.

(** ** The Box interface and the boxes declared in other files *)

(** Modelled from the spec: "Box (polymorphic abstraction): any
    decodable/encodable unit with a type tag, a computed byte size, and
    encode/decode operations". What a box implemented in a file that is not at
    hand does through the methods of interface [Box]: the value of [Size()],
    and the effect and result of [Encode(w)] and [EncodeSW(sw)]. *)
Record BoxImpl : Type := mkImpl {
  impl_size : Z;     (* uint64 *)
  impl_encode : ioWriter -> ioWriter * status;
  impl_encodeSW : Bits.SliceWriter -> Bits.SliceWriter * status
}.

(** Modelled from the spec: "the original (pre-encryption) format tag
    recorded inside the encryption-scheme-information box". *)
Record FrmaBox : Type := mkFrma {
  DataFormat : string
}.

(** Modelled from the spec: [EsdsBox] and [SinfBox] ("an elementary-stream
    descriptor box, an encryption-scheme-information box") are declared in
    files that are not at hand. The audio sample entry holds pointers to
    them; nothing here writes through these pointers, so a pointer is
    modelled by the address it holds together with the pointee. Of the fields
    of [SinfBox] only [Frma.DataFormat] is used. *)
Record EsdsBox : Type := mkEsds {
  esds_addr : positive;
  esds_impl : BoxImpl
}.

Record SinfBox : Type := mkSinf {
  sinf_addr : positive;
  Frma : FrmaBox;
  sinf_impl : BoxImpl
}.

(** Modelled from the spec: any other implementation of [Box], such as the
    "opaque byte-preserving fallback type for unrecognized tags"; its
    [Type()] is whatever tag it carries. *)
Record OtherBox : Type := mkOther {
  other_type : string;
  other_impl : BoxImpl
}.

(** A value of interface type [Box]: the constructor is its dynamic type. *)
Inductive Box : Type :=
| BEsds (e : EsdsBox)
| BSinf (s : SinfBox)
| BStss (b : StssBox)
| BOther (o : OtherBox).

(** Method calls on a [Box]. The tags of [EsdsBox] and [SinfBox] are those
    [AddChild] switches on. *)
Definition BoxType (b : Box) : string :=
  match b with
  | BEsds _ => "esds"
  | BSinf _ => "sinf"
  | BStss s => Stss.Type_ s
  | BOther o => other_type o
  end.

Definition BoxSize (b : Box) : Z :=
  match b with
  | BEsds e => impl_size (esds_impl e)
  | BSinf s => impl_size (sinf_impl s)
  | BStss s => Stss.Size s
  | BOther o => impl_size (other_impl o)
  end.

Definition BoxEncode (b : Box) (w : ioWriter) : ioWriter * status :=
  match b with
  | BEsds e => impl_encode (esds_impl e) w
  | BSinf s => impl_encode (sinf_impl s) w
  | BStss s => Stss.Encode s w
  | BOther o => impl_encode (other_impl o) w
  end.

Definition BoxEncodeSW (b : Box) (sw : Bits.SliceWriter)
  : Bits.SliceWriter * status :=
  match b with
  | BEsds e => impl_encodeSW (esds_impl e) sw
  | BSinf s => impl_encodeSW (sinf_impl s) sw
  | BStss s => Stss.EncodeSW s sw
  | BOther o => impl_encodeSW (other_impl o) sw
  end.

(** ** SliceReader *)

Module SliceReader.

(** Modelled from the spec: the byte cursor used by the decoder is not at
    hand ("sequential reader ... over a byte buffer with fixed-width
    big-endian integer operations", "byte-skip operations", "remaining-length
    queries"). Its read methods return the bare value, so reading past the
    end of the buffer is the panic of the slice expression. *)
Record t : Type := mk {
  data : list byte;
  pos : Z
}.

Definition NewSliceReader (d : list byte) : t := mk d 0.

Definition SkipBytes (n : Z) (s : t) : outcome (unit * t) :=
  Ret (tt, mk (data s) (pos s + n)).

Definition ReadUint16 (s : t) : outcome (Z * t) :=
  bs <- orPanic (slice (data s) (pos s) (pos s + 2)) ;;
  v <- orPanic (BigEndian_Uint16 bs) ;;
  Ret (v, mk (data s) (pos s + 2)).

Definition ReadUint32 (s : t) : outcome (Z * t) :=
  bs <- orPanic (slice (data s) (pos s) (pos s + 4)) ;;
  v <- orPanic (BigEndian_Uint32 bs) ;;
  Ret (v, mk (data s) (pos s + 4)).

Definition RemainingBytes (s : t) : outcome (list byte) :=
  orPanic (slice (data s) (pos s) (len (data s))).

End SliceReader.

(** ** AudioSampleEntryBox *)

Record AudioSampleEntryBox : Type := mkAudio {
  name : string;
  DataReferenceIndex : Z;    (* uint16 *)
  ChannelCount : Z;          (* uint16 *)
  SampleSize : Z;            (* uint16 *)
  SampleRate : Z;            (* uint16, integer part *)
  Esds : option EsdsBox;     (* nil is None *)
  Sinf : option SinfBox;
  Children : list Box
}.

Definition nrAudioSampleBytesBeforeChildren : Z := 36.

Definition makeFixed32Uint (nr : Z) : Z := uint32 (Z.shiftl nr 16).

Definition makeUint16FromFixed32 (nr : Z) : Z := uint16 (Z.shiftr nr 16).

Module Audio.

Definition NewAudioSampleEntryBox (nm : string) : AudioSampleEntryBox :=
  mkAudio nm 1 0 0 0 None None [].

(** The type assertion of [child] to a pointer to [EsdsBox] panics on any
    other dynamic type; likewise for [SinfBox]. *)
Definition AddChild (a : AudioSampleEntryBox) (child : Box)
  : outcome AudioSampleEntryBox :=
  a1 <- (if String.eqb (BoxType child) "esds" then
           match child with
           | BEsds e =>
               Ret (mkAudio (name a) (DataReferenceIndex a) (ChannelCount a)
                            (SampleSize a) (SampleRate a) (Some e) (Sinf a)
                            (Children a))
           | _ => Panic
           end
         else if String.eqb (BoxType child) "sinf" then
           match child with
           | BSinf s =>
               Ret (mkAudio (name a) (DataReferenceIndex a) (ChannelCount a)
                            (SampleSize a) (SampleRate a) (Esds a) (Some s)
                            (Children a))
           | _ => Panic
           end
         else Ret a) ;;
  Ret (mkAudio (name a1) (DataReferenceIndex a1) (ChannelCount a1)
               (SampleSize a1) (SampleRate a1) (Esds a1) (Sinf a1)
               (Children a1 ++ [child])).

(** [child] is [None] for a nil interface value. *)
Definition CreateAudioSampleEntryBox (nm : string)
    (nrChannels sampleSize sampleRate : Z) (child : option Box)
  : outcome AudioSampleEntryBox :=
  let a := mkAudio nm 1 nrChannels sampleSize sampleRate None None [] in
  match child with
  | Some c => AddChild a c
  | None => Ret a
  end.

(** [Type] *)
Definition Type_ (a : AudioSampleEntryBox) : string := name a.

Definition Size (a : AudioSampleEntryBox) : Z :=
  fold_left (fun totalSize child => uint64 (totalSize + BoxSize child))
            (Children a) (uint64 nrAudioSampleBytesBeforeChildren).

(** The seven writes of the fixed fields, the same in [Encode] and
    [EncodeSW]. *)
Definition writeFixedFields (a : AudioSampleEntryBox) (sw : Bits.SliceWriter)
  : Bits.SliceWriter :=
  let sw := Bits.WriteZeroBytes sw 6 in
  let sw := Bits.WriteUint16 sw (DataReferenceIndex a) in
  let sw := Bits.WriteZeroBytes sw 8 in
  let sw := Bits.WriteUint16 sw (ChannelCount a) in
  let sw := Bits.WriteUint16 sw (SampleSize a) in
  let sw := Bits.WriteZeroBytes sw 4 in
  Bits.WriteUint32 sw (makeFixed32Uint (SampleRate a)).

(** [for _, child := range a.Children { err = child.Encode(w); ... }] *)
Fixpoint encodeChildren (cs : list Box) (w : ioWriter) : ioWriter * status :=
  match cs with
  | [] => (w, ok)
  | child :: cs' =>
      match BoxEncode child w with
      | (w1, Ret _) => encodeChildren cs' w1
      | (w1, err) => (w1, err)
      end
  end.

Fixpoint encodeChildrenSW (cs : list Box) (sw : Bits.SliceWriter)
  : Bits.SliceWriter * status :=
  match cs with
  | [] => (sw, ok)
  | child :: cs' =>
      match BoxEncodeSW child sw with
      | (sw1, Ret _) => encodeChildrenSW cs' sw1
      | (sw1, err) => (sw1, err)
      end
  end.

(** Modelled from the spec: [makebuf] is not at hand; by its use it makes a
    buffer for the body of the box, [b.Size() - boxHeaderSize] bytes. *)
Definition makebuf_len (a : AudioSampleEntryBox) : Z :=
  int_of_uint64 (uint64 (Size a - boxHeaderSize)).

Definition Encode (a : AudioSampleEntryBox) (w : ioWriter) : ioWriter * status :=
  match EncodeHeader (Type_ a) (Size a) w with
  | (w1, Ret _) =>
      if makebuf_len a <? 0 then (w1, Panic)
      else
        let sw := writeFixedFields a (Bits.NewSliceWriterWithSize (makebuf_len a)) in
        let w2 := Write w1 (Bits.Bytes sw) in
        encodeChildren (Children a) w2
  | (w1, err) => (w1, err)
  end.

Definition EncodeSW (a : AudioSampleEntryBox) (sw : Bits.SliceWriter)
  : Bits.SliceWriter * status :=
  match EncodeHeaderSW (Type_ a) (Size a) sw with
  | (sw1, Ret _) => encodeChildrenSW (Children a) (writeFixedFields a sw1)
  | (sw1, err) => (sw1, err)
  end.

(** The index of the first child whose [Type()] is "sinf", counting from
    [i]: where the loop of [RemoveEncryption] breaks. *)
Fixpoint findSinf (cs : list Box) (i : nat) : option nat :=
  match cs with
  | [] => None
  | c :: cs' =>
      if String.eqb (BoxType c) "sinf" then Some i else findSinf cs' (S i)
  end.

(** The box after the call, and the call's results. *)
Definition RemoveEncryption (a : AudioSampleEntryBox)
  : AudioSampleEntryBox * outcome SinfBox :=
  if negb (String.eqb (name a) "enca")
  then (a, Fail (Errorf ("is not encrypted: " ++ name a)))
  else
    match Sinf a with
    | None => (a, Fail (Errorf "does not have sinf box"))
    | Some sinf =>
        let a1 :=
          match findSinf (Children a) 0 with
          | Some i =>
              mkAudio (name a) (DataReferenceIndex a) (ChannelCount a)
                      (SampleSize a) (SampleRate a) (Esds a) None
                      (firstn i (Children a) ++ skipn (S i) (Children a))
          | None => a
          end in
        (mkAudio (DataFormat (Frma sinf)) (DataReferenceIndex a1)
                 (ChannelCount a1) (SampleSize a1) (SampleRate a1)
                 (Esds a1) (Sinf a1) (Children a1),
         Ret sinf)
    end.

(** *** Decoding *)

(** The fixed fields: 14496-12 8.5.2.2 (8 bytes) and 12.2.3.2 (20 bytes). *)
Definition decodeFixedFields (nm : string) (s : SliceReader.t)
  : outcome (AudioSampleEntryBox * SliceReader.t) :=
  let a := NewAudioSampleEntryBox nm in
  '(_, s) <- SliceReader.SkipBytes 6 s ;;
  '(dri, s) <- SliceReader.ReadUint16 s ;;
  '(_, s) <- SliceReader.SkipBytes 8 s ;;
  '(cc, s) <- SliceReader.ReadUint16 s ;;
  '(ss, s) <- SliceReader.ReadUint16 s ;;
  '(_, s) <- SliceReader.SkipBytes 4 s ;;
  '(sr, s) <- SliceReader.ReadUint32 s ;;
  Ret (mkAudio (name a) dri cc ss (makeUint16FromFixed32 sr)
               (Esds a) (Sinf a) (Children a), s).

(** The variables of the loop over the children. *)
Record LoopState : Type := mkLS {
  ls_box : AudioSampleEntryBox;    (* a *)
  ls_pos : Z;                      (* pos, uint64 *)
  ls_rest : ioReader               (* restReader *)
}.

Section Decode.

(** The dispatcher [DecodeBox] is not at hand: it is a parameter. Given the
    position and the reader it returns the box (nil is [None]) or the error,
    and the reader as it leaves it. *)
Variable DecodeBox : Z -> ioReader -> outcome (option Box) * ioReader.

Definition badSize (hdr : boxHeader) : error :=
  Errorf ("Bad size when decoding " ++ hdr_name hdr).

(** One iteration of the loop: the next state, or how the function leaves
    the loop ([Ret a] for a [break], after which [a] is returned). *)
Definition loopStep (hdr : boxHeader) (startPos : Z) (st : LoopState)
  : LoopState + outcome AudioSampleEntryBox :=
  match DecodeBox (ls_pos st) (ls_rest st) with
  | (Fail EOF, _) => inr (Ret (ls_box st))
  | (Fail e, _) => inr (Fail e)
  | (Panic, _) => inr Panic
  | (Ret box, rest) =>
      let added :=
        match box with
        | Some b =>
            a <- AddChild (ls_box st) b ;;
            Ret (a, uint64 (ls_pos st + BoxSize b))
        | None => Ret (ls_box st, ls_pos st)
        end in
      match added with
      | Ret (a, pos) =>
          if pos =? uint64 (startPos + hdr_size hdr) then inr (Ret a)
          else if pos >? uint64 (startPos + hdr_size hdr)
               then inr (Fail (badSize hdr))
               else inl (mkLS a pos rest)
      | Fail e => inr (Fail e)
      | Panic => inr Panic
      end
  end.

(** The loop, for at most [fuel] iterations ([None]: more are needed). *)
Fixpoint loop (fuel : nat) (hdr : boxHeader) (startPos : Z) (st : LoopState)
  : option (outcome AudioSampleEntryBox) :=
  match fuel with
  | O => None
  | S fuel' =>
      match loopStep hdr startPos st with
      | inl st' => loop fuel' hdr startPos st'
      | inr res => Some res
      end
  end.

(** The state on entering the loop. *)
Definition loopInit (hdr : boxHeader) (startPos : Z) (body : list byte)
  : outcome LoopState :=
  '(a, s) <- decodeFixedFields (hdr_name hdr) (SliceReader.NewSliceReader body) ;;
  remaining <- SliceReader.RemainingBytes s ;;
  Ret (mkLS a (uint64 (startPos + nrAudioSampleBytesBeforeChildren)) remaining).

Definition DecodeAudioSampleEntry (fuel : nat) (hdr : boxHeader)
    (startPos : Z) (r : ioReader)
  : option (outcome AudioSampleEntryBox) * ioReader :=
  match readBoxBody r hdr with
  | (Ret body, r') =>
      match loopInit hdr startPos body with
      | Ret st => (loop fuel hdr startPos st, r')
      | Fail e => (Some (Fail e), r')
      | Panic => (Some Panic, r')
      end
  | (Fail e, r') => (Some (Fail e), r')
  | (Panic, r') => (Some Panic, r')
  end.

(** The state after [k] iterations none of which leaves the loop. *)
Fixpoint iterations (k : nat) (hdr : boxHeader) (startPos : Z) (st : LoopState)
  : option LoopState :=
  match k with
  | O => Some st
  | S k' =>
      match loopStep hdr startPos st with
      | inl st' => iterations k' hdr startPos st'
      | inr _ => None
      end
  end.

End Decode.

End Audio.

(** ** Package avc: Annex-B byte streams *)

Module Avc.

(** The functions of this package are not at hand: only their tests are
    (annexb_test.go). They are modelled from the spec, and the tests' cases
    are checked against the model below. A result of type [[][]byte] that
    may be nil is an [option]: [None] is the nil slice. *)

Definition startCode3 : list byte := [x00; x00; x01].
Definition startCode4 : list byte := [x00; x00; x00; x01].

Fixpoint startsWith (p data : list byte) : bool :=
  match p, data with
  | [], _ => true
  | _ :: _, [] => false
  | x :: p', y :: data' => Byte.eqb x y && startsWith p' data'
  end.

(** Modelled from the spec: "Annex-B start codes: 00 00 01 or 00 00 00 01".
    The length of the start code [data] begins with, if it begins with
    one. *)
Definition startCodeLen (data : list byte) : option nat :=
  if startsWith startCode4 data then Some 4%nat
  else if startsWith startCode3 data then Some 3%nat
  else None.

(** Modelled from the spec: a unit is reported when it ends, unless it has
    no byte at all ("NAL Unit - a contiguous byte slice with a 1-byte
    header"; "only a start code with no trailing payload, produces an empty
    result"). *)
Definition closeUnit (cur : option (list byte)) : list (list byte) :=
  match cur with
  | Some (b :: u) => [b :: u]
  | _ => []
  end.

(** Modelled from the spec: the Annex-B stream scanner. "produce the ordered
    sequence of NAL unit payloads (start code stripped). Accepts both 3-byte
    (00 00 01) and 4-byte (00 00 00 01) start codes interchangeably anywhere
    in the stream"; bytes before the first start code belong to no unit
    ("leading non-NAL noise"). [skip] bytes of a start code are still to be
    passed over; [cur] is the unit being collected, [None] before the first
    start code. *)
Fixpoint scan (skip : nat) (cur : option (list byte)) (data : list byte)
  : list (list byte) :=
  match data with
  | [] => closeUnit cur
  | b :: rest =>
      match skip with
      | S k => scan k cur rest
      | O =>
          match startCodeLen data with
          | Some n => closeUnit cur ++ scan (n - 1) (Some []) rest
          | None => scan 0 (option_map (fun u => u ++ [b]) cur) rest
          end
      end
  end.

(** "No results" is an absent sequence rather than an allocated empty one. *)
Definition orNil {A : Type} (l : list A) : option (list A) :=
  match l with
  | [] => None
  | _ => Some l
  end.

(** Modelled from the spec: see [scan]. *)
Definition ExtractNalusFromByteStream (data : list byte)
  : option (list (list byte)) :=
  orNil (scan 0 None data).

(** Modelled from the spec: "for each NAL unit found by the Scanner, emit a
    4-byte big-endian length field holding that unit's byte count, followed
    by the unit's bytes, in original order". *)
Definition ConvertByteStreamToNaluSample (stream : list byte) : list byte :=
  flat_map (fun nalu => PutUint32 (uint32 (len nalu)) ++ nalu)
           (scan 0 None stream).

(** Modelled from the spec: "for each unit read its 4-byte length, then emit
    a canonical 4-byte start code (00 00 00 01) followed by the payload, in
    original order". Every unit takes at least its four length bytes, so
    [fuel] as large as the buffer is long is enough; a payload cut short by
    the end of the buffer is emitted as far as it goes, and fewer than four
    bytes left over are no unit. *)
Fixpoint sampleToByteStream (fuel : nat) (sample : list byte) : list byte :=
  match fuel with
  | O => []
  | S fuel' =>
      match sample, BigEndian_Uint32 sample with
      | _ :: _ :: _ :: _ :: rest, Some n =>
          startCode4 ++ firstn (Z.to_nat n) rest
            ++ sampleToByteStream fuel' (skipn (Z.to_nat n) rest)
      | _, _ => []
      end
  end.

(** Modelled from the spec: see [sampleToByteStream]. *)
Definition ConvertSampleToByteStream (sample : list byte) : list byte :=
  sampleToByteStream (List.length sample) sample.

(** Modelled from the spec: "NAL unit type field: low 5 bits of the first
    payload byte; types of interest: 5 (IDR), 7 (SPS), 8 (PPS), 9 (AUD)". *)
Definition NaluType : Type := Z.
Definition NALU_IDR : NaluType := 5.
Definition NALU_SPS : NaluType := 7.
Definition NALU_PPS : NaluType := 8.
Definition NALU_AUD : NaluType := 9.

Definition GetNaluType (nalu : list byte) : option NaluType :=
  match nalu with
  | b :: _ => Some (Z.land (Z_of_byte b) 0x1f)
  | [] => None
  end.

Definition hasType (t : NaluType) (nalu : list byte) : bool :=
  match GetNaluType nalu with
  | Some t' => t' =? t
  | None => false
  end.

(** Modelled from the spec: "classify each NAL unit by its type field;
    collect payloads whose type equals SPS into one ordered sequence and PPS
    into another, preserving first-seen order and including duplicates";
    "Returns (none, none) - not empty sequences - when no parameter sets are
    found". The payload of a unit is what the scanner returns for it: it
    starts with the header byte that holds the type. *)
Definition GetParameterSetsFromByteStream (data : list byte)
  : option (list (list byte)) * option (list (list byte)) :=
  let nalus := scan 0 None data in
  (orNil (filter (hasType NALU_SPS) nalus),
   orNil (filter (hasType NALU_PPS) nalus)).

(** A byte stream built from NAL units, each after a start code of three
    ([false]) or four ([true]) bytes. *)
Definition startCode (four : bool) : list byte :=
  if four then startCode4 else startCode3.

Definition byteStream (units : list (bool * list byte)) : list byte :=
  flat_map (fun u => startCode (fst u) ++ snd u) units.

(** Does a start code occur anywhere in [data]? The four-byte code ends with
    the three-byte one. *)
Fixpoint hasStartCode (data : list byte) : bool :=
  match data with
  | [] => false
  | _ :: rest => startsWith startCode3 data || hasStartCode rest
  end.

(** A NAL unit of a well-formed stream: it has its header byte, "start codes
    occur only as unit delimiters" (none inside the unit, and its last byte
    is not the zero that would make the next start code a four-byte one),
    and its byte count fits the 4-byte length field. *)
Definition wfNalu (nalu : list byte) : bool :=
  negb (Byte.eqb (last nalu x00) x00)
  && negb (hasStartCode nalu)
  && (len nalu <? 2 ^ 32).

End Avc.

(** * Vocabulary of the properties, and example values *)

(** Strictly ascending sample numbers. *)
Fixpoint ascending (l : list Z) : bool :=
  match l with
  | a :: ((b :: _) as r) => (a <? b) && ascending r
  | _ => true
  end.

Section BinarySearch.

Variable s : list Z.
Variable sampleNr : Z.

(** Every entry before index [i] is smaller than [sampleNr]. *)
Definition below (i : Z) : Prop :=
  forall k v, Stss.index s k = Some v -> k < i -> v < sampleNr.

(** No entry from index [j] on is smaller than [sampleNr]. *)
Definition above (j : Z) : Prop :=
  forall k v, Stss.index s k = Some v -> j <= k -> sampleNr <= v.

End BinarySearch.

Definition isEsds (child : Box) : bool :=
  match child with BEsds _ => true | _ => false end.

Definition isSinf (child : Box) : bool :=
  match child with BSinf _ => true | _ => false end.

(** The tag of [child] selects a type assertion that its dynamic type
    fails. *)
Definition tagMismatch (child : Box) : bool :=
  String.eqb (BoxType child) "esds" && negb (isEsds child)
  || String.eqb (BoxType child) "sinf" && negb (isSinf child).

Definition opaqueImpl : BoxImpl :=
  mkImpl 8 (fun w => (w, ok)) (fun sw => (sw, ok)).

(** The 28 bytes of the fixed fields as [writeFixedFields] lays them out. *)
Definition fixedFieldBytes (a : AudioSampleEntryBox) : list byte :=
  repeat x00 6 ++ PutUint16 (DataReferenceIndex a)
  ++ repeat x00 8 ++ PutUint16 (ChannelCount a) ++ PutUint16 (SampleSize a)
  ++ repeat x00 4 ++ PutUint32 (makeFixed32Uint (SampleRate a)).

(** A body with sample rate 44100.5 ([ac 44 80 00]). *)
Definition body_44100_5 : list byte :=
  repeat x00 24 ++ [xac; x44; x80; x00].

Definition sinfTagged (c : Box) : bool := String.eqb (BoxType c) "sinf".

(** No child has the tag "sinf". *)
Definition noSinf (cs : list Box) : bool :=
  forallb (fun c => negb (sinfTagged c)) cs.

Definition setName (nm : string) (a : AudioSampleEntryBox)
  : AudioSampleEntryBox :=
  mkAudio nm (DataReferenceIndex a) (ChannelCount a) (SampleSize a)
          (SampleRate a) (Esds a) (Sinf a) (Children a).

(** [a] without its sinf box: the reference is nil, the children are [cs]. *)
Definition dropSinf (cs : list Box) (a : AudioSampleEntryBox)
  : AudioSampleEntryBox :=
  mkAudio (name a) (DataReferenceIndex a) (ChannelCount a) (SampleSize a)
          (SampleRate a) (Esds a) None cs.

Definition sinfA : SinfBox := mkSinf 1 (mkFrma "mp4a") opaqueImpl.
Definition sinfB : SinfBox := mkSinf 2 (mkFrma "ac-3") opaqueImpl.

(** An "enca" box with the children [btrt] and [sinfA]. *)
Definition encaOne : AudioSampleEntryBox :=
  mkAudio "enca" 1 2 16 48000 None (Some sinfA)
          [BOther (mkOther "btrt" opaqueImpl); BSinf sinfA].

(** The box that [AddChild] builds from two sinf boxes: [Sinf] refers to the
    one added last. *)
Definition encaTwo : AudioSampleEntryBox :=
  mkAudio "enca" 1 2 16 48000 None (Some sinfB) [BSinf sinfA; BSinf sinfB].

Definition sumSizes (cs : list Box) : Z :=
  fold_right (fun c acc => BoxSize c + acc) 0 cs.

(** The invariant for one box, through the interface: [Size()] is a
    [uint64]; an [Encode] that returns nil has appended [Size()] bytes to the
    writer; an [EncodeSW] that returns nil and leaves no accumulated error in
    the slice writer found none and has appended [Size()] bytes. *)
Definition sizeMatchesEncode (c : Box) : Prop :=
  0 <= BoxSize c
  /\ (forall w w', BoxEncode c w = (w', ok) ->
                   exists bs, w' = w ++ bs /\ len bs = BoxSize c)
  /\ (forall sw sw', BoxEncodeSW c sw = (sw', ok) ->
                     Bits.accError sw' = None ->
                     Bits.accError sw = None
                     /\ exists bs, Bits.sw_buf sw' = Bits.sw_buf sw ++ bs
                                   /\ len bs = BoxSize c).

(** An opaque box that writes the bytes it holds. *)
Definition rawImpl (bs : list byte) : BoxImpl :=
  mkImpl (len bs) (fun w => (Write w bs, ok))
         (fun sw => (Bits.WriteBytes sw bs, ok)).

Definition btrtBox : Box :=
  BOther (mkOther "btrt" (rawImpl (PutUint32 20 ++ tagBytes "btrt"
                                     ++ repeat x00 12))).

Definition mp4aBox : AudioSampleEntryBox :=
  mkAudio "mp4a" 1 2 16 48000 None None [btrtBox; BStss (mkStss 0 0 [1; 25])].

(** A dispatcher for the example: it takes twenty bytes, or what is left,
    for one opaque box of size 20, and reports the end of the input. *)
Definition exampleDecodeBox (p : Z) (r : ioReader)
  : outcome (option Box) * ioReader :=
  match r with
  | [] => (Fail EOF, [])
  | _ => (Ret (Some btrtBox), skipn 20 r)
  end.

(** An "mp4a" box that declares 68 bytes, eight fewer than its header, fixed
    fields and two children of 20 bytes take. *)
Definition shortHdr : boxHeader := mkHdr "mp4a" 68 8.
Definition shortInput : ioReader := repeat x00 60.

(** AUD, SPS, PPS, IDR, IDR, each after a four-byte start code. *)
Definition scenario4 : list byte :=
  [x00; x00; x00; x01; x09; x02;
   x00; x00; x00; x01; x07; x05; x04;
   x00; x00; x00; x01; x08; x01; x02;
   x00; x00; x00; x01; x05; x00;
   x00; x00; x00; x01; x05; x00].

Definition lengthPrefixed (nalus : list (list byte)) : list byte :=
  flat_map (fun nalu => PutUint32 (uint32 (len nalu)) ++ nalu) nalus.

(** An SPS after a three-byte start code and a PPS after a four-byte one. *)
Definition twoUnits : list (bool * list byte) :=
  [(false, [x67; x42; x00; x1e]); (true, [x68; xce; x3c; x80])].

(** ** The bytes of an StssBox *)

(** The body that [StssBox.EncodeSW] writes after the header: the version
    and flags word, the entry count, the sample numbers. *)
Definition stssBody (b : StssBox) : list byte :=
  PutUint32 (uint32 (uint32 (Z.shiftl (Version b) 24) + Flags b))
  ++ PutUint32 (uint32 (len (SampleNumber b)))
  ++ flat_map PutUint32 (SampleNumber b).

(** The header followed by the body. *)
Definition stssBytes (b : StssBox) : list byte :=
  PutUint32 (uint32 (Stss.Size b)) ++ tagBytes (Stss.Type_ b) ++ stssBody b.

(** The version is a byte, the flags fit their 24 bits, the sample numbers
    are [uint32]. *)
Definition stssInRange (b : StssBox) : Prop :=
  0 <= Version b < 2 ^ 8 /\ 0 <= Flags b < 2 ^ 24
  /\ Forall (fun x => 0 <= x < 2 ^ 32) (SampleNumber b).

(** The only error a slice writer accumulates by itself is the overflow. *)
Definition overflowOnly (sw : Bits.SliceWriter) : Prop :=
  Bits.accError sw = None \/ Bits.accError sw = Some ErrSliceWrite.

(** Ascending sample numbers, repetitions allowed. *)
Fixpoint nondecreasing (l : list Z) : bool :=
  match l with
  | a :: ((b :: _) as r) => (a <=? b) && nondecreasing r
  | _ => true
  end.

(** ** Sequences of AddChild *)

(** [a.AddChild(c)] for each [c] of [cs] in turn, as the decoder and the
    callers that build a box do. *)
Fixpoint addChildren (a : AudioSampleEntryBox) (cs : list Box)
  : outcome AudioSampleEntryBox :=
  match cs with
  | [] => Ret a
  | c :: cs' => a' <- Audio.AddChild a c ;; addChildren a' cs'
  end.

(** The last [EsdsBox] among [cs], or [d] when there is none. *)
Definition lastEsds (cs : list Box) (d : option EsdsBox) : option EsdsBox :=
  fold_left (fun acc c => match c with BEsds e => Some e | _ => acc end) cs d.

(** The last [SinfBox] among [cs], or [d] when there is none. *)
Definition lastSinf (cs : list Box) (d : option SinfBox) : option SinfBox :=
  fold_left (fun acc c => match c with BSinf s => Some s | _ => acc end) cs d.

(** Each typed reference of the box is one of its children. *)
Definition refsAliasChildren (a : AudioSampleEntryBox) : Prop :=
  (forall e, Esds a = Some e -> In (BEsds e) (Children a))
  /\ (forall s, Sinf a = Some s -> In (BSinf s) (Children a)).

Definition esdsA : EsdsBox := mkEsds 3 opaqueImpl.
Definition esdsB : EsdsBox := mkEsds 4 opaqueImpl.

(** A box whose [Sinf] reference is set while an opaque box tagged "sinf"
    comes first among its children. *)
Definition encaOpaqueFirst : AudioSampleEntryBox :=
  mkAudio "enca" 1 2 16 48000 None (Some sinfA)
          [BOther (mkOther "sinf" opaqueImpl); BSinf sinfA].

(** The four numeric fields of the box have the range of [uint16]. *)
Definition audioInRange (a : AudioSampleEntryBox) : Prop :=
  0 <= DataReferenceIndex a < 2 ^ 16 /\ 0 <= ChannelCount a < 2 ^ 16
  /\ 0 <= SampleSize a < 2 ^ 16 /\ 0 <= SampleRate a < 2 ^ 16.

(** ** The bytes of an AudioSampleEntryBox *)

(** The box [c] encodes to the bytes [bs] on both paths: [Encode] appends
    them to the writer, and [EncodeSW] appends them to a slice writer
    without error that has room for them. *)
Definition encodesAs (c : Box) (bs : list byte) : Prop :=
  (forall w, BoxEncode c w = (w ++ bs, ok))
  /\ (forall buf n,
         len buf + len bs <= n ->
         BoxEncodeSW c (Bits.mkSW buf n None)
         = (Bits.mkSW (buf ++ bs) n None, ok)).

(** The header and the fixed fields of the box. *)
Definition audioHead (a : AudioSampleEntryBox) : list byte :=
  PutUint32 (uint32 (Audio.Size a)) ++ tagBytes (name a) ++ fixedFieldBytes a.

(** A child that reports a size beyond the 4-byte size field. *)
Definition hugeChild : Box :=
  BOther (mkOther "mdat" (mkImpl (2 ^ 32) (fun w => (w, ok))
                                 (fun sw => (sw, ok)))).

(** A dispatcher for the examples: with fewer than eight bytes left it
    reports the end of the input, otherwise it takes twenty bytes for one
    opaque box of size 20. *)
Definition headerDecodeBox (p : Z) (r : ioReader)
  : outcome (option Box) * ioReader :=
  if len r <? 8 then (Fail EOF, r) else (Ret (Some btrtBox), skipn 20 r).

(** A dispatcher that returns an opaque box for the tag "esds". *)
Definition opaqueDecodeBox (p : Z) (r : ioReader)
  : outcome (option Box) * ioReader :=
  match r with
  | [] => (Fail EOF, [])
  | _ => (Ret (Some (BOther (mkOther "esds" (rawImpl (firstn 20 r))))),
          skipn 20 r)
  end.

(** What holds on entering each iteration of the loop over the children:
    the box is [a0] with the children decoded so far added, and the position
    is [startPos] plus its size. *)
Definition loopInv (startPos : Z) (a0 : AudioSampleEntryBox)
    (st : Audio.LoopState) : Prop :=
  (exists cs, addChildren a0 cs = Ret (Audio.ls_box st))
  /\ Audio.ls_pos st = uint64 (startPos + Audio.Size (Audio.ls_box st)).

(** * Properties *)

(** ** Bytes and big-endian integers *)

Lemma Z_of_byte_range (b : byte) : 0 <= Z_of_byte b < 256.
Proof.
  unfold Z_of_byte. pose proof (Byte.to_N_bounded b). lia.
Qed.

Lemma byte_of_Z_of_byte (b : byte) : byte_of_Z (Z_of_byte b) = b.
Proof.
  unfold byte_of_Z. pose proof (Z_of_byte_range b) as Hr.
  rewrite Z.mod_small by lia. unfold Z_of_byte.
  rewrite N2Z.id, Byte.of_to_N. reflexivity.
Qed.

Lemma Z_of_byte_of_Z (z : Z) : Z_of_byte (byte_of_Z z) = z mod 256.
Proof.
  unfold byte_of_Z, Z_of_byte.
  pose proof (Z.mod_pos_bound z 256 ltac:(lia)) as Hr.
  destruct (Byte.of_N (Z.to_N (z mod 256))) as [b|] eqn:E.
  - apply Byte.to_of_N in E. rewrite E. lia.
  - apply Byte.of_N_None_iff in E. lia.
Qed.

Lemma lor_shiftl_add (a b n : Z) :
  0 <= n -> 0 <= b < 2 ^ n -> Z.lor (Z.shiftl a n) b = a * 2 ^ n + b.
Proof.
  intros Hn Hb.
  assert (Hland : Z.land (Z.shiftl a n) b = 0).
  { apply Z.bits_inj'. intros i Hi.
    rewrite Z.land_spec, Z.bits_0.
    destruct (Z.lt_ge_cases i n) as [Hlt|Hge].
    - rewrite Z.shiftl_spec_low by lia. reflexivity.
    - destruct (Z.eq_dec b 0) as [->|Hnz].
      + rewrite Z.bits_0. apply andb_false_r.
      + rewrite (Z.bits_above_log2 b i); [apply andb_false_r | lia |].
        apply Z.log2_lt_pow2; [lia|].
        apply Z.lt_le_trans with (2 ^ n); [lia|].
        apply Z.pow_le_mono_r; lia. }
  pose proof (Z.add_lor_land (Z.shiftl a n) b) as H.
  rewrite Hland, Z.add_0_r in H. rewrite H. apply f_equal2; [|reflexivity].
  apply Z.shiftl_mul_pow2; lia.
Qed.

Lemma BigEndian_Uint32_value (b0 b1 b2 b3 : byte) (rest : list byte) :
  BigEndian_Uint32 (b0 :: b1 :: b2 :: b3 :: rest)
  = Some (Z_of_byte b0 * 2 ^ 24 + Z_of_byte b1 * 2 ^ 16
          + Z_of_byte b2 * 2 ^ 8 + Z_of_byte b3).
Proof.
  pose proof (Z_of_byte_range b0). pose proof (Z_of_byte_range b1).
  pose proof (Z_of_byte_range b2). pose proof (Z_of_byte_range b3).
  cbn [BigEndian_Uint32]. f_equal.
  rewrite !Z.shiftl_mul_pow2 by lia.
  set (B0 := Z_of_byte b0) in *. set (B1 := Z_of_byte b1) in *.
  set (B2 := Z_of_byte b2) in *. set (B3 := Z_of_byte b3) in *.
  assert (L : forall a b n, 0 <= n -> 0 <= b < 2 ^ n ->
                            Z.lor (a * 2 ^ n) b = a * 2 ^ n + b).
  { intros a b n Hn Hb. rewrite <- (lor_shiftl_add a b n) by lia.
    rewrite Z.shiftl_mul_pow2 by lia. reflexivity. }
  rewrite (L B0 (B1 * 2 ^ 16) 24) by lia.
  replace (B0 * 2 ^ 24 + B1 * 2 ^ 16) with ((B0 * 2 ^ 8 + B1) * 2 ^ 16) by lia.
  rewrite (L _ (B2 * 2 ^ 8) 16) by lia.
  replace ((B0 * 2 ^ 8 + B1) * 2 ^ 16 + B2 * 2 ^ 8)
    with ((B0 * 2 ^ 16 + B1 * 2 ^ 8 + B2) * 2 ^ 8) by lia.
  rewrite (L _ B3 8) by lia. lia.
Qed.

Lemma BigEndian_Uint32_range (b : list byte) (v : Z) :
  BigEndian_Uint32 b = Some v -> 0 <= v < 2 ^ 32.
Proof.
  destruct b as [|b0 [|b1 [|b2 [|b3 rest]]]]; try discriminate.
  rewrite BigEndian_Uint32_value. intros [= <-].
  pose proof (Z_of_byte_range b0). pose proof (Z_of_byte_range b1).
  pose proof (Z_of_byte_range b2). pose proof (Z_of_byte_range b3). lia.
Qed.

Lemma PutUint32_length (n : Z) : List.length (PutUint32 n) = 4%nat.
Proof. reflexivity. Qed.

Lemma PutUint16_length (n : Z) : List.length (PutUint16 n) = 2%nat.
Proof. reflexivity. Qed.

Lemma BigEndian_Uint32_PutUint32 (n : Z) (rest : list byte) :
  0 <= n < 2 ^ 32 -> BigEndian_Uint32 (PutUint32 n ++ rest) = Some n.
Proof.
  intros Hn. unfold PutUint32. cbn [app].
  rewrite BigEndian_Uint32_value, !Z_of_byte_of_Z. f_equal.
  rewrite !Z.shiftr_div_pow2 by lia.
  change 256 with (2 ^ 8).
  pose proof (Z.div_mod n (2 ^ 8) ltac:(lia)).
  pose proof (Z.div_mod (n / 2 ^ 8) (2 ^ 8) ltac:(lia)).
  pose proof (Z.div_mod (n / 2 ^ 8 / 2 ^ 8) (2 ^ 8) ltac:(lia)).
  assert (n / 2 ^ 16 = n / 2 ^ 8 / 2 ^ 8) as ->
    by (rewrite Z.div_div by lia; reflexivity).
  assert (n / 2 ^ 24 = n / 2 ^ 8 / 2 ^ 8 / 2 ^ 8) as E24
    by (rewrite !Z.div_div by lia; reflexivity).
  rewrite E24.
  assert (0 <= n / 2 ^ 8 / 2 ^ 8 / 2 ^ 8 < 2 ^ 8).
  { rewrite <- E24. split; [apply Z.div_pos; lia|].
    apply Z.div_lt_upper_bound; lia. }
  rewrite (Z.mod_small (n / 2 ^ 8 / 2 ^ 8 / 2 ^ 8)) by lia.
  lia.
Qed.

Lemma PutUint32_BigEndian_Uint32 (b0 b1 b2 b3 : byte) (v : Z) :
  BigEndian_Uint32 [b0; b1; b2; b3] = Some v -> PutUint32 v = [b0; b1; b2; b3].
Proof.
  rewrite BigEndian_Uint32_value. intros E.
  assert (Ev : v = Z_of_byte b0 * 2 ^ 24 + Z_of_byte b1 * 2 ^ 16
                   + Z_of_byte b2 * 2 ^ 8 + Z_of_byte b3) by congruence.
  clear E. subst v.
  pose proof (Z_of_byte_range b0). pose proof (Z_of_byte_range b1).
  pose proof (Z_of_byte_range b2). pose proof (Z_of_byte_range b3).
  transitivity [byte_of_Z (Z_of_byte b0); byte_of_Z (Z_of_byte b1);
                byte_of_Z (Z_of_byte b2); byte_of_Z (Z_of_byte b3)];
    [|rewrite !byte_of_Z_of_byte; reflexivity].
  unfold PutUint32. rewrite !Z.shiftr_div_pow2 by lia.
  set (B0 := Z_of_byte b0) in *. set (B1 := Z_of_byte b1) in *.
  set (B2 := Z_of_byte b2) in *. set (B3 := Z_of_byte b3) in *.
  assert (E24 : (B0 * 2 ^ 24 + B1 * 2 ^ 16 + B2 * 2 ^ 8 + B3) / 2 ^ 24 = B0).
  { symmetry. apply (Z.div_unique _ _ _ (B1 * 2 ^ 16 + B2 * 2 ^ 8 + B3)); lia. }
  assert (E16 : (B0 * 2 ^ 24 + B1 * 2 ^ 16 + B2 * 2 ^ 8 + B3) / 2 ^ 16
                = B0 * 2 ^ 8 + B1).
  { symmetry. apply (Z.div_unique _ _ _ (B2 * 2 ^ 8 + B3)); lia. }
  assert (E8 : (B0 * 2 ^ 24 + B1 * 2 ^ 16 + B2 * 2 ^ 8 + B3) / 2 ^ 8
               = B0 * 2 ^ 16 + B1 * 2 ^ 8 + B2).
  { symmetry. apply (Z.div_unique _ _ _ B3); lia. }
  rewrite E24, E16, E8.
  assert (M : forall hi lo, 0 <= lo < 256 ->
                            byte_of_Z (hi * 256 + lo) = byte_of_Z lo).
  { intros hi lo Hlo. unfold byte_of_Z.
    rewrite Z.add_comm, Z.mod_add by lia. reflexivity. }
  apply f_equal2; [reflexivity|]. apply f_equal2; [|apply f_equal2].
  - replace (B0 * 2 ^ 8 + B1) with (B0 * 256 + B1) by lia. apply M; lia.
  - replace (B0 * 2 ^ 16 + B1 * 2 ^ 8 + B2) with ((B0 * 2 ^ 8 + B1) * 256 + B2)
      by lia. apply M; lia.
  - apply f_equal2; [|reflexivity].
    replace (B0 * 2 ^ 24 + B1 * 2 ^ 16 + B2 * 2 ^ 8 + B3)
      with ((B0 * 2 ^ 16 + B1 * 2 ^ 8 + B2) * 256 + B3) by lia. apply M; lia.
Qed.

(** ** StssBox.IsSyncSample *)

Lemma index_Some (l : list Z) (h v : Z) :
  Stss.index l h = Some v <->
  0 <= h < len l /\ nth_error l (Z.to_nat h) = Some v.
Proof.
  unfold Stss.index.
  destruct (Z.leb_spec 0 h); destruct (Z.ltb_spec h (len l)); cbn [andb];
    (split; [intros H1 | intros [H1 H2]]);
    try discriminate; try lia; auto.
Qed.

Lemma index_in_range (l : list Z) (h : Z) :
  0 <= h < len l -> exists v, Stss.index l h = Some v.
Proof.
  intros Hh.
  destruct (nth_error l (Z.to_nat h)) as [v|] eqn:E.
  - exists v. apply index_Some. auto.
  - apply nth_error_None in E. unfold len in Hh. lia.
Qed.

Lemma index_In (l : list Z) (v : Z) :
  In v l <-> exists h, Stss.index l h = Some v.
Proof.
  split.
  - intros Hin. apply In_nth_error in Hin as [k Hk].
    exists (Z.of_nat k). apply index_Some. rewrite Nat2Z.id. split; [|exact Hk].
    assert (k < List.length l)%nat by (apply nth_error_Some; congruence).
    unfold len. lia.
  - intros [h Hh]. apply index_Some in Hh as [_ Hh].
    eapply nth_error_In; eauto.
Qed.

Lemma ascending_tail (a : Z) (l : list Z) :
  ascending (a :: l) = true -> ascending l = true.
Proof.
  destruct l as [|b l]; [reflexivity|].
  cbn [ascending]. intros H. apply andb_true_iff in H. tauto.
Qed.

Lemma ascending_head (a : Z) (l : list Z) :
  ascending (a :: l) = true -> Forall (fun x => a < x) l.
Proof.
  revert a. induction l as [|b l IH]; intros a H; [constructor|].
  cbn [ascending] in H. apply andb_true_iff in H as [Hab Hl].
  apply Z.ltb_lt in Hab. constructor; [exact Hab|].
  eapply Forall_impl; [|apply IH; exact Hl]. cbn. intros; lia.
Qed.

Lemma ascending_nth (l : list Z) :
  ascending l = true ->
  forall p q vp vq, (p < q)%nat ->
    nth_error l p = Some vp -> nth_error l q = Some vq -> vp < vq.
Proof.
  induction l as [|a l IH]; intros Hl p q vp vq Hpq Hp Hq.
  - destruct p; discriminate.
  - destruct q as [|q]; [lia|]. cbn [nth_error] in Hq.
    destruct p as [|p].
    + cbn [nth_error] in Hp. injection Hp as <-.
      pose proof (ascending_head _ _ Hl) as Hall.
      rewrite Forall_forall in Hall. apply Hall.
      eapply nth_error_In; eauto.
    + cbn [nth_error] in Hp.
      apply (IH (ascending_tail _ _ Hl) p q); [lia|assumption|assumption].
Qed.

Lemma ascending_index (l : list Z) (p q vp vq : Z) :
  ascending l = true -> p < q ->
  Stss.index l p = Some vp -> Stss.index l q = Some vq -> vp < vq.
Proof.
  intros Hl Hpq Hp Hq.
  apply index_Some in Hp as [Hp1 Hp2]. apply index_Some in Hq as [Hq1 Hq2].
  apply (ascending_nth l Hl (Z.to_nat p) (Z.to_nat q)); [lia|assumption|assumption].
Qed.

Lemma shiftr1_bounds (i j : Z) :
  i < j -> i <= Z.shiftr (i + j) 1 < j.
Proof.
  intros Hij. rewrite Z.shiftr_div_pow2 by lia. change (2 ^ 1) with 2.
  pose proof (Z.div_le_lower_bound (i + j) 2 i).
  pose proof (Z.div_lt_upper_bound (i + j) 2 j). lia.
Qed.

(** The loop ends, without a panic, at the lowest index whose entry is not
    smaller than [sampleNr], or at the length. *)
Lemma search_spec (s : list Z) (sampleNr i j : Z) :
  ascending s = true -> 0 <= i <= j -> j <= len s ->
  below s sampleNr i -> above s sampleNr j ->
  exists r, Stss.search s sampleNr i j = Ret r
            /\ i <= r <= j /\ below s sampleNr r /\ above s sampleNr r.
Proof.
  intros Hs.
  apply (Stss.search_elim
           (fun s sampleNr i j res =>
              ascending s = true -> 0 <= i <= j -> j <= len s ->
              below s sampleNr i -> above s sampleNr j ->
              exists r, res = Ret r
                        /\ i <= r <= j /\ below s sampleNr r
                        /\ above s sampleNr r));
    [| |exact Hs]; clear s sampleNr i j Hs.
  - intros s x i j Hlt IH1 IH2 _ Hs Hij Hj Hb Ha. cbv zeta in *.
    pose proof (shiftr1_bounds i j Hlt) as Hh.
    set (h := Z.shiftr (i + j) 1) in *.
    destruct (index_in_range s h ltac:(lia)) as [v Hv]. rewrite Hv.
    destruct (v <? x) eqn:Hvx.
    + apply Z.ltb_lt in Hvx.
      destruct (IH1 v Hs) as [r (Hr & Hr1 & Hr2 & Hr3)]; [lia|lia| |exact Ha|].
      * intros k w Hk Hkh.
        destruct (Z.eq_dec k h) as [->|Hne]; [congruence|].
        pose proof (ascending_index s k h w v Hs ltac:(lia) Hk Hv). lia.
      * exists r. repeat split; try assumption; lia.
    + apply Z.ltb_ge in Hvx.
      destruct (IH2 v Hs) as [r (Hr & Hr1 & Hr2 & Hr3)]; [lia|lia|exact Hb| |].
      * intros k w Hk Hkh.
        destruct (Z.eq_dec k h) as [->|Hne]; [congruence|].
        pose proof (ascending_index s h k v w Hs ltac:(lia) Hv Hk). lia.
      * exists r. repeat split; try assumption; lia.
  - intros s x i j Hge _ Hs Hij Hj Hb Ha.
    assert (i = j) as -> by lia.
    exists j. repeat split; try assumption; lia.
Qed.

(** C2. For a strictly ascending [SampleNumber], [IsSyncSample] returns
    (without a panic) true exactly when the sample number occurs in the
    sequence and false exactly when it does not; on the empty sequence it
    returns false. The result is the only thing the call produces: the box
    is read, never written. *)
Theorem IsSyncSample_correct (b : StssBox) (sampleNr : Z) :
  (ascending (SampleNumber b) = true ->
     (Stss.IsSyncSample b sampleNr = Ret true <-> In sampleNr (SampleNumber b))
     /\ (Stss.IsSyncSample b sampleNr = Ret false
         <-> ~ In sampleNr (SampleNumber b)))
  /\ (SampleNumber b = [] -> Stss.IsSyncSample b sampleNr = Ret false).
Proof.
  assert (Main : ascending (SampleNumber b) = true ->
                 (In sampleNr (SampleNumber b)
                  -> Stss.IsSyncSample b sampleNr = Ret true)
                 /\ (~ In sampleNr (SampleNumber b)
                     -> Stss.IsSyncSample b sampleNr = Ret false)).
  { intros Hs. unfold Stss.IsSyncSample.
    set (s := SampleNumber b) in *.
    destruct (search_spec s sampleNr 0 (len s) Hs) as [r (Hr & Hr1 & Hb & Ha)].
    - unfold len; lia.
    - lia.
    - intros k v Hk Hk0. apply index_Some in Hk. lia.
    - intros k v Hk Hk0. apply index_Some in Hk. lia.
    - rewrite Hr. cbn [bind].
      destruct (r <? len s) eqn:Hlt.
      + apply Z.ltb_lt in Hlt.
        destruct (index_in_range s r ltac:(lia)) as [v Hv].
        rewrite Hv. cbn [orPanic bind].
        destruct (v =? sampleNr) eqn:Hveq.
        * apply Z.eqb_eq in Hveq. subst v. split; [reflexivity|].
          intros Hn. exfalso. apply Hn. apply index_In. eauto.
        * apply Z.eqb_neq in Hveq. split; [|reflexivity].
          intros Hin. exfalso. apply index_In in Hin as [k Hk].
          destruct (Z.lt_ge_cases k r) as [Hkr|Hkr].
          -- pose proof (Hb k sampleNr Hk Hkr). lia.
          -- destruct (Z.eq_dec k r) as [->|Hne]; [congruence|].
             pose proof (ascending_index s r k v sampleNr Hs ltac:(lia) Hv Hk).
             pose proof (Ha r v Hv ltac:(lia)). lia.
      + apply Z.ltb_ge in Hlt. split; [|reflexivity].
        intros Hin. exfalso. apply index_In in Hin as [k Hk].
        pose proof (Hb k sampleNr Hk) as Hlt'.
        apply index_Some in Hk. lia. }
  split.
  - intros Hs. destruct (Main Hs) as [Ht Hf].
    destruct (in_dec Z.eq_dec sampleNr (SampleNumber b)) as [Hin|Hnin].
    + specialize (Ht Hin). rewrite Ht. split; split; intros H;
        solve [assumption | reflexivity | discriminate | contradiction].
    + specialize (Hf Hnin). rewrite Hf. split; split; intros H;
        solve [assumption | reflexivity | discriminate | contradiction].
  - intros He. destruct Main as [_ Hf]; [rewrite He; reflexivity|].
    apply Hf. rewrite He. intros [].
Qed.

Lemma IsSyncSample_correct_witness :
  let b := mkStss 0 0 [1; 5; 9; 12] in
  ((Stss.IsSyncSample b 9 = Ret true <-> In 9 (SampleNumber b))
   /\ (Stss.IsSyncSample b 9 = Ret false <-> ~ In 9 (SampleNumber b)))
  /\ Stss.IsSyncSample (mkStss 0 0 []) 9 = Ret false.
Proof.
  split.
  - apply (proj1 (IsSyncSample_correct (mkStss 0 0 [1; 5; 9; 12]) 9)).
    reflexivity.
  - apply (proj2 (IsSyncSample_correct (mkStss 0 0 []) 9)). reflexivity.
Defined.

(** ** DecodeStss on a body shorter than its entry count declares *)

Lemma slice_Some (data : list byte) (lo hi : Z) :
  0 <= lo <= hi -> hi <= len data ->
  exists bs, slice data lo hi = Some bs /\ len bs = hi - lo.
Proof.
  intros H1 H2. unfold slice.
  destruct (Z.leb_spec 0 lo); [|lia].
  destruct (Z.leb_spec lo hi); [|lia].
  destruct (Z.leb_spec hi (len data)); [|lia].
  cbn [andb]. eexists; split; [reflexivity|].
  unfold len in *. rewrite length_firstn, length_skipn. lia.
Qed.

Lemma slice_None (data : list byte) (lo hi : Z) :
  len data < hi -> slice data lo hi = None.
Proof.
  intros H. unfold slice.
  destruct (Z.leb_spec hi (len data)); [lia|].
  rewrite andb_false_r. reflexivity.
Qed.

Lemma BigEndian_Uint32_Some (bs : list byte) :
  4 <= len bs -> exists v, BigEndian_Uint32 bs = Some v.
Proof.
  unfold len.
  destruct bs as [|b0 [|b1 [|b2 [|b3 rest]]]]; cbn [List.length]; try lia.
  intros _. eexists; reflexivity.
Qed.

Lemma decodeSamples_overrun (data : list byte) (k : nat) :
  forall (i : Z) (acc : list Z),
    0 <= i -> 8 + 4 * i <= len data < 8 + 4 * (i + Z.of_nat k) ->
    Stss.decodeSamples k i data acc = Panic.
Proof.
  induction k as [|k IH]; intros i acc Hi Hlen; [lia|].
  cbn [Stss.decodeSamples].
  destruct (Z.le_gt_cases (12 + 4 * i) (len data)) as [Hfit|Hshort].
  - destruct (slice_Some data (8 + 4 * i) (12 + 4 * i)) as [bs [Hbs Hl]];
      [lia|lia|].
    rewrite Hbs. cbn [orPanic bind].
    destruct (BigEndian_Uint32_Some bs ltac:(lia)) as [v Hv].
    rewrite Hv. cbn [orPanic bind].
    apply IH; lia.
  - rewrite slice_None by lia. reflexivity.
Qed.

(** C6. When the entry count read from bytes 4 to 8 of the body declares
    more entries than the rest of the body holds, [DecodeStss] does not
    return an error: the slice expression of the loop panics. *)
Theorem DecodeStss_entry_count_overrun_panics
    (hdr : boxHeader) (startPos : Z) (r r' : ioReader)
    (data b1 : list byte) (ec : Z) :
  readBoxBody r hdr = (Ret data, r') ->
  slice data 4 8 = Some b1 ->
  BigEndian_Uint32 b1 = Some ec ->
  len data < 8 + 4 * ec ->
  Stss.DecodeStss hdr startPos r = (Panic, r').
Proof.
  intros Hbody Hb1 Hec Hshort.
  unfold Stss.DecodeStss. rewrite Hbody. f_equal.
  unfold Stss.decodeBody.
  assert (Hlen : 8 <= len data).
  { unfold slice in Hb1.
    destruct (Z.leb_spec 8 (len data)); [assumption|].
    rewrite andb_false_r in Hb1. discriminate. }
  destruct (slice_Some data 0 4) as [b0 [Hb0 Hl0]]; [lia|lia|].
  rewrite Hb0. cbn [orPanic bind].
  destruct (BigEndian_Uint32_Some b0 ltac:(lia)) as [vf Hvf].
  rewrite Hvf. cbn [orPanic bind].
  rewrite Hb1. cbn [orPanic bind]. rewrite Hec. cbn [orPanic bind].
  pose proof (BigEndian_Uint32_range _ _ Hec) as Hr.
  rewrite (decodeSamples_overrun data (Z.to_nat ec) 0 []); [reflexivity|lia|].
  rewrite Z2Nat.id by lia. lia.
Qed.

(** The body [00 00 00 00 | 00 00 00 02 | 00 00 00 01]: two entries
    declared, one present. *)
Lemma DecodeStss_entry_count_overrun_witness :
  Stss.DecodeStss (mkHdr "stss" 20 8) 0
    [x00; x00; x00; x00; x00; x00; x00; x02; x00; x00; x00; x01]
  = (Panic, []).
Proof.
  apply (DecodeStss_entry_count_overrun_panics
           (mkHdr "stss" 20 8) 0
           [x00; x00; x00; x00; x00; x00; x00; x02; x00; x00; x00; x01] []
           [x00; x00; x00; x00; x00; x00; x00; x02; x00; x00; x00; x01]
           [x00; x00; x00; x02] 2).
  - reflexivity.
  - reflexivity.
  - reflexivity.
  - vm_compute. reflexivity.
Defined.

(** ** AudioSampleEntryBox.AddChild and its type assertions *)

(** C10. [AddChild] panics exactly on a child whose tag is "esds" or "sinf"
    while its dynamic type is not the one asserted, as for an opaque box
    carrying one of these tags; it then neither appends the child nor returns
    an error. On every other child it appends the child. *)
Theorem AddChild_panics_on_tag_mismatch (a : AudioSampleEntryBox) :
  (forall o : OtherBox,
      other_type o = "esds" \/ other_type o = "sinf" ->
      Audio.AddChild a (BOther o) = Panic)
  /\ (forall child : Box,
         Audio.AddChild a child = Panic <-> tagMismatch child = true)
  /\ (forall child : Box,
         tagMismatch child = false ->
         exists a', Audio.AddChild a child = Ret a'
                    /\ Children a' = Children a ++ [child]).
Proof.
  split; [|split].
  - intros o [H|H]; unfold Audio.AddChild; cbn [BoxType]; rewrite H;
      reflexivity.
  - intros child. unfold Audio.AddChild, tagMismatch.
    destruct child as [e|s|b|o]; cbn [BoxType isEsds isSinf Stss.Type_];
      try (cbn; split; discriminate).
    destruct (String.eqb (other_type o) "esds") eqn:E1; cbn;
      [split; reflexivity|].
    destruct (String.eqb (other_type o) "sinf") eqn:E2; cbn;
      [split; reflexivity|split; discriminate].
  - intros child Hm. unfold Audio.AddChild, tagMismatch in *.
    destruct child as [e|s|b|o]; cbn [BoxType isEsds isSinf Stss.Type_] in *;
      try (cbn; eexists; split; reflexivity).
    destruct (String.eqb (other_type o) "esds") eqn:E1; cbn in Hm;
      [discriminate|].
    destruct (String.eqb (other_type o) "sinf") eqn:E2; cbn in Hm;
      [discriminate|].
    cbn. eexists; split; reflexivity.
Qed.

Lemma AddChild_panics_on_tag_mismatch_witness :
  Audio.AddChild (Audio.NewAudioSampleEntryBox "mp4a")
                 (BOther (mkOther "esds" opaqueImpl)) = Panic
  /\ exists a', Audio.AddChild (Audio.NewAudioSampleEntryBox "mp4a")
                               (BOther (mkOther "btrt" opaqueImpl)) = Ret a'
                /\ Children a' = [BOther (mkOther "btrt" opaqueImpl)].
Proof.
  pose proof (AddChild_panics_on_tag_mismatch
                (Audio.NewAudioSampleEntryBox "mp4a")) as [H1 [_ H3]].
  split.
  - apply H1. left. reflexivity.
  - apply (H3 (BOther (mkOther "btrt" opaqueImpl))). reflexivity.
Defined.

(** ** The fixed fields of the audio sample entry *)

Lemma fixedFieldBytes_length (a : AudioSampleEntryBox) :
  len (fixedFieldBytes a) = 28.
Proof. reflexivity. Qed.

Lemma WriteBytes_fits (sw : Bits.SliceWriter) (p : list byte) :
  Bits.accError sw = None ->
  len (Bits.sw_buf sw) + len p <= Bits.sw_len sw ->
  Bits.WriteBytes sw p = Bits.mkSW (Bits.sw_buf sw ++ p) (Bits.sw_len sw) None.
Proof.
  intros He Hfit. unfold Bits.WriteBytes. rewrite He.
  destruct (Z.gtb_spec (len (Bits.sw_buf sw) + len p) (Bits.sw_len sw));
    [lia|reflexivity].
Qed.

Lemma len_app {A : Type} (l1 l2 : list A) : len (l1 ++ l2) = len l1 + len l2.
Proof. unfold len. rewrite length_app. lia. Qed.

Lemma writeFixedFields_fits (a : AudioSampleEntryBox) (sw : Bits.SliceWriter) :
  Bits.accError sw = None ->
  len (Bits.sw_buf sw) + 28 <= Bits.sw_len sw ->
  Audio.writeFixedFields a sw
  = Bits.mkSW (Bits.sw_buf sw ++ fixedFieldBytes a) (Bits.sw_len sw) None.
Proof.
  intros He Hfit. destruct sw as [buf n e]. cbn in He, Hfit. subst e.
  unfold Audio.writeFixedFields, Bits.WriteZeroBytes, Bits.WriteUint16,
    Bits.WriteUint32.
  cbn [Bits.sw_buf Bits.sw_len].
  repeat (rewrite (WriteBytes_fits (Bits.mkSW _ _ None));
          [cbn [Bits.sw_buf Bits.sw_len Bits.accError]
          | reflexivity
          | cbn [Bits.sw_buf Bits.sw_len Bits.accError];
            rewrite ?len_app; unfold len in *;
            cbn [List.length repeat PutUint16 PutUint32]; lia]).
  unfold fixedFieldBytes. rewrite <- !app_assoc. reflexivity.
Qed.

(** What [decodeFixedFields] leaves in the sample rate. *)
Lemma decodeFixedFields_SampleRate
    (nm : string) (body : list byte) (a : AudioSampleEntryBox)
    (s : SliceReader.t) :
  Audio.decodeFixedFields nm (SliceReader.NewSliceReader body) = Ret (a, s) ->
  exists f v, slice body 24 28 = Some f /\ BigEndian_Uint32 f = Some v
              /\ SampleRate a = makeUint16FromFixed32 v
              /\ SliceReader.data s = body /\ SliceReader.pos s = 28.
Proof.
  unfold Audio.decodeFixedFields, SliceReader.SkipBytes, SliceReader.ReadUint16,
    SliceReader.ReadUint32, SliceReader.NewSliceReader.
  cbn [bind SliceReader.data SliceReader.pos Z.add Pos.add Pos.succ].
  destruct (slice body 6 8) as [b1|]; [|discriminate]. cbn [orPanic bind].
  destruct (BigEndian_Uint16 b1) as [v1|]; [|discriminate].
  cbn [orPanic bind SliceReader.data SliceReader.pos Z.add Pos.add Pos.succ
       Pos.add_carry].
  destruct (slice body 16 18) as [b2|]; [|discriminate]. cbn [orPanic bind].
  destruct (BigEndian_Uint16 b2) as [v2|]; [|discriminate].
  cbn [orPanic bind SliceReader.data SliceReader.pos Z.add Pos.add Pos.succ
       Pos.add_carry].
  destruct (slice body 18 20) as [b3|]; [|discriminate]. cbn [orPanic bind].
  destruct (BigEndian_Uint16 b3) as [v3|]; [|discriminate].
  cbn [orPanic bind SliceReader.data SliceReader.pos Z.add Pos.add Pos.succ
       Pos.add_carry].
  destruct (slice body 24 28) as [b4|]; [|discriminate]. cbn [orPanic bind].
  destruct (BigEndian_Uint32 b4) as [v4|] eqn:E4; [|discriminate].
  cbn [orPanic bind SliceReader.data SliceReader.pos Z.add Pos.add Pos.succ
       Pos.add_carry].
  intros [= <- <-]. exists b4, v4. cbn. auto.

Qed.

Lemma slice_len (data bs : list byte) (lo hi : Z) :
  slice data lo hi = Some bs -> len bs = hi - lo.
Proof.
  unfold slice.
  destruct (Z.leb_spec 0 lo); [|discriminate].
  destruct (Z.leb_spec lo hi); [|discriminate].
  destruct (Z.leb_spec hi (len data)); [|discriminate].
  cbn [andb]. intros [= <-].
  unfold len in *. rewrite length_firstn, length_skipn. lia.
Qed.

Lemma makeUint16FromFixed32_top (v : Z) :
  0 <= v < 2 ^ 32 -> makeUint16FromFixed32 v = Z.shiftr v 16.
Proof.
  intros Hv. unfold makeUint16FromFixed32, uint16.
  rewrite Z.shiftr_div_pow2 by lia.
  apply Z.mod_small. split; [apply Z.div_pos; lia|].
  apply Z.div_lt_upper_bound; lia.
Qed.

Lemma makeFixed32Uint_shift (nr : Z) :
  0 <= nr < 2 ^ 16 -> makeFixed32Uint nr = Z.shiftl nr 16.
Proof.
  intros Hn. unfold makeFixed32Uint, uint32.
  rewrite Z.shiftl_mul_pow2 by lia. apply Z.mod_small. lia.
Qed.

Lemma fixed_round_trip (v : Z) :
  0 <= v < 2 ^ 32 ->
  makeFixed32Uint (makeUint16FromFixed32 v) = v - v mod 2 ^ 16.
Proof.
  intros Hv. rewrite makeUint16FromFixed32_top by assumption.
  rewrite Z.shiftr_div_pow2 by lia.
  assert (0 <= v / 2 ^ 16 < 2 ^ 16).
  { split; [apply Z.div_pos; lia|]. apply Z.div_lt_upper_bound; lia. }
  rewrite makeFixed32Uint_shift by assumption.
  rewrite Z.shiftl_mul_pow2 by lia.
  pose proof (Z.div_mod v (2 ^ 16) ltac:(lia)). lia.
Qed.

(** ** AudioSampleEntryBox.RemoveEncryption *)

Lemma findSinf_first (pre post : list Box) (c : Box) (i : nat) :
  noSinf pre = true -> sinfTagged c = true ->
  Audio.findSinf (pre ++ c :: post) i = Some (i + List.length pre)%nat.
Proof.
  revert i. induction pre as [|p pre IH]; intros i Hpre Hc.
  - cbn [app Audio.findSinf List.length]. unfold sinfTagged in Hc.
    rewrite Hc. f_equal. lia.
  - cbn [noSinf forallb] in Hpre. apply andb_true_iff in Hpre as [Hp Hpre].
    cbn [app Audio.findSinf List.length]. unfold sinfTagged in Hp.
    apply negb_true_iff in Hp. rewrite Hp.
    rewrite IH by assumption. f_equal. lia.
Qed.

Lemma findSinf_none (cs : list Box) (i : nat) :
  noSinf cs = true -> Audio.findSinf cs i = None.
Proof.
  revert i. induction cs as [|c cs IH]; intros i H; [reflexivity|].
  cbn [noSinf forallb] in H. apply andb_true_iff in H as [Hc Hcs].
  unfold sinfTagged in Hc. apply negb_true_iff in Hc.
  cbn [Audio.findSinf]. rewrite Hc. apply IH. exact Hcs.
Qed.

(** The reference [Sinf] as [AddChild] keeps it: it is nil exactly when no
    child has the tag "sinf". *)
Lemma AddChild_keeps_sinf_reference
    (a a' : AudioSampleEntryBox) (child : Box) :
  Audio.AddChild a child = Ret a' ->
  (Sinf a = None <-> noSinf (Children a) = true) ->
  (Sinf a' = None <-> noSinf (Children a') = true).
Proof.
  unfold Audio.AddChild, noSinf. intros H Hinv.
  destruct (String.eqb (BoxType child) "esds") eqn:E1.
  - destruct child; try discriminate. cbn in H. injection H as <-.
    cbn [Sinf Children]. rewrite forallb_app. cbn.
    rewrite !andb_true_r. exact Hinv.
  - destruct (String.eqb (BoxType child) "sinf") eqn:E2.
    + destruct child; try discriminate. cbn in H. injection H as <-.
      cbn [Sinf Children]. rewrite forallb_app. cbn.
      rewrite andb_false_r. split; discriminate.
    + cbn in H. injection H as <-. cbn [Sinf Children].
      rewrite forallb_app. cbn [forallb]. unfold sinfTagged. rewrite E2.
      cbn. rewrite !andb_true_r. exact Hinv.
Qed.

(** C3, as the code has it. [RemoveEncryption] returns an error and leaves
    the box as it is when the tag is not "enca", and when the tag is "enca"
    and the reference [Sinf] is nil. When the tag is "enca" and the box that
    [Sinf] refers to is the only child with the tag "sinf", it removes that
    child, sets [Sinf] to nil, renames the box to the [DataFormat] of the
    removed box, and returns the removed box. *)
Theorem RemoveEncryption_spec (a : AudioSampleEntryBox) :
  (name a <> "enca" ->
     Audio.RemoveEncryption a
     = (a, Fail (Errorf ("is not encrypted: " ++ name a))))
  /\ (name a = "enca" -> Sinf a = None ->
        Audio.RemoveEncryption a
        = (a, Fail (Errorf "does not have sinf box")))
  /\ (forall (pre post : list Box) (sinf : SinfBox),
         name a = "enca" -> Sinf a = Some sinf ->
         Children a = pre ++ BSinf sinf :: post ->
         noSinf pre = true -> noSinf post = true ->
         Audio.RemoveEncryption a
         = (setName (DataFormat (Frma sinf)) (dropSinf (pre ++ post) a),
            Ret sinf)
         /\ noSinf (pre ++ post) = true).
Proof.
  split; [|split].
  - intros Hn. unfold Audio.RemoveEncryption.
    apply String.eqb_neq in Hn. rewrite Hn. reflexivity.
  - intros Hn Hs. unfold Audio.RemoveEncryption.
    apply String.eqb_eq in Hn. rewrite Hn, Hs. reflexivity.
  - intros pre post sinf Hn Hs Hc Hpre Hpost. split.
    + unfold Audio.RemoveEncryption.
      apply String.eqb_eq in Hn. rewrite Hn, Hs. cbn [negb].
      rewrite Hc, findSinf_first by (assumption || reflexivity).
      cbn [Nat.add].
      replace (firstn (List.length pre) (pre ++ BSinf sinf :: post)) with pre.
      2:{ rewrite firstn_app, Nat.sub_diag, firstn_all. cbn [firstn].
          rewrite app_nil_r. reflexivity. }
      replace (skipn (S (List.length pre)) (pre ++ BSinf sinf :: post))
        with post.
      2:{ rewrite skipn_app.
          rewrite (skipn_all2 pre) by lia.
          replace (S (List.length pre) - List.length pre)%nat with 1%nat by lia.
          reflexivity. }
      reflexivity.
    + unfold noSinf in *. rewrite forallb_app, Hpre, Hpost. reflexivity.
Qed.

Lemma RemoveEncryption_spec_witness :
  Audio.RemoveEncryption (Audio.NewAudioSampleEntryBox "mp4a")
  = (Audio.NewAudioSampleEntryBox "mp4a",
     Fail (Errorf "is not encrypted: mp4a"))
  /\ Audio.RemoveEncryption (Audio.NewAudioSampleEntryBox "enca")
     = (Audio.NewAudioSampleEntryBox "enca",
        Fail (Errorf "does not have sinf box"))
  /\ Audio.RemoveEncryption encaOne
     = (mkAudio "mp4a" 1 2 16 48000 None None
                [BOther (mkOther "btrt" opaqueImpl)],
        Ret sinfA).
Proof.
  split; [|split].
  - apply (proj1 (RemoveEncryption_spec (Audio.NewAudioSampleEntryBox "mp4a"))).
    cbn. discriminate.
  - apply (proj1 (proj2 (RemoveEncryption_spec
                           (Audio.NewAudioSampleEntryBox "enca"))));
      reflexivity.
  - apply (proj1 (proj2 (proj2 (RemoveEncryption_spec encaOne))
                    [BOther (mkOther "btrt" opaqueImpl)] [] sinfA
                    eq_refl eq_refl eq_refl eq_refl eq_refl)).
Defined.

Lemma encaTwo_built :
  (a1 <- Audio.CreateAudioSampleEntryBox "enca" 2 16 48000 (Some (BSinf sinfA)) ;;
   Audio.AddChild a1 (BSinf sinfB)) = Ret encaTwo.
Proof. reflexivity. Qed.

(** C3 as stated fails on a box with two sinf children: the call succeeds,
    the child it removes is the first sinf box while the box it returns, and
    whose format becomes the tag, is the second; the second stays in the
    child sequence. *)
Lemma RemoveEncryption_two_sinf_counterexample :
  exists a' returned removed,
    Audio.RemoveEncryption encaTwo = (a', Ret returned)
    /\ Children encaTwo = removed :: Children a'
    /\ removed = BSinf sinfA
    /\ returned = sinfB
    /\ BSinf returned <> removed
    /\ name a' <> DataFormat (Frma sinfA)
    /\ In (BSinf returned) (Children a')
    /\ noSinf (Children a') = false.
Proof.
  eexists _, _, _. split; [reflexivity|].
  cbn. repeat split; try reflexivity; try discriminate; auto.
Qed.

(** ** Size() against the bytes that Encode and EncodeSW write *)

Lemma WriteBytes_clean (sw : Bits.SliceWriter) (p : list byte) :
  Bits.accError (Bits.WriteBytes sw p) = None ->
  Bits.accError sw = None
  /\ Bits.sw_buf (Bits.WriteBytes sw p) = Bits.sw_buf sw ++ p.
Proof.
  unfold Bits.WriteBytes.
  destruct (Bits.accError sw) eqn:E; [congruence|].
  destruct (len (Bits.sw_buf sw) + len p >? Bits.sw_len sw);
    cbn [Bits.accError Bits.sw_buf]; [discriminate|auto].
Qed.

Lemma writeFixedFields_clean (a : AudioSampleEntryBox) (sw : Bits.SliceWriter) :
  Bits.accError (Audio.writeFixedFields a sw) = None ->
  Bits.accError sw = None
  /\ Bits.sw_buf (Audio.writeFixedFields a sw)
     = Bits.sw_buf sw ++ fixedFieldBytes a.
Proof.
  unfold Audio.writeFixedFields, Bits.WriteZeroBytes, Bits.WriteUint16,
    Bits.WriteUint32, fixedFieldBytes.
  intros H.
  repeat match type of H with
         | Bits.accError (Bits.WriteBytes ?s ?p) = None =>
             let Hb := fresh "Hb" in
             apply WriteBytes_clean in H as [H Hb]; rewrite Hb; clear Hb
         end.
  split; [exact H|]. rewrite <- !app_assoc. reflexivity.
Qed.

Lemma writeSamples_clean (l : list Z) :
  forall sw,
    Bits.accError (Stss.writeSamples sw l) = None ->
    Bits.accError sw = None
    /\ exists bs, Bits.sw_buf (Stss.writeSamples sw l) = Bits.sw_buf sw ++ bs
                  /\ len bs = 4 * len l.
Proof.
  induction l as [|x l IH]; intros sw H; cbn [Stss.writeSamples] in *.
  - split; [exact H|]. exists []. rewrite app_nil_r. split; reflexivity.
  - apply IH in H as [H (bs & Hbs & Hl)].
    unfold Bits.WriteUint32 in *.
    apply WriteBytes_clean in H as [H Hb].
    split; [exact H|]. exists (PutUint32 x ++ bs).
    rewrite Hbs, Hb, <- app_assoc. split; [reflexivity|].
    rewrite len_app. unfold len in *. cbn [List.length PutUint32]. lia.
Qed.

Lemma tagBytes_length (nm : string) : len (tagBytes nm) = 4.
Proof.
  unfold tagBytes, len. rewrite length_firstn, length_app, repeat_length. lia.
Qed.

Lemma headerBytes_length (type : string) (size : Z) (hb : list byte) :
  headerBytes type size = Ret hb -> len hb = boxHeaderSize /\ size < 2 ^ 32.
Proof.
  unfold headerBytes. destruct (Z.geb_spec size (2 ^ 32)); [discriminate|].
  intros E. assert (hb = PutUint32 (uint32 size) ++ tagBytes type) as ->
    by congruence.
  split; [|lia]. rewrite len_app, tagBytes_length. reflexivity.
Qed.

Lemma status_ok (u : unit) : @Ret unit u = ok.
Proof. destruct u. reflexivity. Qed.

Lemma EncodeHeader_ok (type : string) (size : Z) (w w' : ioWriter) :
  EncodeHeader type size w = (w', ok) ->
  size < 2 ^ 32 /\ exists hb, w' = w ++ hb /\ len hb = boxHeaderSize.
Proof.
  unfold EncodeHeader. destruct (headerBytes type size) as [hb| |] eqn:E;
    try discriminate.
  intros [= <-]. apply headerBytes_length in E as [E1 E2]. eauto.
Qed.

Lemma EncodeHeaderSW_ok (type : string) (size : Z) (sw sw' : Bits.SliceWriter) :
  EncodeHeaderSW type size sw = (sw', ok) ->
  size < 2 ^ 32
  /\ exists hb, sw' = Bits.WriteBytes sw hb /\ len hb = boxHeaderSize.
Proof.
  unfold EncodeHeaderSW. destruct (headerBytes type size) as [hb| |] eqn:E;
    try discriminate.
  intros [= <-]. apply headerBytes_length in E as [E1 E2]. eauto.
Qed.

Lemma Stss_Size_nowrap (b : StssBox) :
  boxHeaderSize + 8 + 4 * len (SampleNumber b) < 2 ^ 64 ->
  Stss.Size b = boxHeaderSize + 8 + 4 * len (SampleNumber b).
Proof.
  intros H. unfold Stss.Size, uint64. unfold boxHeaderSize, len in *.
  rewrite Z.mod_small by lia. lia.
Qed.

Lemma Stss_EncodeSW_ok (b : StssBox) (sw sw' : Bits.SliceWriter) :
  Stss.EncodeSW b sw = (sw', ok) ->
  Bits.accError sw' = None
  /\ Bits.accError sw = None
  /\ exists bs, Bits.sw_buf sw' = Bits.sw_buf sw ++ bs
                /\ len bs = boxHeaderSize + 8 + 4 * len (SampleNumber b).
Proof.
  unfold Stss.EncodeSW.
  destruct (EncodeHeaderSW (Stss.Type_ b) (Stss.Size b) sw) as [sw1 st] eqn:Eh.
  destruct st as [u| |]; try discriminate.
  rewrite status_ok in Eh. apply EncodeHeaderSW_ok in Eh as (_ & hb & -> & Hhb).
  cbv zeta. intros E. apply pair_equal_spec in E as [E Hacc]. subst sw'.
  match type of Hacc with
  | Bits.AccError ?s = _ => assert (Hclean : Bits.accError s = None)
  end.
  { unfold Bits.AccError in Hacc.
    destruct (Bits.accError _); [discriminate|reflexivity]. }
  split; [exact Hclean|].
  apply writeSamples_clean in Hclean as [H (bs & Hbs & Hl)].
  rewrite Hbs. unfold Bits.WriteUint32 in *.
  apply WriteBytes_clean in H as [H Hb2]. rewrite Hb2.
  apply WriteBytes_clean in H as [H Hb1]. rewrite Hb1.
  apply WriteBytes_clean in H as [H Hb0]. rewrite Hb0.
  split; [exact H|].
  eexists. rewrite <- !app_assoc. split; [reflexivity|].
  rewrite !len_app, Hhb, Hl. unfold len; cbn [List.length PutUint32]. lia.
Qed.

Lemma Stss_Encode_ok (b : StssBox) (w w' : ioWriter) :
  Stss.Encode b w = (w', ok) ->
  exists bs, w' = w ++ bs
             /\ len bs = boxHeaderSize + 8 + 4 * len (SampleNumber b).
Proof.
  unfold Stss.Encode.
  destruct (int_of_uint64 (Stss.Size b) <? 0); [discriminate|].
  destruct (Stss.EncodeSW b _) as [sw st] eqn:E.
  destruct st as [u| |]; try discriminate.
  rewrite status_ok in E. apply Stss_EncodeSW_ok in E as (_ & _ & bs & Hbs & Hl).
  intros [= <-]. exists bs. unfold Write, Bits.Bytes. rewrite Hbs.
  split; [reflexivity|exact Hl].
Qed.

Lemma BStss_sizeMatchesEncode (b : StssBox) :
  boxHeaderSize + 8 + 4 * len (SampleNumber b) < 2 ^ 64 ->
  sizeMatchesEncode (BStss b).
Proof.
  intros Hn. unfold sizeMatchesEncode. cbn [BoxSize BoxEncode BoxEncodeSW].
  rewrite Stss_Size_nowrap by assumption.
  split; [unfold boxHeaderSize, len; lia|]. split.
  - intros w w' H. apply Stss_Encode_ok. exact H.
  - intros sw sw' H _. apply Stss_EncodeSW_ok in H. tauto.
Qed.

Lemma sumSizes_nonneg (cs : list Box) :
  Forall sizeMatchesEncode cs -> 0 <= sumSizes cs.
Proof.
  induction 1 as [|c cs Hc _ IH]; cbn [sumSizes fold_right]; [lia|].
  destruct Hc as [Hc _]. fold (sumSizes cs). lia.
Qed.

Lemma fold_sizes_nowrap (cs : list Box) :
  Forall sizeMatchesEncode cs ->
  forall acc, 0 <= acc -> acc + sumSizes cs < 2 ^ 64 ->
    fold_left (fun totalSize child => uint64 (totalSize + BoxSize child)) cs acc
    = acc + sumSizes cs.
Proof.
  induction 1 as [|c cs Hc Hcs IH]; intros acc Hacc Hsum;
    cbn [fold_left sumSizes fold_right] in *; [lia|].
  fold (sumSizes cs) in *.
  pose proof (sumSizes_nonneg cs Hcs). destruct Hc as [Hc _].
  unfold uint64 at 2. rewrite Z.mod_small by lia.
  rewrite IH by lia. lia.
Qed.

Lemma Audio_Size_nowrap (a : AudioSampleEntryBox) :
  Forall sizeMatchesEncode (Children a) ->
  nrAudioSampleBytesBeforeChildren + sumSizes (Children a) < 2 ^ 64 ->
  Audio.Size a = nrAudioSampleBytesBeforeChildren + sumSizes (Children a).
Proof.
  intros Hcs Hsum. unfold Audio.Size.
  unfold uint64 at 2. rewrite Z.mod_small by (cbv; split; congruence).
  apply fold_sizes_nowrap; [assumption|cbv; congruence|assumption].
Qed.

Lemma encodeChildren_ok (cs : list Box) :
  Forall sizeMatchesEncode cs ->
  forall w w', Audio.encodeChildren cs w = (w', ok) ->
               exists bs, w' = w ++ bs /\ len bs = sumSizes cs.
Proof.
  induction 1 as [|c cs Hc _ IH]; intros w w' H;
    cbn [Audio.encodeChildren sumSizes fold_right] in *.
  - apply pair_equal_spec in H as [<- _]. exists [].
    rewrite app_nil_r. split; reflexivity.
  - fold (sumSizes cs). destruct (BoxEncode c w) as [w1 st] eqn:E.
    destruct st as [u| |]; try (apply pair_equal_spec in H as [_ H];
                                discriminate).
    rewrite status_ok in E. destruct Hc as (_ & Hc & _).
    apply Hc in E as (bs1 & -> & Hl1).
    apply IH in H as (bs2 & -> & Hl2).
    exists (bs1 ++ bs2). rewrite app_assoc, len_app. split; [reflexivity|lia].
Qed.

Lemma encodeChildrenSW_ok (cs : list Box) :
  Forall sizeMatchesEncode cs ->
  forall sw sw',
    Audio.encodeChildrenSW cs sw = (sw', ok) ->
    Bits.accError sw' = None ->
    Bits.accError sw = None
    /\ exists bs, Bits.sw_buf sw' = Bits.sw_buf sw ++ bs
                  /\ len bs = sumSizes cs.
Proof.
  induction 1 as [|c cs Hc _ IH]; intros sw sw' H Hclean;
    cbn [Audio.encodeChildrenSW sumSizes fold_right] in *.
  - apply pair_equal_spec in H as [<- _]. split; [assumption|]. exists [].
    rewrite app_nil_r. split; reflexivity.
  - fold (sumSizes cs). destruct (BoxEncodeSW c sw) as [sw1 st] eqn:E.
    destruct st as [u| |]; try (apply pair_equal_spec in H as [_ H];
                                discriminate).
    rewrite status_ok in E. destruct Hc as (_ & _ & Hc).
    destruct (IH _ _ H Hclean) as (Hclean1 & bs2 & Hb2 & Hl2).
    destruct (Hc _ _ E Hclean1) as (Hclean0 & bs1 & Hb1 & Hl1).
    split; [assumption|].
    exists (bs1 ++ bs2). rewrite Hb2, Hb1, <- app_assoc, len_app.
    split; [reflexivity|lia].
Qed.

(** C1. An [StssBox] with [k] sample numbers has size [8 + 8 + 4k], and an
    [AudioSampleEntryBox] has size 36 plus the sizes of its children; an
    [Encode] or [EncodeSW] of either that succeeds has written exactly
    [Size()] bytes. For the audio sample entry every child has to satisfy
    the same invariant, and the sizes must not wrap around [uint64]; a call
    of [EncodeSW] succeeds when it returns nil and the slice writer has no
    accumulated error (what [StssBox.EncodeSW] returns). *)
Theorem Encode_writes_Size :
  (forall b : StssBox,
      boxHeaderSize + 8 + 4 * len (SampleNumber b) < 2 ^ 64 ->
      Stss.Size b = 8 + 8 + 4 * len (SampleNumber b)
      /\ (forall w w', Stss.Encode b w = (w', ok) ->
                       exists bs, w' = w ++ bs /\ len bs = Stss.Size b)
      /\ (forall sw sw', Stss.EncodeSW b sw = (sw', ok) ->
                         exists bs, Bits.sw_buf sw' = Bits.sw_buf sw ++ bs
                                    /\ len bs = Stss.Size b))
  /\ (forall a : AudioSampleEntryBox,
         Forall sizeMatchesEncode (Children a) ->
         nrAudioSampleBytesBeforeChildren + sumSizes (Children a) < 2 ^ 64 ->
         Audio.Size a = 36 + sumSizes (Children a)
         /\ (forall w w', Audio.Encode a w = (w', ok) ->
                          exists bs, w' = w ++ bs /\ len bs = Audio.Size a)
         /\ (forall sw sw', Audio.EncodeSW a sw = (sw', ok) ->
                            Bits.accError sw' = None ->
                            exists bs, Bits.sw_buf sw' = Bits.sw_buf sw ++ bs
                                       /\ len bs = Audio.Size a)).
Proof.
  split.
  - intros b Hn. rewrite (Stss_Size_nowrap b Hn). split; [reflexivity|]. split.
    + intros w w' H. apply Stss_Encode_ok in H. exact H.
    + intros sw sw' H. apply Stss_EncodeSW_ok in H. tauto.
  - intros a Hcs Hsum. pose proof (Audio_Size_nowrap a Hcs Hsum) as Hsz.
    pose proof (sumSizes_nonneg _ Hcs) as Hnn.
    unfold nrAudioSampleBytesBeforeChildren in *.
    split; [exact Hsz|]. split.
    + intros w w' H. unfold Audio.Encode in H.
      destruct (EncodeHeader (Audio.Type_ a) (Audio.Size a) w) as [w1 st] eqn:Eh.
      destruct st as [u| |]; try (apply pair_equal_spec in H as [_ H];
                                  discriminate).
      rewrite status_ok in Eh. apply EncodeHeader_ok in Eh as (Hlt & hb & -> & Hhb).
      assert (Hbuf : Audio.makebuf_len a = Audio.Size a - boxHeaderSize).
      { unfold Audio.makebuf_len, uint64, int_of_uint64, boxHeaderSize.
        rewrite Z.mod_small by lia.
        destruct (Z.ltb_spec (Audio.Size a - 8) (2 ^ 63)); lia. }
      rewrite Hbuf in H. unfold boxHeaderSize in *.
      destruct (Z.ltb_spec (Audio.Size a - 8) 0); [lia|].
      rewrite writeFixedFields_fits in H; [|reflexivity|cbn; lia].
      cbn [Bits.Bytes Bits.sw_buf Bits.NewSliceWriterWithSize app] in H.
      apply (encodeChildren_ok _ Hcs) in H as (bs & -> & Hl).
      unfold Write. exists (hb ++ fixedFieldBytes a ++ bs).
      rewrite <- !app_assoc. split; [reflexivity|].
      rewrite !len_app, fixedFieldBytes_length. lia.
    + intros sw sw' H Hclean. unfold Audio.EncodeSW in H.
      destruct (EncodeHeaderSW (Audio.Type_ a) (Audio.Size a) sw)
        as [sw1 st] eqn:Eh.
      destruct st as [u| |]; try (apply pair_equal_spec in H as [_ H];
                                  discriminate).
      rewrite status_ok in Eh.
      apply EncodeHeaderSW_ok in Eh as (Hlt & hb & -> & Hhb).
      destruct (encodeChildrenSW_ok _ Hcs _ _ H Hclean)
        as (Hclean2 & bs & Hbs & Hl).
      apply writeFixedFields_clean in Hclean2 as [Hclean1 Hff].
      apply WriteBytes_clean in Hclean1 as [_ Hh].
      exists (hb ++ fixedFieldBytes a ++ bs).
      rewrite Hbs, Hff, Hh, <- !app_assoc. split; [reflexivity|].
      rewrite !len_app, fixedFieldBytes_length. unfold boxHeaderSize in *. lia.
Qed.

Lemma raw_sizeMatchesEncode (tag : string) (bs : list byte) :
  sizeMatchesEncode (BOther (mkOther tag (rawImpl bs))).
Proof.
  unfold sizeMatchesEncode.
  cbn [BoxSize BoxEncode BoxEncodeSW other_impl rawImpl impl_size impl_encode
       impl_encodeSW].
  split; [unfold len; lia|]. split.
  - intros w w' H. apply pair_equal_spec in H as [<- _]. exists bs.
    split; reflexivity.
  - intros sw sw' H Hclean. apply pair_equal_spec in H as [<- _].
    apply WriteBytes_clean in Hclean as [H1 H2]. split; [exact H1|].
    exists bs. split; [exact H2|reflexivity].
Qed.

Lemma Encode_writes_Size_witness :
  (Stss.Size (mkStss 0 0 [1; 25]) = 8 + 8 + 4 * 2
   /\ (forall w w', Stss.Encode (mkStss 0 0 [1; 25]) w = (w', ok) ->
                    exists bs, w' = w ++ bs
                               /\ len bs = Stss.Size (mkStss 0 0 [1; 25]))
   /\ (forall sw sw', Stss.EncodeSW (mkStss 0 0 [1; 25]) sw = (sw', ok) ->
                      exists bs, Bits.sw_buf sw' = Bits.sw_buf sw ++ bs
                                 /\ len bs = Stss.Size (mkStss 0 0 [1; 25])))
  /\ (Audio.Size mp4aBox = 36 + sumSizes (Children mp4aBox)
      /\ (forall w w', Audio.Encode mp4aBox w = (w', ok) ->
                       exists bs, w' = w ++ bs /\ len bs = Audio.Size mp4aBox)
      /\ (forall sw sw', Audio.EncodeSW mp4aBox sw = (sw', ok) ->
                         Bits.accError sw' = None ->
                         exists bs, Bits.sw_buf sw' = Bits.sw_buf sw ++ bs
                                    /\ len bs = Audio.Size mp4aBox)).
Proof.
  split.
  - apply (proj1 Encode_writes_Size (mkStss 0 0 [1; 25])). vm_compute.
    reflexivity.
  - apply (proj2 Encode_writes_Size mp4aBox).
    + unfold mp4aBox, btrtBox. cbn [Children].
      apply Forall_cons; [apply raw_sizeMatchesEncode|].
      apply Forall_cons; [|apply Forall_nil].
      apply BStss_sizeMatchesEncode. vm_compute. reflexivity.
    + vm_compute. reflexivity.
Defined.

(** C1 as stated fails for [AudioSampleEntryBox.EncodeSW]: on a slice writer
    of 10 bytes, a box without children, whose size is 36, returns nil having
    written the 8 bytes of the header only; the overflow is in the writer's
    accumulated error alone, which this [EncodeSW] does not return. *)
Lemma EncodeSW_nil_return_counterexample :
  exists sw',
    Audio.EncodeSW (mkAudio "mp4a" 1 2 16 48000 None None [])
                   (Bits.NewSliceWriterWithSize 10) = (sw', ok)
    /\ Audio.Size (mkAudio "mp4a" 1 2 16 48000 None None []) = 36
    /\ Bits.accError sw' = Some ErrSliceWrite
    /\ len (Bits.sw_buf sw') = 8
    /\ ~ (exists bs,
            Bits.sw_buf sw'
            = Bits.sw_buf (Bits.NewSliceWriterWithSize 10) ++ bs
            /\ len bs = Audio.Size (mkAudio "mp4a" 1 2 16 48000 None None [])).
Proof.
  eexists. split; [vm_compute; reflexivity|].
  split; [reflexivity|]. split; [reflexivity|]. split; [reflexivity|].
  intros [bs [Hbs Hl]]. cbn [Bits.sw_buf Bits.NewSliceWriterWithSize app] in Hbs.
  rewrite <- Hbs in Hl. vm_compute in Hl. discriminate.
Qed.

(** The two boxes above do encode, to as many bytes as their sizes. *)
Example mp4aBox_encodes :
  exists bs, Audio.Encode mp4aBox [] = (bs, ok)
             /\ len bs = 80 /\ Audio.Size mp4aBox = 80.
Proof. eexists. vm_compute. repeat split; reflexivity. Qed.

(** ** DecodeAudioSampleEntry: a child that overshoots the declared end *)

Section BadSize.

Variable DecodeBox : Z -> ioReader -> outcome (option Box) * ioReader.
Variable hdr : boxHeader.
Variable startPos : Z.

Lemma loop_after_iterations (k : nat) :
  forall (st0 st : Audio.LoopState) (fuel : nat),
    Audio.iterations DecodeBox k hdr startPos st0 = Some st ->
    Audio.loop DecodeBox (k + fuel) hdr startPos st0
    = Audio.loop DecodeBox fuel hdr startPos st.
Proof.
  induction k as [|k IH]; intros st0 st fuel H;
    cbn [Audio.iterations Audio.loop Nat.add] in *.
  - congruence.
  - destruct (Audio.loopStep DecodeBox hdr startPos st0) as [st1|res];
      [|discriminate].
    apply IH. exact H.
Qed.

Lemma loopStep_overshoot (st : Audio.LoopState) (box : Box) (rest : ioReader)
    (a' : AudioSampleEntryBox) :
  DecodeBox (Audio.ls_pos st) (Audio.ls_rest st) = (Ret (Some box), rest) ->
  Audio.AddChild (Audio.ls_box st) box = Ret a' ->
  uint64 (Audio.ls_pos st + BoxSize box) > uint64 (startPos + hdr_size hdr) ->
  Audio.loopStep DecodeBox hdr startPos st = inr (Fail (Audio.badSize hdr)).
Proof.
  intros Hd Ha Hgt. unfold Audio.loopStep. rewrite Hd, Ha. cbn [bind].
  destruct (Z.eqb_spec (uint64 (Audio.ls_pos st + BoxSize box))
                       (uint64 (startPos + hdr_size hdr))); [lia|].
  destruct (Z.gtb_spec (uint64 (Audio.ls_pos st + BoxSize box))
                       (uint64 (startPos + hdr_size hdr))); [reflexivity|lia].
Qed.

End BadSize.

(** C7. Take any dispatcher and any input on which the body is read, the
    fixed fields are decoded and [k] children are decoded without leaving the
    loop. If the next child is decoded and added, and adding its size takes
    the position past [startPos + hdr.size], the decoder returns the error
    "Bad size when decoding" followed by the tag [hdr.name] of the box being
    decoded; no box is returned. *)
Theorem DecodeAudioSampleEntry_bad_size
    (DecodeBox : Z -> ioReader -> outcome (option Box) * ioReader)
    (hdr : boxHeader) (startPos : Z) (r r' : ioReader) (body : list byte)
    (k : nat) (st0 st : Audio.LoopState) (box : Box) (rest : ioReader)
    (a' : AudioSampleEntryBox) :
  readBoxBody r hdr = (Ret body, r') ->
  Audio.loopInit hdr startPos body = Ret st0 ->
  Audio.iterations DecodeBox k hdr startPos st0 = Some st ->
  DecodeBox (Audio.ls_pos st) (Audio.ls_rest st) = (Ret (Some box), rest) ->
  Audio.AddChild (Audio.ls_box st) box = Ret a' ->
  uint64 (Audio.ls_pos st + BoxSize box) > uint64 (startPos + hdr_size hdr) ->
  forall fuel : nat,
    (k < fuel)%nat ->
    Audio.DecodeAudioSampleEntry DecodeBox fuel hdr startPos r
    = (Some (Fail (Errorf ("Bad size when decoding " ++ hdr_name hdr))), r').
Proof.
  intros Hbody Hinit Hiter Hd Ha Hgt fuel Hfuel.
  unfold Audio.DecodeAudioSampleEntry. rewrite Hbody, Hinit. f_equal.
  replace fuel with (k + S (fuel - S k))%nat by lia.
  rewrite (loop_after_iterations DecodeBox hdr startPos k st0 st _ Hiter).
  cbn [Audio.loop].
  rewrite (loopStep_overshoot DecodeBox hdr startPos st box rest a' Hd Ha Hgt).
  reflexivity.
Qed.

Lemma DecodeAudioSampleEntry_bad_size_witness :
  Audio.DecodeAudioSampleEntry exampleDecodeBox 5 shortHdr 0 shortInput
  = (Some (Fail (Errorf "Bad size when decoding mp4a")), []).
Proof.
  apply (DecodeAudioSampleEntry_bad_size
           exampleDecodeBox shortHdr 0 shortInput [] (repeat x00 60) 1
           (Audio.mkLS (mkAudio "mp4a" 0 0 0 0 None None []) 36
                       (repeat x00 32))
           (Audio.mkLS (mkAudio "mp4a" 0 0 0 0 None None [btrtBox]) 56
                       (repeat x00 12))
           btrtBox []
           (mkAudio "mp4a" 0 0 0 0 None None [btrtBox; btrtBox])).
  - reflexivity.
  - vm_compute. reflexivity.
  - vm_compute. reflexivity.
  - reflexivity.
  - reflexivity.
  - vm_compute. reflexivity.
  - lia.
Defined.

(** ** Annex-B: the cases of annexb_test.go on the model *)

Example TestNaluExtraction :
  Avc.ExtractNalusFromByteStream [x00; x00; x00; x01; x02] = Some [[x02]]
  /\ Avc.ExtractNalusFromByteStream [x00; x00; x01; x02] = Some [[x02]]
  /\ Avc.ExtractNalusFromByteStream [x00; x00; x02] = None
  /\ Avc.ExtractNalusFromByteStream [x00; x00; x01] = None
  /\ Avc.ExtractNalusFromByteStream
       [x00; x00; x01; x02; x00; x00; x00; x01; x01]
     = Some [[x02]; [x01]].
Proof. repeat split; reflexivity. Qed.

Example TestByteStreamToNaluSampleConversion :
  Avc.ConvertByteStreamToNaluSample [x00; x00; x00; x01; x02; x03]
  = [x00; x00; x00; x02; x02; x03]
  /\ Avc.ConvertByteStreamToNaluSample [x00; x00; x01; x02; x03]
     = [x00; x00; x00; x02; x02; x03]
  /\ Avc.ConvertByteStreamToNaluSample
       [x00; x00; x00; x01; x02; x03; x00; x00; x00; x01; x07]
     = [x00; x00; x00; x02; x02; x03; x00; x00; x00; x01; x07]
  /\ Avc.ConvertByteStreamToNaluSample
       [x00; x00; x01; x02; x03; x00; x00; x01; x07]
     = [x00; x00; x00; x02; x02; x03; x00; x00; x00; x01; x07].
Proof. repeat split; vm_compute; reflexivity. Qed.

Example TestSampleToByteStreamConversion :
  Avc.ConvertSampleToByteStream [x00; x00; x00; x02; x02; x03]
  = [x00; x00; x00; x01; x02; x03]
  /\ Avc.ConvertSampleToByteStream
       [x00; x00; x00; x02; x02; x03; x00; x00; x00; x01; x07]
     = [x00; x00; x00; x01; x02; x03; x00; x00; x00; x01; x07].
Proof. repeat split; vm_compute; reflexivity. Qed.

(** ** Annex-B: the parameter sets of scenario 4 *)

(** C4, as the code has it (annexb_test.go, "AUD, SPS, PPS, IDRx2"): the
    parameter sets come with their header byte, SPS list [[7,5,4]] and PPS
    list [[8,1,2]]; the AUD and IDR units of the input are in neither
    list. *)
Theorem GetParameterSets_scenario4 :
  Avc.GetParameterSetsFromByteStream scenario4
  = (Some [[x07; x05; x04]], Some [[x08; x01; x02]])
  /\ Avc.scan 0 None scenario4
     = [[x09; x02]; [x07; x05; x04]; [x08; x01; x02]; [x05; x00]; [x05; x00]]
  /\ Avc.GetNaluType [x09; x02] = Some Avc.NALU_AUD
  /\ Avc.GetNaluType [x05; x00] = Some Avc.NALU_IDR
  /\ match Avc.GetParameterSetsFromByteStream scenario4 with
     | (Some sps, Some pps) =>
         forallb (fun u => negb (Avc.hasType Avc.NALU_AUD u)
                           && negb (Avc.hasType Avc.NALU_IDR u))
                 (sps ++ pps) = true
     | _ => False
     end.
Proof. repeat split; reflexivity. Qed.

(** C4 as stated fails: the lists returned are not [[5,4]] and [[1,2]]. *)
Lemma GetParameterSets_scenario4_counterexample :
  Avc.GetParameterSetsFromByteStream scenario4
  <> (Some [[x05; x04]], Some [[x01; x02]]).
Proof. cbv. discriminate. Qed.

(** ** Annex-B: inputs without a unit *)

(** Case analysis on every comparison of bytes in the goal. *)
Ltac byte_absurd :=
  match goal with
  | H : Byte.eqb ?c ?c = false |- _ =>
      exfalso; apply (Byte.eqb_false H); reflexivity
  | H : Byte.eqb ?c ?d = true |- _ =>
      apply Byte.byte_dec_bl in H; discriminate H
  end.

Ltac byte_cases :=
  repeat match goal with
         | |- context [Byte.eqb ?a ?b] =>
             let E := fresh "E" in
             destruct (Byte.eqb a b) eqn:E;
             [first [byte_absurd
                    | pose proof (Byte.byte_dec_bl _ _ E); subst; clear E]
             |try byte_absurd];
             cbn [andb orb negb] in *
         end.

Lemma startsWith4_tail (b : byte) (rest : list byte) :
  Avc.startsWith Avc.startCode4 (b :: rest) = true ->
  Avc.startsWith Avc.startCode3 rest = true.
Proof.
  unfold Avc.startCode4, Avc.startCode3. cbn [Avc.startsWith].
  intros H. apply andb_true_iff in H as [_ H]. exact H.
Qed.

Lemma startsWith3_hasStartCode (data : list byte) :
  Avc.startsWith Avc.startCode3 data = true -> Avc.hasStartCode data = true.
Proof.
  destruct data as [|b rest]; [discriminate|].
  intros H. cbn [Avc.hasStartCode]. rewrite H. reflexivity.
Qed.

Lemma startCodeLen_None (b : byte) (rest : list byte) :
  Avc.hasStartCode (b :: rest) = false -> Avc.startCodeLen (b :: rest) = None.
Proof.
  cbn [Avc.hasStartCode]. intros H. apply orb_false_iff in H as [H3 Hrest].
  unfold Avc.startCodeLen. rewrite H3.
  destruct (Avc.startsWith Avc.startCode4 (b :: rest)) eqn:H4; [|reflexivity].
  apply startsWith4_tail, startsWith3_hasStartCode in H4. congruence.
Qed.

(** Without a start code the scanner only extends the unit it is in. *)
Lemma scan_no_start_code (data : list byte) :
  forall cur,
    Avc.hasStartCode data = false ->
    Avc.scan 0 cur data
    = Avc.closeUnit (option_map (fun u => u ++ data) cur).
Proof.
  induction data as [|b rest IH]; intros cur H.
  - destruct cur as [u|]; cbn; [rewrite app_nil_r|]; reflexivity.
  - cbn [Avc.scan]. rewrite (startCodeLen_None _ _ H).
    cbn [Avc.hasStartCode] in H. apply orb_false_iff in H as [_ Hrest].
    rewrite IH by assumption.
    destruct cur as [u|]; cbn [option_map]; [|reflexivity].
    rewrite <- app_assoc. reflexivity.
Qed.

(** Bytes without a start code, then one start code, then nothing. *)
Lemma scan_only_start_code (four : bool) (noise : list byte) :
  Avc.hasStartCode noise = false ->
  Avc.scan 0 None (noise ++ Avc.startCode four) = [].
Proof.
  induction noise as [|b rest IH]; intros H.
  - destruct four; reflexivity.
  - cbn [Avc.hasStartCode] in H. apply orb_false_iff in H as [H3 Hrest].
    specialize (IH Hrest).
    cbn [app Avc.scan].
    destruct (Avc.startCodeLen (b :: rest ++ Avc.startCode four)) as [n|] eqn:E;
      [|exact IH].
    cbn [Avc.closeUnit app].
    unfold Avc.startCodeLen, Avc.startCode3, Avc.startCode4 in *.
    destruct rest as [|x [|y [|z rest]]].
    + destruct four; cbn [app Avc.startCode Avc.startsWith] in *;
        unfold Avc.startCode3, Avc.startCode4 in *;
        cbn [app Avc.startsWith] in *; revert E; byte_cases; intros Hn;
        try discriminate; injection Hn as <-; reflexivity.
    + exfalso. destruct four; cbn [app Avc.startCode Avc.startsWith] in *;
        unfold Avc.startCode3, Avc.startCode4 in *;
        cbn [app Avc.startsWith] in *; revert E; byte_cases; discriminate.
    + exfalso. destruct four; cbn [app Avc.startCode Avc.startsWith] in *;
        unfold Avc.startCode3, Avc.startCode4 in *;
        cbn [app Avc.startsWith] in *; revert E; byte_cases; discriminate.
    + exfalso. revert E H3 Hrest.
      cbn [app Avc.startsWith Avc.hasStartCode].
      unfold Avc.startCode3. cbn [Avc.startsWith].
      byte_cases; intros; try discriminate; try byte_absurd.
Qed.

(** C5. Absence of parseable content is a result, not an error: the scanner
    returns the nil sequence for every buffer without a start code, and for
    every buffer that holds nothing after its only start code; the extractor
    returns the nil sequence, not an empty one, for each kind of parameter
    set of which the scanner finds no unit. None of the three results has an
    error component. *)
Theorem no_parseable_content_is_nil :
  (forall data : list byte,
      Avc.hasStartCode data = false ->
      Avc.ExtractNalusFromByteStream data = None)
  /\ (forall (noise : list byte) (four : bool),
         Avc.hasStartCode noise = false ->
         Avc.ExtractNalusFromByteStream (noise ++ Avc.startCode four) = None)
  /\ (forall data : list byte,
         (filter (Avc.hasType Avc.NALU_SPS) (Avc.scan 0 None data) = [] ->
          fst (Avc.GetParameterSetsFromByteStream data) = None)
         /\ (filter (Avc.hasType Avc.NALU_PPS) (Avc.scan 0 None data) = [] ->
             snd (Avc.GetParameterSetsFromByteStream data) = None)
         /\ (forallb (fun u => negb (Avc.hasType Avc.NALU_SPS u)
                               && negb (Avc.hasType Avc.NALU_PPS u))
                     (Avc.scan 0 None data) = true ->
             Avc.GetParameterSetsFromByteStream data = (None, None))).
Proof.
  split; [|split].
  - intros data H. unfold Avc.ExtractNalusFromByteStream.
    rewrite scan_no_start_code by assumption. reflexivity.
  - intros noise four H. unfold Avc.ExtractNalusFromByteStream.
    rewrite scan_only_start_code by assumption. reflexivity.
  - intros data. unfold Avc.GetParameterSetsFromByteStream. cbn [fst snd].
    split; [|split].
    + intros ->. reflexivity.
    + intros ->. reflexivity.
    + intros H.
      assert (Hs : filter (Avc.hasType Avc.NALU_SPS) (Avc.scan 0 None data) = []
                   /\ filter (Avc.hasType Avc.NALU_PPS) (Avc.scan 0 None data) = []).
      { induction (Avc.scan 0 None data) as [|u l IH]; [split; reflexivity|].
        cbn [forallb] in H. apply andb_true_iff in H as [Hu Hl].
        apply andb_true_iff in Hu as [H7 H8].
        apply negb_true_iff in H7, H8.
        destruct (IH Hl) as [IH7 IH8].
        cbn [filter]. rewrite H7, H8. auto. }
      destruct Hs as [-> ->]. reflexivity.
Qed.

Lemma no_parseable_content_is_nil_witness :
  Avc.ExtractNalusFromByteStream [x00; x00; x02] = None
  /\ Avc.ExtractNalusFromByteStream ([x07; x00] ++ [x00; x00; x01]) = None
  /\ Avc.GetParameterSetsFromByteStream [x00; x00; x00; x01; x05; x00]
     = (None, None).
Proof.
  pose proof no_parseable_content_is_nil as [H1 [H2 H3]].
  split; [|split].
  - apply H1. reflexivity.
  - apply (H2 [x07; x00] false). reflexivity.
  - apply (H3 [x00; x00; x00; x01; x05; x00]). reflexivity.
Defined.

(** ** Annex-B: to sample format and back *)

(** No start code begins inside a well-formed unit, whatever follows it. *)
Lemma no_code_inside (u tl : list byte) :
  u <> [] ->
  Byte.eqb (last u x00) x00 = false ->
  Avc.hasStartCode u = false ->
  Avc.startCodeLen (u ++ tl) = None.
Proof.
  intros Hne Hlast Hcode. unfold Avc.startCodeLen.
  destruct u as [|a [|b [|c [|d u]]]]; [congruence| | | |].
  - clear Hcode. revert Hlast. unfold Avc.startCode3, Avc.startCode4.
    cbn [app Avc.startsWith last].
    byte_cases; intros; try byte_absurd; try discriminate; reflexivity.
  - clear Hcode. revert Hlast. unfold Avc.startCode3, Avc.startCode4.
    cbn [app Avc.startsWith last].
    byte_cases; intros; try byte_absurd; try discriminate; reflexivity.
  - revert Hlast Hcode. unfold Avc.startCode3, Avc.startCode4.
    cbn [app Avc.startsWith Avc.hasStartCode last]. unfold Avc.startCode3.
    cbn [Avc.startsWith].
    byte_cases; intros; try byte_absurd; try discriminate; reflexivity.
  - clear Hlast. revert Hcode. unfold Avc.startCode3, Avc.startCode4.
    cbn [app Avc.startsWith Avc.hasStartCode]. unfold Avc.startCode3.
    cbn [Avc.startsWith].
    byte_cases; intros; try byte_absurd; try discriminate; reflexivity.
Qed.

Lemma last_cons_cons (a b : byte) (u : list byte) :
  last (a :: b :: u) x00 = last (b :: u) x00.
Proof. reflexivity. Qed.

(** Inside a well-formed unit the scanner only collects. *)
Lemma scan_unit (u : list byte) :
  forall acc tl,
    (u <> [] -> Byte.eqb (last u x00) x00 = false) ->
    Avc.hasStartCode u = false ->
    Avc.scan 0 (Some acc) (u ++ tl) = Avc.scan 0 (Some (acc ++ u)) tl.
Proof.
  induction u as [|a u IH]; intros acc tl Hlast Hcode.
  - cbn [app]. rewrite app_nil_r. reflexivity.
  - pose proof (no_code_inside (a :: u) tl ltac:(discriminate)
                  (Hlast ltac:(discriminate)) Hcode) as Hn.
    cbn [app Avc.scan] in *. rewrite Hn. cbn [option_map].
    rewrite IH.
    + rewrite <- app_assoc. reflexivity.
    + intros Hu. destruct u as [|b u]; [congruence|].
      rewrite <- last_cons_cons with (a := a). apply Hlast. discriminate.
    + cbn [Avc.hasStartCode] in Hcode. apply orb_false_iff in Hcode. tauto.
Qed.

Lemma wfNalu_parts (u : list byte) :
  Avc.wfNalu u = true ->
  u <> [] /\ Byte.eqb (last u x00) x00 = false
  /\ Avc.hasStartCode u = false /\ len u < 2 ^ 32.
Proof.
  unfold Avc.wfNalu. intros H.
  apply andb_true_iff in H as [H H3]. apply andb_true_iff in H as [H1 H2].
  apply negb_true_iff in H1, H2. apply Z.ltb_lt in H3.
  repeat split; try assumption.
  intros ->. cbn in H1. discriminate.
Qed.

(** On a stream built from well-formed units the scanner finds the units. *)
Lemma scan_byteStream (units : list (bool * list byte)) :
  Forall (fun u => Avc.wfNalu (snd u) = true) units ->
  forall cur,
    Avc.scan 0 cur (Avc.byteStream units)
    = Avc.closeUnit cur ++ map snd units.
Proof.
  induction 1 as [|[four u] units Hu _ IH]; intros cur.
  - cbn. rewrite app_nil_r. reflexivity.
  - cbn [snd] in Hu. apply wfNalu_parts in Hu as (Hne & Hlast & Hcode & _).
    unfold Avc.byteStream. cbn [flat_map fst snd map].
    fold (Avc.byteStream units). f_equal.
    assert (Hscan : Avc.scan 0 (Some []) (u ++ Avc.byteStream units)
                    = u :: map snd units).
    { rewrite scan_unit by auto. rewrite IH. cbn [app].
      destruct u as [|a u]; [congruence|]. reflexivity. }
    destruct four; cbn [Avc.startCode]; unfold Avc.startCode3, Avc.startCode4;
      cbn [app Avc.scan]; unfold Avc.startCodeLen, Avc.startCode3,
      Avc.startCode4; cbn [Avc.startsWith]; byte_cases;
      cbn [Nat.sub Avc.scan]; rewrite Hscan;
      destruct cur as [[|? ?]|]; reflexivity.
Qed.

Lemma firstn_length_app (u r : list byte) :
  firstn (List.length u) (u ++ r) = u.
Proof. induction u as [|a u IH]; cbn; [destruct r|rewrite IH]; reflexivity. Qed.

Lemma skipn_length_app (u r : list byte) :
  skipn (List.length u) (u ++ r) = r.
Proof. induction u as [|a u IH]; cbn; [|rewrite IH]; reflexivity. Qed.

Lemma lengthPrefixed_length (nalus : list (list byte)) :
  (List.length nalus <= List.length (lengthPrefixed nalus))%nat.
Proof.
  induction nalus as [|u nalus IH]; [apply Nat.le_refl|].
  unfold lengthPrefixed in *. cbn [flat_map List.length].
  rewrite !length_app, PutUint32_length. lia.
Qed.

(** With fuel for every unit, the length prefixes are replaced by four-byte
    start codes. *)
Lemma sampleToByteStream_lengthPrefixed (nalus : list (list byte)) :
  Forall (fun u => len u < 2 ^ 32) nalus ->
  forall fuel,
    (List.length nalus <= fuel)%nat ->
    Avc.sampleToByteStream fuel (lengthPrefixed nalus)
    = flat_map (fun u => Avc.startCode4 ++ u) nalus.
Proof.
  induction 1 as [|u nalus Hu _ IH]; intros fuel Hfuel.
  - destruct fuel; reflexivity.
  - destruct fuel as [|fuel]; [cbn in Hfuel; lia|].
    cbn [List.length] in Hfuel.
    unfold lengthPrefixed. cbn [flat_map]. fold (lengthPrefixed nalus).
    assert (Hlen : uint32 (len u) = len u).
    { unfold uint32. apply Z.mod_small. unfold len in *. lia. }
    rewrite Hlen.
    pose proof (BigEndian_Uint32_PutUint32 (len u) (u ++ lengthPrefixed nalus)
                  ltac:(unfold len in *; lia)) as E.
    rewrite <- app_assoc.
    remember (u ++ lengthPrefixed nalus) as rest eqn:Hrest.
    unfold PutUint32 in *. cbn [app] in *.
    cbn [Avc.sampleToByteStream]. rewrite E.
    subst rest. unfold len. rewrite Nat2Z.id.
    rewrite firstn_length_app, skipn_length_app, IH by lia.
    rewrite <- !app_assoc. reflexivity.
Qed.

(** C9. For a byte stream built from well-formed NAL units, each after a
    start code of three or four bytes, converting to sample format and back
    gives the same units in the same order, each after the four-byte start
    code; it gives the stream back when every start code had four bytes. *)
Theorem byte_stream_round_trip (units : list (bool * list byte)) :
  Forall (fun u => Avc.wfNalu (snd u) = true) units ->
  Avc.ConvertSampleToByteStream
    (Avc.ConvertByteStreamToNaluSample (Avc.byteStream units))
  = Avc.byteStream (map (fun u => (true, snd u)) units)
  /\ Avc.scan 0 None
       (Avc.ConvertSampleToByteStream
          (Avc.ConvertByteStreamToNaluSample (Avc.byteStream units)))
     = map snd units
  /\ (forallb fst units = true ->
      Avc.ConvertSampleToByteStream
        (Avc.ConvertByteStreamToNaluSample (Avc.byteStream units))
      = Avc.byteStream units).
Proof.
  intros Hwf.
  assert (Hrt : Avc.ConvertSampleToByteStream
                  (Avc.ConvertByteStreamToNaluSample (Avc.byteStream units))
                = Avc.byteStream (map (fun u => (true, snd u)) units)).
  { unfold Avc.ConvertSampleToByteStream, Avc.ConvertByteStreamToNaluSample.
    rewrite (scan_byteStream units Hwf None). cbn [Avc.closeUnit app].
    fold (lengthPrefixed (map snd units)).
    rewrite sampleToByteStream_lengthPrefixed.
    - unfold Avc.byteStream. clear Hwf.
      induction units as [|u units IH]; [reflexivity|].
      cbn [map flat_map fst snd Avc.startCode]. rewrite IH. reflexivity.
    - rewrite Forall_map. eapply Forall_impl; [|exact Hwf].
      intros u Hu. apply wfNalu_parts in Hu. tauto.
    - apply lengthPrefixed_length. }
  split; [exact Hrt|]. split.
  - rewrite Hrt, scan_byteStream.
    + cbn [Avc.closeUnit app]. rewrite map_map. reflexivity.
    + rewrite Forall_map. exact Hwf.
  - intros Hfour. rewrite Hrt. f_equal. clear Hwf Hrt.
    induction units as [|[four u] units IH]; [reflexivity|].
    cbn [forallb fst] in Hfour. apply andb_true_iff in Hfour as [-> Hfour].
    cbn [map snd]. rewrite IH by assumption. reflexivity.
Qed.

Lemma byte_stream_round_trip_witness :
  Avc.ConvertSampleToByteStream
    (Avc.ConvertByteStreamToNaluSample (Avc.byteStream twoUnits))
  = Avc.byteStream (map (fun u => (true, snd u)) twoUnits)
  /\ Avc.scan 0 None
       (Avc.ConvertSampleToByteStream
          (Avc.ConvertByteStreamToNaluSample (Avc.byteStream twoUnits)))
     = map snd twoUnits
  /\ (forallb fst twoUnits = true ->
      Avc.ConvertSampleToByteStream
        (Avc.ConvertByteStreamToNaluSample (Avc.byteStream twoUnits))
      = Avc.byteStream twoUnits).
Proof.
  apply (byte_stream_round_trip twoUnits).
  unfold twoUnits.
  apply Forall_cons; [vm_compute; reflexivity|].
  apply Forall_cons; [vm_compute; reflexivity|apply Forall_nil].
Defined.

(** * Further properties of the code *)

(** ** StssBox: what Encode and EncodeSW write *)

Lemma flat_map_PutUint32_length (l : list Z) :
  len (flat_map PutUint32 l) = 4 * len l.
Proof.
  induction l as [|x l IH]; [reflexivity|].
  cbn [flat_map]. rewrite len_app, IH. unfold len. cbn [List.length PutUint32].
  lia.
Qed.

Lemma stssBody_length (b : StssBox) :
  len (stssBody b) = 8 + 4 * len (SampleNumber b).
Proof.
  unfold stssBody. rewrite !len_app, flat_map_PutUint32_length.
  unfold len. cbn [List.length PutUint32]. lia.
Qed.

Lemma stssBytes_length (b : StssBox) :
  len (stssBytes b) = boxHeaderSize + 8 + 4 * len (SampleNumber b).
Proof.
  unfold stssBytes. rewrite !len_app, tagBytes_length, stssBody_length.
  unfold len, boxHeaderSize. cbn [List.length PutUint32]. lia.
Qed.

Lemma writeSamples_fits (l : list Z) :
  forall buf n,
    len buf + 4 * len l <= n ->
    Stss.writeSamples (Bits.mkSW buf n None) l
    = Bits.mkSW (buf ++ flat_map PutUint32 l) n None.
Proof.
  induction l as [|x l IH]; intros buf n Hfit; cbn [Stss.writeSamples flat_map].
  - rewrite app_nil_r. reflexivity.
  - unfold Bits.WriteUint32.
    assert (Hl : len (x :: l) = 1 + len l) by (unfold len; cbn [List.length]; lia).
    rewrite Hl in Hfit.
    rewrite WriteBytes_fits;
      [|reflexivity
       |cbn [Bits.sw_buf Bits.sw_len]; unfold len in *;
        cbn [List.length PutUint32]; lia].
    cbn [Bits.sw_buf Bits.sw_len]. rewrite IH.
    + rewrite <- app_assoc. reflexivity.
    + rewrite len_app. unfold len in *. cbn [List.length PutUint32]. lia.
Qed.

(** On a writer without error and with room, [EncodeSW] appends the header and
    the body. *)
Lemma Stss_EncodeSW_fits (b : StssBox) (buf : list byte) (n : Z) :
  Stss.Size b < 2 ^ 32 ->
  len buf + len (stssBytes b) <= n ->
  Stss.EncodeSW b (Bits.mkSW buf n None)
  = (Bits.mkSW (buf ++ stssBytes b) n None, ok).
Proof.
  intros Hsz Hfit. rewrite stssBytes_length in Hfit. unfold boxHeaderSize in Hfit.
  unfold Stss.EncodeSW, EncodeHeaderSW, headerBytes.
  destruct (Z.geb_spec (Stss.Size b) (2 ^ 32)); [lia|].
  cbv zeta. unfold Bits.WriteUint32.
  rewrite (WriteBytes_fits (Bits.mkSW buf n None));
    [|reflexivity
     |cbn [Bits.sw_buf Bits.sw_len]; rewrite len_app, tagBytes_length;
      unfold len in *; cbn [List.length PutUint32]; lia].
  cbn [Bits.sw_buf Bits.sw_len].
  rewrite (WriteBytes_fits (Bits.mkSW _ _ None));
    [|reflexivity
     |cbn [Bits.sw_buf Bits.sw_len]; rewrite !len_app, tagBytes_length;
      unfold len in *; cbn [List.length PutUint32]; lia].
  cbn [Bits.sw_buf Bits.sw_len].
  rewrite (WriteBytes_fits (Bits.mkSW _ _ None));
    [|reflexivity
     |cbn [Bits.sw_buf Bits.sw_len]; rewrite !len_app, tagBytes_length;
      unfold len in *; cbn [List.length PutUint32]; lia].
  cbn [Bits.sw_buf Bits.sw_len].
  rewrite writeSamples_fits.
  - unfold Bits.AccError. cbn [Bits.accError].
    unfold stssBytes, stssBody. rewrite <- !app_assoc. reflexivity.
  - rewrite !len_app, tagBytes_length. unfold len in *.
    cbn [List.length PutUint32]. lia.
Qed.

(** When the size does not fit the 4-byte size field, [Encode] returns the
    error of the header and has written nothing. *)
Lemma Stss_Encode_too_big (b : StssBox) (w : ioWriter) :
  2 ^ 32 <= boxHeaderSize + 8 + 4 * len (SampleNumber b) < 2 ^ 63 ->
  exists e, Stss.Encode b w = (w, Fail e).
Proof.
  intros Hk. pose proof (Stss_Size_nowrap b ltac:(lia)) as Hsz.
  unfold Stss.Encode. rewrite Hsz.
  unfold int_of_uint64, boxHeaderSize in *.
  destruct (Z.ltb_spec (8 + 8 + 4 * len (SampleNumber b)) (2 ^ 63)); [|lia].
  destruct (Z.ltb_spec (8 + 8 + 4 * len (SampleNumber b)) 0); [lia|].
  unfold Stss.EncodeSW, EncodeHeaderSW, headerBytes. rewrite Hsz.
  unfold boxHeaderSize.
  destruct (Z.geb_spec (8 + 8 + 4 * len (SampleNumber b)) (2 ^ 32)); [|lia].
  eexists. reflexivity.
Qed.

Lemma Stss_Encode_fits (b : StssBox) (w : ioWriter) :
  boxHeaderSize + 8 + 4 * len (SampleNumber b) < 2 ^ 32 ->
  Stss.Encode b w = (w ++ stssBytes b, ok).
Proof.
  intros Hk. pose proof (Stss_Size_nowrap b ltac:(lia)) as Hsz.
  unfold Stss.Encode. rewrite Hsz.
  unfold int_of_uint64, boxHeaderSize in *.
  destruct (Z.ltb_spec (8 + 8 + 4 * len (SampleNumber b)) (2 ^ 63)); [|lia].
  destruct (Z.ltb_spec (8 + 8 + 4 * len (SampleNumber b)) 0);
    [unfold len in *; lia|].
  unfold Bits.NewSliceWriterWithSize.
  rewrite Stss_EncodeSW_fits.
  - reflexivity.
  - rewrite Hsz. unfold boxHeaderSize. lia.
  - rewrite stssBytes_length. unfold len, boxHeaderSize. cbn [List.length]. lia.
Qed.

(** X1. [StssBox.Encode] with [k] sample numbers whose size [16 + 4k] fits
    the 4-byte size field appends to the writer, after what it held, the
    header (size and "stss"), the version and flags word, the count and the
    sample numbers in order, each as four big-endian bytes, and returns
    nil. *)
Theorem Stss_Encode_layout (b : StssBox) (w : ioWriter) :
  boxHeaderSize + 8 + 4 * len (SampleNumber b) < 2 ^ 32 ->
  Stss.Encode b w = (w ++ stssBytes b, ok).
Proof. apply Stss_Encode_fits. Qed.

Lemma Stss_Encode_layout_witness :
  Stss.Encode (mkStss 0 0 [1; 25]) [x2a]
  = ([x2a] ++ stssBytes (mkStss 0 0 [1; 25]), ok).
Proof.
  apply (Stss_Encode_layout (mkStss 0 0 [1; 25]) [x2a]).
  vm_compute. reflexivity.
Defined.

Lemma WriteBytes_clean_fits (sw : Bits.SliceWriter) (p : list byte) :
  Bits.accError (Bits.WriteBytes sw p) = None ->
  len (Bits.sw_buf sw) + len p <= Bits.sw_len sw
  /\ Bits.sw_len (Bits.WriteBytes sw p) = Bits.sw_len sw.
Proof.
  unfold Bits.WriteBytes.
  destruct (Bits.accError sw) eqn:E; [congruence|].
  destruct (Z.gtb_spec (len (Bits.sw_buf sw) + len p) (Bits.sw_len sw));
    cbn [Bits.accError Bits.sw_len]; [discriminate|].
  intros _. split; [lia|reflexivity].
Qed.

Lemma WriteBytes_overflowOnly (sw : Bits.SliceWriter) (p : list byte) :
  overflowOnly sw -> overflowOnly (Bits.WriteBytes sw p).
Proof.
  unfold overflowOnly, Bits.WriteBytes. intros [H|H]; rewrite H.
  - destruct (len (Bits.sw_buf sw) + len p >? Bits.sw_len sw);
      cbn [Bits.accError]; auto.
  - auto.
Qed.

Lemma writeSamples_overflowOnly (l : list Z) :
  forall sw, overflowOnly sw -> overflowOnly (Stss.writeSamples sw l).
Proof.
  induction l as [|x l IH]; intros sw H; cbn [Stss.writeSamples]; [exact H|].
  apply IH. apply WriteBytes_overflowOnly. exact H.
Qed.

Lemma writeSamples_clean_fits (l : list Z) :
  forall sw,
    len (Bits.sw_buf sw) <= Bits.sw_len sw ->
    Bits.accError (Stss.writeSamples sw l) = None ->
    len (Bits.sw_buf sw) + 4 * len l <= Bits.sw_len sw.
Proof.
  induction l as [|x l IH]; intros sw Hinv H; cbn [Stss.writeSamples] in H.
  - unfold len at 2. cbn [List.length]. lia.
  - pose proof (writeSamples_clean l _ H) as [Hc _].
    unfold Bits.WriteUint32 in *.
    pose proof (WriteBytes_clean_fits _ _ Hc) as [Hfit Hlen].
    pose proof (WriteBytes_clean _ _ Hc) as [_ Hbuf].
    apply IH in H; [|rewrite Hbuf, Hlen, len_app; lia].
    rewrite Hbuf, Hlen, len_app in H.
    unfold len in *. cbn [List.length PutUint32] in *. lia.
Qed.

(** X2. [StssBox.EncodeSW] on a slice writer without accumulated error, for a
    box whose size fits the 4-byte size field: with room for [16 + 4k] bytes
    it appends the header and body and returns nil; with less room it
    returns the overflow error of the slice writer. *)
Theorem Stss_EncodeSW_room (b : StssBox) (buf : list byte) (n : Z) :
  boxHeaderSize + 8 + 4 * len (SampleNumber b) < 2 ^ 32 ->
  (len buf + (boxHeaderSize + 8 + 4 * len (SampleNumber b)) <= n ->
     Stss.EncodeSW b (Bits.mkSW buf n None)
     = (Bits.mkSW (buf ++ stssBytes b) n None, ok))
  /\ (n < len buf + (boxHeaderSize + 8 + 4 * len (SampleNumber b)) ->
        snd (Stss.EncodeSW b (Bits.mkSW buf n None)) = Fail ErrSliceWrite).
Proof.
  intros Hk. pose proof (Stss_Size_nowrap b ltac:(lia)) as Hsz. split.
  - intros Hfit. apply Stss_EncodeSW_fits; [lia|].
    rewrite stssBytes_length. exact Hfit.
  - intros Hshort. unfold Stss.EncodeSW, EncodeHeaderSW, headerBytes.
    destruct (Z.geb_spec (Stss.Size b) (2 ^ 32)); [lia|].
    unfold ok. cbv beta iota zeta. cbn [snd].
    match goal with
    | |- Bits.AccError ?s = _ => set (sw4 := s)
    end.
    assert (Hov : overflowOnly sw4).
    { subst sw4. apply writeSamples_overflowOnly.
      unfold Bits.WriteUint32. repeat apply WriteBytes_overflowOnly.
      left. reflexivity. }
    unfold Bits.AccError. destruct Hov as [Hc|He]; [|rewrite He; reflexivity].
    exfalso. subst sw4.
    pose proof (writeSamples_clean _ _ Hc) as [Hc3 _].
    unfold Bits.WriteUint32 in *.
    pose proof (WriteBytes_clean_fits _ _ Hc3) as [Hf3 Hl3].
    pose proof (WriteBytes_clean _ _ Hc3) as [Hc2 Hb3].
    pose proof (WriteBytes_clean_fits _ _ Hc2) as [Hf2 Hl2].
    pose proof (WriteBytes_clean _ _ Hc2) as [Hc1 Hb2].
    pose proof (WriteBytes_clean_fits _ _ Hc1) as [Hf1 Hl1].
    pose proof (WriteBytes_clean _ _ Hc1) as [_ Hb1].
    apply writeSamples_clean_fits in Hc.
    + rewrite Hb3, Hl3, Hb2, Hl2, Hb1, Hl1, !len_app, tagBytes_length in Hc.
      cbn [Bits.sw_buf Bits.sw_len] in Hc.
      unfold len, boxHeaderSize in *. cbn [List.length PutUint32] in *. lia.
    + rewrite Hb3, Hl3, Hl2, Hl1, len_app. lia.
Qed.

Lemma Stss_EncodeSW_room_witness :
  Stss.EncodeSW (mkStss 0 0 [1; 25]) (Bits.mkSW [x2a] 25 None)
  = (Bits.mkSW ([x2a] ++ stssBytes (mkStss 0 0 [1; 25])) 25 None, ok)
  /\ snd (Stss.EncodeSW (mkStss 0 0 [1; 25]) (Bits.mkSW [x2a] 24 None))
     = Fail ErrSliceWrite.
Proof.
  split.
  - apply (proj1 (Stss_EncodeSW_room (mkStss 0 0 [1; 25]) [x2a] 25
                    ltac:(vm_compute; reflexivity))).
    vm_compute. discriminate.
  - apply (proj2 (Stss_EncodeSW_room (mkStss 0 0 [1; 25]) [x2a] 24
                    ltac:(vm_compute; reflexivity))).
    vm_compute. reflexivity.
Defined.

(** ** StssBox: encoding then decoding, decoding then encoding *)

Lemma slice_app_middle (A B C : list byte) :
  slice (A ++ B ++ C) (len A) (len A + len B) = Some B.
Proof.
  unfold slice. rewrite !len_app.
  destruct (Z.leb_spec 0 (len A)); [|unfold len in *; lia].
  destruct (Z.leb_spec (len A) (len A + len B)); [|unfold len in *; lia].
  destruct (Z.leb_spec (len A + len B) (len A + (len B + len C)));
    [|unfold len in *; lia].
  cbn [andb]. f_equal.
  replace (len A + len B - len A) with (len B) by lia.
  unfold len. rewrite !Nat2Z.id, skipn_length_app, firstn_length_app.
  reflexivity.
Qed.

Lemma firstn_plus {A : Type} (n m : nat) (l : list A) :
  firstn (n + m) l = firstn n l ++ firstn m (skipn n l).
Proof.
  revert l. induction n as [|n IH]; intros l; [reflexivity|].
  destruct l as [|a l]; cbn [Nat.add firstn skipn app].
  - rewrite firstn_nil. reflexivity.
  - rewrite IH. reflexivity.
Qed.

Lemma skipn_plus {A : Type} (n m : nat) (l : list A) :
  skipn (n + m) l = skipn m (skipn n l).
Proof.
  revert l. induction n as [|n IH]; intros l; [reflexivity|].
  destruct l as [|a l]; cbn [Nat.add skipn].
  - rewrite skipn_nil. reflexivity.
  - apply IH.
Qed.

Lemma slice_concat (data x y : list byte) (a b c : Z) :
  slice data a b = Some x -> slice data b c = Some y ->
  slice data a c = Some (x ++ y).
Proof.
  unfold slice.
  destruct (Z.leb_spec 0 a); [|discriminate].
  destruct (Z.leb_spec a b); [|discriminate].
  destruct (Z.leb_spec b (len data)); [|discriminate].
  destruct (Z.leb_spec 0 b); [|lia].
  destruct (Z.leb_spec b c); [|discriminate].
  destruct (Z.leb_spec c (len data)); [|discriminate].
  destruct (Z.leb_spec a c); [|lia].
  cbn [andb]. intros Hx Hy.
  assert (Ex : x = firstn (Z.to_nat (b - a)) (skipn (Z.to_nat a) data))
    by congruence.
  assert (Ey : y = firstn (Z.to_nat (c - b)) (skipn (Z.to_nat b) data))
    by congruence.
  subst x y. f_equal.
  replace (Z.to_nat (c - a)) with (Z.to_nat (b - a) + Z.to_nat (c - b))%nat
    by lia.
  rewrite firstn_plus, <- skipn_plus.
  replace (Z.to_nat a + Z.to_nat (b - a))%nat with (Z.to_nat b) by lia.
  reflexivity.
Qed.

Lemma flagsMask_ones : flagsMask = Z.ones 24.
Proof. reflexivity. Qed.

(** The version and flags word is taken apart and put together again. *)
Lemma versionAndFlags_split (vf : Z) :
  0 <= vf < 2 ^ 32 ->
  uint32 (uint32 (Z.shiftl (Z.shiftr vf 24 mod 2 ^ 8) 24)
          + Z.land vf flagsMask) = vf.
Proof.
  intros H. rewrite flagsMask_ones, Z.land_ones by lia.
  rewrite Z.shiftr_div_pow2, Z.shiftl_mul_pow2 by lia.
  assert (0 <= vf / 2 ^ 24 < 2 ^ 8).
  { split; [apply Z.div_pos; lia|]. apply Z.div_lt_upper_bound; lia. }
  pose proof (Z.mod_pos_bound vf (2 ^ 24) ltac:(lia)).
  pose proof (Z.div_mod vf (2 ^ 24) ltac:(lia)).
  rewrite (Z.mod_small (vf / 2 ^ 24)) by lia.
  unfold uint32. rewrite (Z.mod_small (vf / 2 ^ 24 * 2 ^ 24)) by lia.
  rewrite Z.mod_small by lia. lia.
Qed.

Lemma versionAndFlags_join (v f : Z) :
  0 <= v < 2 ^ 8 -> 0 <= f < 2 ^ 24 ->
  let vf := uint32 (uint32 (Z.shiftl v 24) + f) in
  0 <= vf < 2 ^ 32
  /\ Z.shiftr vf 24 mod 2 ^ 8 = v /\ Z.land vf flagsMask = f.
Proof.
  intros Hv Hf. cbv zeta.
  rewrite Z.shiftl_mul_pow2 by lia. unfold uint32.
  rewrite (Z.mod_small (v * 2 ^ 24)) by lia.
  rewrite (Z.mod_small (v * 2 ^ 24 + f)) by lia.
  rewrite flagsMask_ones, Z.land_ones, Z.shiftr_div_pow2 by lia.
  split; [lia|]. split.
  - rewrite Z.add_comm, Z.div_add by lia.
    rewrite (Z.div_small f) by lia. apply Z.mod_small. lia.
  - rewrite Z.add_comm, Z.mod_add by lia. apply Z.mod_small. lia.
Qed.

Lemma decodeSamples_layout (todo : list Z) :
  forall (done acc : list Z) (pre rest : list byte),
    len pre = 8 ->
    Forall (fun x => 0 <= x < 2 ^ 32) todo ->
    Stss.decodeSamples (List.length todo) (len done)
      (pre ++ flat_map PutUint32 done ++ flat_map PutUint32 todo ++ rest) acc
    = Ret (acc ++ todo).
Proof.
  induction todo as [|x todo IH]; intros done acc pre rest Hpre Hr.
  - cbn [List.length Stss.decodeSamples]. rewrite app_nil_r. reflexivity.
  - inversion Hr as [|? ? Hx Htodo]; subst.
    cbn [List.length Stss.decodeSamples flat_map].
    assert (Hs : slice (pre ++ flat_map PutUint32 done
                        ++ (PutUint32 x ++ flat_map PutUint32 todo) ++ rest)
                       (8 + 4 * len done) (12 + 4 * len done)
                 = Some (PutUint32 x)).
    { rewrite <- app_assoc, (app_assoc pre).
      pose proof (slice_app_middle (pre ++ flat_map PutUint32 done)
                    (PutUint32 x) (flat_map PutUint32 todo ++ rest)) as H.
      rewrite len_app, flat_map_PutUint32_length, Hpre in H.
      replace (8 + 4 * len done + len (PutUint32 x)) with (12 + 4 * len done)
        in H by (unfold len; cbn [List.length PutUint32]; lia).
      exact H. }
    rewrite Hs. cbn [orPanic bind].
    pose proof (BigEndian_Uint32_PutUint32 x [] Hx) as Hv.
    rewrite app_nil_r in Hv. rewrite Hv. cbn [orPanic bind].
    specialize (IH (done ++ [x]) (acc ++ [x]) pre rest Hpre Htodo).
    rewrite flat_map_app in IH. cbn [flat_map] in IH.
    rewrite app_nil_r, <- !app_assoc in IH.
    replace (len (done ++ [x])) with (len done + 1) in IH
      by (rewrite len_app; reflexivity).
    rewrite <- (app_assoc (PutUint32 x)). rewrite IH. reflexivity.
Qed.

(** X3. Encoding then decoding an [StssBox] gives the box back: for a box
    with a version byte, flags within 24 bits, [uint32] sample numbers and a
    size within the 4-byte size field, [Encode] writes the 8-byte header and
    then a body from which [DecodeStss], given the header's size, returns the
    same box, leaving what follows the body in the reader. *)
Theorem Stss_encode_then_decode
    (b : StssBox) (startPos : Z) (rest : ioReader) :
  stssInRange b ->
  boxHeaderSize + 8 + 4 * len (SampleNumber b) < 2 ^ 32 ->
  Stss.Encode b []
  = (PutUint32 (uint32 (Stss.Size b)) ++ tagBytes "stss" ++ stssBody b, ok)
  /\ Stss.DecodeStss (mkHdr "stss" (Stss.Size b) boxHeaderSize) startPos
       (stssBody b ++ rest)
     = (Ret b, rest).
Proof.
  intros (Hv & Hf & Hs) Hk. split.
  - rewrite (Stss_Encode_fits b [] Hk). reflexivity.
  - pose proof (Stss_Size_nowrap b ltac:(lia)) as Hsz.
    pose proof (stssBody_length b) as Hbl.
    unfold Stss.DecodeStss, readBoxBody. cbn [hdr_size hdr_hdrlen].
    rewrite Hsz. unfold boxHeaderSize in *.
    replace (8 + 8 + 4 * len (SampleNumber b) - 8)
      with (8 + 4 * len (SampleNumber b)) by lia.
    unfold uint64. rewrite Z.mod_small by (unfold len in *; lia).
    destruct (Z.eqb_spec (8 + 4 * len (SampleNumber b)) 0);
      [unfold len in *; lia|].
    rewrite len_app, Hbl.
    destruct (Z.eqb_spec (8 + 4 * len (SampleNumber b) + len rest) 0);
      [unfold len in *; lia|].
    destruct (Z.ltb_spec (8 + 4 * len (SampleNumber b) + len rest)
                         (8 + 4 * len (SampleNumber b)));
      [unfold len in *; lia|].
    replace (Z.to_nat (8 + 4 * len (SampleNumber b)))
      with (List.length (stssBody b)) by (unfold len in *; lia).
    rewrite firstn_length_app, skipn_length_app. f_equal.
    destruct (versionAndFlags_join (Version b) (Flags b) Hv Hf)
      as (Hvf & Hver & Hfl).
    set (vf := uint32 (uint32 (Z.shiftl (Version b) 24) + Flags b)) in *.
    assert (Hcnt : 0 <= len (SampleNumber b) < 2 ^ 32) by (unfold len in *; lia).
    unfold Stss.decodeBody, stssBody. fold vf.
    pose proof (slice_app_middle [] (PutUint32 vf)
                  (PutUint32 (uint32 (len (SampleNumber b)))
                   ++ flat_map PutUint32 (SampleNumber b))) as H0.
    cbn [app] in H0. change (len (@nil byte)) with 0 in H0.
    change (0 + len (PutUint32 vf)) with 4 in H0.
    cbn [app]. rewrite H0. cbn [orPanic bind].
    pose proof (BigEndian_Uint32_PutUint32 vf [] Hvf) as E0.
    rewrite app_nil_r in E0. rewrite E0. cbn [orPanic bind].
    pose proof (slice_app_middle (PutUint32 vf)
                  (PutUint32 (uint32 (len (SampleNumber b))))
                  (flat_map PutUint32 (SampleNumber b))) as H1.
    change (len (PutUint32 vf)) with 4 in H1.
    change (4 + len (PutUint32 (uint32 (len (SampleNumber b))))) with 8 in H1.
    rewrite H1. cbn [orPanic bind].
    unfold uint32 at 1 2. rewrite Z.mod_small by lia.
    pose proof (BigEndian_Uint32_PutUint32 (len (SampleNumber b)) [] Hcnt) as E1.
    rewrite app_nil_r in E1. rewrite E1. cbn [orPanic bind].
    unfold len at 1. rewrite Nat2Z.id.
    pose proof (decodeSamples_layout (SampleNumber b) [] []
                  (PutUint32 vf ++ PutUint32 (len (SampleNumber b))) []
                  eq_refl Hs) as Hd.
    cbn [flat_map] in Hd. change (len (@nil Z)) with 0 in Hd.
    rewrite app_nil_r, <- app_assoc in Hd. cbn [app] in Hd.
    rewrite Hd. cbn [bind].
    rewrite Hver, Hfl. destruct b. reflexivity.
Qed.

Lemma Stss_encode_then_decode_witness :
  Stss.Encode (mkStss 0 0 [1; 25]) []
  = (PutUint32 (uint32 (Stss.Size (mkStss 0 0 [1; 25]))) ++ tagBytes "stss"
     ++ stssBody (mkStss 0 0 [1; 25]), ok)
  /\ Stss.DecodeStss (mkHdr "stss" (Stss.Size (mkStss 0 0 [1; 25]))
                            boxHeaderSize) 0
       (stssBody (mkStss 0 0 [1; 25]) ++ [x2a])
     = (Ret (mkStss 0 0 [1; 25]), [x2a]).
Proof.
  apply (Stss_encode_then_decode (mkStss 0 0 [1; 25]) 0 [x2a]).
  - unfold stssInRange. cbn [Version Flags SampleNumber].
    repeat split; try lia. repeat constructor; lia.
  - vm_compute. reflexivity.
Defined.

Lemma four_bytes (bs : list byte) :
  len bs = 4 -> exists b0 b1 b2 b3, bs = [b0; b1; b2; b3].
Proof.
  unfold len.
  destruct bs as [|b0 [|b1 [|b2 [|b3 [|b4 bs]]]]]; cbn [List.length]; try lia.
  intros _. eauto.
Qed.

(** With room for [k] more entries from entry [i] on, the loop of
    [DecodeStss] reads them: they are the bytes of that part of the body. *)
Lemma decodeSamples_ok (data : list byte) (k : nat) :
  forall (i : Z) (acc : list Z),
    0 <= i -> 8 + 4 * (i + Z.of_nat k) <= len data ->
    exists l,
      Stss.decodeSamples k i data acc = Ret (acc ++ l)
      /\ List.length l = k
      /\ slice data (8 + 4 * i) (8 + 4 * (i + Z.of_nat k))
         = Some (flat_map PutUint32 l).
Proof.
  induction k as [|k IH]; intros i acc Hi Hlen.
  - exists []. cbn [Stss.decodeSamples flat_map]. rewrite app_nil_r.
    repeat split. rewrite Z.add_0_r.
    destruct (slice_Some data (8 + 4 * i) (8 + 4 * i)) as [bs [Hbs Hl]];
      [lia|lia|].
    rewrite Hbs. f_equal. destruct bs; [reflexivity|].
    unfold len in Hl. cbn [List.length] in Hl. lia.
  - cbn [Stss.decodeSamples].
    destruct (slice_Some data (8 + 4 * i) (12 + 4 * i)) as [bs [Hbs Hl]];
      [lia|lia|].
    rewrite Hbs. cbn [orPanic bind].
    destruct (four_bytes bs ltac:(lia)) as (b0 & b1 & b2 & b3 & ->).
    destruct (BigEndian_Uint32 [b0; b1; b2; b3]) as [v|] eqn:Hv;
      [|cbn in Hv; discriminate].
    cbn [orPanic bind].
    destruct (IH (i + 1) (acc ++ [v]) ltac:(lia) ltac:(lia))
      as (l & Hd & Hll & Hsl).
    exists (v :: l). rewrite Hd, <- app_assoc. split; [reflexivity|].
    split; [cbn [List.length]; lia|].
    cbn [flat_map]. rewrite (PutUint32_BigEndian_Uint32 _ _ _ _ _ Hv).
    apply (slice_concat data _ _ (8 + 4 * i) (12 + 4 * i)); [exact Hbs|].
    replace (12 + 4 * i) with (8 + 4 * (i + 1)) by lia.
    replace (8 + 4 * (i + Z.of_nat (S k)))
      with (8 + 4 * (i + 1 + Z.of_nat k)) by lia.
    exact Hsl.
Qed.

(** X4. [DecodeStss] after the body is read: on a body shorter than the
    eight bytes of the two leading words it panics; on a body that holds the
    entries its count [ec] declares it returns a box with that many sample
    numbers. When the size [16 + 4 ec] of that box fits the 4-byte size
    field, [Encode] and [EncodeSW] (on a writer without error and with room)
    write for it the header and then the decoded part of the input, byte for
    byte; what follows the last entry in the input is dropped. *)
Theorem DecodeStss_then_encode
    (hdr : boxHeader) (startPos : Z) (r r' : ioReader) (data : list byte) :
  readBoxBody r hdr = (Ret data, r') ->
  (len data < 8 -> Stss.DecodeStss hdr startPos r = (Panic, r'))
  /\ (forall (b1 : list byte) (ec : Z),
         slice data 4 8 = Some b1 ->
         BigEndian_Uint32 b1 = Some ec ->
         8 + 4 * ec <= len data ->
         exists b d,
           Stss.DecodeStss hdr startPos r = (Ret b, r')
           /\ len (SampleNumber b) = ec
           /\ Stss.EntryCount b = ec
           /\ slice data 0 (8 + 4 * ec) = Some d
           /\ (boxHeaderSize + 8 + 4 * ec < 2 ^ 32 ->
               (forall w,
                   Stss.Encode b w
                   = (w ++ PutUint32 (boxHeaderSize + 8 + 4 * ec)
                        ++ tagBytes "stss" ++ d, ok))
               /\ (forall buf n,
                      len buf + (boxHeaderSize + 8 + 4 * ec) <= n ->
                      Stss.EncodeSW b (Bits.mkSW buf n None)
                      = (Bits.mkSW (buf ++ PutUint32 (boxHeaderSize + 8 + 4 * ec)
                                      ++ tagBytes "stss" ++ d) n None, ok)))).
Proof.
  intros Hbody. unfold Stss.DecodeStss. rewrite Hbody. split.
  - intros Hshort. f_equal. unfold Stss.decodeBody.
    destruct (slice data 0 4) as [b0|] eqn:E0; [|reflexivity].
    cbn [orPanic bind].
    destruct (BigEndian_Uint32 b0); [|reflexivity]. cbn [orPanic bind].
    rewrite slice_None by lia. reflexivity.
  - intros b1 ec Hb1 Hec Hfit.
    pose proof (BigEndian_Uint32_range _ _ Hec) as Hecr.
    pose proof (slice_len _ _ _ _ Hb1) as Hl1.
    destruct (slice_Some data 0 4) as [b0 [Hb0 Hl0]]; [lia|lia|].
    destruct (four_bytes b0 ltac:(lia)) as (x0 & x1 & x2 & x3 & ->).
    destruct (four_bytes b1 ltac:(lia)) as (y0 & y1 & y2 & y3 & ->).
    destruct (BigEndian_Uint32 [x0; x1; x2; x3]) as [vf|] eqn:Hvf;
      [|cbn in Hvf; discriminate].
    pose proof (BigEndian_Uint32_range _ _ Hvf) as Hvfr.
    destruct (decodeSamples_ok data (Z.to_nat ec) 0 [] ltac:(lia)
                ltac:(rewrite Z2Nat.id by lia; lia))
      as (l & Hd & Hll & Hsl).
    rewrite Z2Nat.id in Hsl by lia. cbn [app] in Hd.
    replace (8 + 4 * 0) with 8 in Hsl by lia.
    replace (8 + 4 * (0 + ec)) with (8 + 4 * ec) in Hsl by lia.
    assert (Hlen : len l = ec) by (unfold len; lia).
    set (b := mkStss (Z.shiftr vf 24 mod 2 ^ 8) (Z.land vf flagsMask) l).
    assert (Hd0 : slice data 0 (8 + 4 * ec) = Some (stssBody b)).
    { unfold stssBody, b. cbn [Version Flags SampleNumber].
      rewrite versionAndFlags_split by assumption.
      rewrite Hlen. unfold uint32. rewrite Z.mod_small by lia.
      rewrite (PutUint32_BigEndian_Uint32 _ _ _ _ _ Hvf).
      rewrite (PutUint32_BigEndian_Uint32 _ _ _ _ _ Hec).
      apply (slice_concat data _ _ 0 4); [exact Hb0|].
      apply (slice_concat data _ _ 4 8); [exact Hb1|exact Hsl]. }
    exists b, (stssBody b). split.
    { f_equal. unfold Stss.decodeBody.
      rewrite Hb0. cbn [orPanic bind]. rewrite Hvf. cbn [orPanic bind].
      rewrite Hb1. cbn [orPanic bind]. rewrite Hec. cbn [orPanic bind].
      rewrite Hd. cbn [bind]. reflexivity. }
    assert (Hsn : len (SampleNumber b) = ec) by exact Hlen.
    split; [exact Hsn|]. split.
    { unfold Stss.EntryCount. rewrite Hsn.
      unfold uint32. apply Z.mod_small. lia. }
    split; [exact Hd0|]. intros Hsz.
    assert (Hk : boxHeaderSize + 8 + 4 * len (SampleNumber b) < 2 ^ 32)
      by (rewrite Hsn; exact Hsz).
    assert (HS : Stss.Size b = boxHeaderSize + 8 + 4 * ec).
    { rewrite (Stss_Size_nowrap b) by lia. rewrite Hsn. reflexivity. }
    assert (Hbytes : stssBytes b
                     = PutUint32 (boxHeaderSize + 8 + 4 * ec)
                         ++ tagBytes "stss" ++ stssBody b).
    { unfold stssBytes. rewrite HS. unfold uint32.
      rewrite Z.mod_small by (unfold boxHeaderSize in *; lia). reflexivity. }
    split.
    + intros w. rewrite (Stss_Encode_fits b w Hk), Hbytes. reflexivity.
    + intros buf n Hroom. rewrite <- Hbytes. apply Stss_EncodeSW_fits.
      * rewrite HS. exact Hsz.
      * rewrite stssBytes_length, Hsn. exact Hroom.
Qed.

Lemma DecodeStss_then_encode_witness :
  Stss.DecodeStss (mkHdr "stss" 12 8) 0 [x00; x00; x00; x00] = (Panic, [])
  /\ exists b d,
      Stss.DecodeStss (mkHdr "stss" 25 8) 0
        [x01; x00; x00; x07; x00; x00; x00; x02;
         x00; x00; x00; x01; x00; x00; x01; x01; x2a]
      = (Ret b, [])
      /\ len (SampleNumber b) = 2
      /\ Stss.EntryCount b = 2
      /\ slice [x01; x00; x00; x07; x00; x00; x00; x02;
                x00; x00; x00; x01; x00; x00; x01; x01; x2a] 0 (8 + 4 * 2)
         = Some d
      /\ (forall w,
             Stss.Encode b w
             = (w ++ PutUint32 (boxHeaderSize + 8 + 4 * 2)
                  ++ tagBytes "stss" ++ d, ok))
      /\ (forall buf n,
             len buf + (boxHeaderSize + 8 + 4 * 2) <= n ->
             Stss.EncodeSW b (Bits.mkSW buf n None)
             = (Bits.mkSW (buf ++ PutUint32 (boxHeaderSize + 8 + 4 * 2)
                             ++ tagBytes "stss" ++ d) n None, ok)).
Proof.
  split.
  - apply (proj1 (DecodeStss_then_encode (mkHdr "stss" 12 8) 0
                    [x00; x00; x00; x00] [] [x00; x00; x00; x00] eq_refl)).
    vm_compute. reflexivity.
  - destruct (proj2 (DecodeStss_then_encode (mkHdr "stss" 25 8) 0
                       [x01; x00; x00; x07; x00; x00; x00; x02;
                        x00; x00; x00; x01; x00; x00; x01; x01; x2a] []
                       [x01; x00; x00; x07; x00; x00; x00; x02;
                        x00; x00; x00; x01; x00; x00; x01; x01; x2a] eq_refl)
                [x00; x00; x00; x02] 2 eq_refl eq_refl
                ltac:(vm_compute; discriminate))
      as (b & d & H1 & H2 & H3 & H4 & H5).
    exists b, d. repeat split; try assumption;
      apply H5; vm_compute; reflexivity.
Defined.

(** ** StssBox.IsSyncSample on any sequence *)

Lemma search_in_range (s : list Z) (sampleNr i j : Z) :
  0 <= i <= j -> j <= len s ->
  exists r, Stss.search s sampleNr i j = Ret r /\ i <= r <= j.
Proof.
  apply (Stss.search_elim
           (fun s sampleNr i j res =>
              0 <= i <= j -> j <= len s ->
              exists r, res = Ret r /\ i <= r <= j)).
  - clear s sampleNr i j. intros s x i j Hlt IH1 IH2 _ Hij Hj. cbv zeta in *.
    pose proof (shiftr1_bounds i j Hlt) as Hh.
    set (h := Z.shiftr (i + j) 1) in *.
    destruct (index_in_range s h ltac:(lia)) as [v Hv]. rewrite Hv.
    destruct (v <? x).
    + destruct (IH1 v) as [r [Hr Hr1]]; [lia|lia|]. exists r. split; [exact Hr|lia].
    + destruct (IH2 v) as [r [Hr Hr1]]; [lia|lia|]. exists r. split; [exact Hr|lia].
  - clear s sampleNr i j. intros s x i j Hge _ Hij Hj.
    exists i. split; [reflexivity|lia].
Qed.

(** X5. On every sequence of sample numbers, ascending or not,
    [IsSyncSample] returns without a panic (each index it reads is within
    the sequence), and it returns true only for a sample number that occurs
    in the sequence. *)
Theorem IsSyncSample_safe (b : StssBox) (sampleNr : Z) :
  exists r : bool,
    Stss.IsSyncSample b sampleNr = Ret r
    /\ (r = true -> In sampleNr (SampleNumber b)).
Proof.
  unfold Stss.IsSyncSample.
  destruct (search_in_range (SampleNumber b) sampleNr 0 (len (SampleNumber b)))
    as [i [Hi Hr]]; [unfold len; lia|lia|].
  rewrite Hi. cbn [bind].
  destruct (Z.ltb_spec i (len (SampleNumber b))).
  - destruct (index_in_range (SampleNumber b) i ltac:(lia)) as [v Hv].
    rewrite Hv. cbn [orPanic bind]. eexists. split; [reflexivity|].
    intros Heq. apply Z.eqb_eq in Heq. subst v. apply index_In. eauto.
  - exists false. split; [reflexivity|discriminate].
Qed.

(** The ordering matters: a sample number that occurs in a sequence out of
    order can be missed. *)
Example IsSyncSample_unsorted_miss :
  Stss.IsSyncSample (mkStss 0 0 [5; 1]) 1 = Ret false /\ In 1 [5; 1].
Proof. split; [reflexivity|right; left; reflexivity]. Qed.

(** ** StssBox.IsSyncSample with repeated sample numbers *)

Lemma nondecreasing_tail (a : Z) (l : list Z) :
  nondecreasing (a :: l) = true -> nondecreasing l = true.
Proof.
  destruct l as [|b l]; [reflexivity|].
  cbn [nondecreasing]. intros H. apply andb_true_iff in H. tauto.
Qed.

Lemma nondecreasing_head (a : Z) (l : list Z) :
  nondecreasing (a :: l) = true -> Forall (fun x => a <= x) l.
Proof.
  revert a. induction l as [|b l IH]; intros a H; [constructor|].
  cbn [nondecreasing] in H. apply andb_true_iff in H as [Hab Hl].
  apply Z.leb_le in Hab. constructor; [exact Hab|].
  eapply Forall_impl; [|apply IH; exact Hl]. cbn. intros; lia.
Qed.

Lemma nondecreasing_nth (l : list Z) :
  nondecreasing l = true ->
  forall p q vp vq, (p <= q)%nat ->
    nth_error l p = Some vp -> nth_error l q = Some vq -> vp <= vq.
Proof.
  induction l as [|a l IH]; intros Hl p q vp vq Hpq Hp Hq.
  - destruct p; discriminate.
  - destruct p as [|p], q as [|q]; cbn [nth_error] in *; try lia.
    + assert (vp = vq) by congruence. lia.
    + injection Hp as <-.
      pose proof (nondecreasing_head _ _ Hl) as Hall.
      rewrite Forall_forall in Hall. apply Hall.
      eapply nth_error_In; eauto.
    + apply (IH (nondecreasing_tail _ _ Hl) p q); [lia|assumption|assumption].
Qed.

Lemma nondecreasing_index (l : list Z) (p q vp vq : Z) :
  nondecreasing l = true -> p <= q ->
  Stss.index l p = Some vp -> Stss.index l q = Some vq -> vp <= vq.
Proof.
  intros Hl Hpq Hp Hq.
  apply index_Some in Hp as [Hp1 Hp2]. apply index_Some in Hq as [Hq1 Hq2].
  apply (nondecreasing_nth l Hl (Z.to_nat p) (Z.to_nat q));
    [lia|assumption|assumption].
Qed.

Lemma search_lowest (s : list Z) (sampleNr i j : Z) :
  nondecreasing s = true -> 0 <= i <= j -> j <= len s ->
  below s sampleNr i -> above s sampleNr j ->
  exists r, Stss.search s sampleNr i j = Ret r
            /\ i <= r <= j /\ below s sampleNr r /\ above s sampleNr r.
Proof.
  intros Hs.
  apply (Stss.search_elim
           (fun s sampleNr i j res =>
              nondecreasing s = true -> 0 <= i <= j -> j <= len s ->
              below s sampleNr i -> above s sampleNr j ->
              exists r, res = Ret r
                        /\ i <= r <= j /\ below s sampleNr r
                        /\ above s sampleNr r));
    [| |exact Hs]; clear s sampleNr i j Hs.
  - intros s x i j Hlt IH1 IH2 _ Hs Hij Hj Hb Ha. cbv zeta in *.
    pose proof (shiftr1_bounds i j Hlt) as Hh.
    set (h := Z.shiftr (i + j) 1) in *.
    destruct (index_in_range s h ltac:(lia)) as [v Hv]. rewrite Hv.
    destruct (Z.ltb_spec v x) as [Hvx|Hvx].
    + destruct (IH1 v Hs) as [r (Hr & Hr1 & Hr2 & Hr3)]; [lia|lia| |exact Ha|].
      * intros k w Hk Hkh.
        pose proof (nondecreasing_index s k h w v Hs ltac:(lia) Hk Hv). lia.
      * exists r. repeat split; try assumption; lia.
    + destruct (IH2 v Hs) as [r (Hr & Hr1 & Hr2 & Hr3)]; [lia|lia|exact Hb| |].
      * intros k w Hk Hkh.
        pose proof (nondecreasing_index s h k v w Hs ltac:(lia) Hv Hk). lia.
      * exists r. repeat split; try assumption; lia.
  - intros s x i j Hge _ Hs Hij Hj Hb Ha.
    assert (i = j) as -> by lia.
    exists j. repeat split; try assumption; lia.
Qed.

(** X6. On a sequence that ascends with repetitions allowed, the loop of
    [IsSyncSample] ends at the lowest index whose sample number is not
    smaller than the one looked for, or at the length when there is none (the
    comment of the source), and [IsSyncSample] returns true exactly when the
    sample number occurs in the sequence. *)
Theorem IsSyncSample_lowest_index (b : StssBox) (sampleNr : Z) :
  nondecreasing (SampleNumber b) = true ->
  (exists i,
      Stss.search (SampleNumber b) sampleNr 0 (len (SampleNumber b)) = Ret i
      /\ 0 <= i <= len (SampleNumber b)
      /\ (forall k v, Stss.index (SampleNumber b) k = Some v ->
                      (k < i <-> v < sampleNr)))
  /\ (Stss.IsSyncSample b sampleNr = Ret true <-> In sampleNr (SampleNumber b)).
Proof.
  intros Hs. set (s := SampleNumber b) in *.
  destruct (search_lowest s sampleNr 0 (len s) Hs) as [r (Hr & Hr1 & Hb & Ha)].
  - unfold len; lia.
  - lia.
  - intros k v Hk Hk0. apply index_Some in Hk. lia.
  - intros k v Hk Hk0. apply index_Some in Hk. lia.
  - split.
    + exists r. split; [exact Hr|]. split; [exact Hr1|].
      intros k v Hk. split; [apply Hb; exact Hk|].
      intros Hlt. destruct (Z.lt_ge_cases k r) as [|Hge]; [assumption|].
      pose proof (Ha k v Hk Hge). lia.
    + unfold Stss.IsSyncSample. fold s. rewrite Hr. cbn [bind].
      destruct (Z.ltb_spec r (len s)) as [Hlt|Hge].
      * destruct (index_in_range s r ltac:(lia)) as [v Hv].
        rewrite Hv. cbn [orPanic bind].
        destruct (Z.eqb_spec v sampleNr) as [->|Hne].
        -- split; [intros _|reflexivity]. apply index_In. eauto.
        -- split; [discriminate|]. intros Hin. exfalso.
           apply index_In in Hin as [k Hk].
           destruct (Z.lt_ge_cases k r) as [Hkr|Hkr].
           ++ pose proof (Hb k sampleNr Hk Hkr). lia.
           ++ pose proof (nondecreasing_index s r k v sampleNr Hs Hkr Hv Hk).
              pose proof (Ha r v Hv ltac:(lia)). lia.
      * split; [discriminate|]. intros Hin. exfalso.
        apply index_In in Hin as [k Hk].
        pose proof (Hb k sampleNr Hk) as Hlt'.
        apply index_Some in Hk. lia.
Qed.

Lemma IsSyncSample_lowest_index_witness :
  (exists i,
      Stss.search [1; 5; 5; 9] 5 0 (len [1; 5; 5; 9]) = Ret i
      /\ 0 <= i <= len [1; 5; 5; 9]
      /\ (forall k v, Stss.index [1; 5; 5; 9] k = Some v ->
                      (k < i <-> v < 5)))
  /\ (Stss.IsSyncSample (mkStss 0 0 [1; 5; 5; 9]) 5 = Ret true
      <-> In 5 [1; 5; 5; 9]).
Proof.
  apply (IsSyncSample_lowest_index (mkStss 0 0 [1; 5; 5; 9]) 5). reflexivity.
Defined.

(** ** AudioSampleEntryBox: sequences of AddChild *)

Lemma AddChild_cases (a : AudioSampleEntryBox) (c : Box) :
  (tagMismatch c = true -> Audio.AddChild a c = Panic)
  /\ (tagMismatch c = false ->
      Audio.AddChild a c
      = Ret (mkAudio (name a) (DataReferenceIndex a) (ChannelCount a)
                     (SampleSize a) (SampleRate a)
                     (lastEsds [c] (Esds a)) (lastSinf [c] (Sinf a))
                     (Children a ++ [c]))).
Proof.
  unfold Audio.AddChild, tagMismatch, lastEsds, lastSinf.
  destruct c as [e|s|b|o]; cbn [BoxType isEsds isSinf Stss.Type_ fold_left];
    try (cbn; split; [discriminate|reflexivity]).
  destruct (String.eqb (other_type o) "esds") eqn:E1; cbn;
    [split; [reflexivity|discriminate]|].
  destruct (String.eqb (other_type o) "sinf") eqn:E2; cbn;
    [split; [reflexivity|discriminate]|].
  split; [discriminate|reflexivity].
Qed.

Lemma addChildren_spec (cs : list Box) :
  forall a : AudioSampleEntryBox,
    (existsb tagMismatch cs = true -> addChildren a cs = Panic)
    /\ (existsb tagMismatch cs = false ->
        addChildren a cs
        = Ret (mkAudio (name a) (DataReferenceIndex a) (ChannelCount a)
                       (SampleSize a) (SampleRate a)
                       (lastEsds cs (Esds a)) (lastSinf cs (Sinf a))
                       (Children a ++ cs))).
Proof.
  induction cs as [|c cs IH]; intros a.
  - split; [discriminate|]. intros _. cbn. rewrite app_nil_r.
    destruct a. reflexivity.
  - cbn [existsb addChildren].
    destruct (AddChild_cases a c) as [Hp Hr].
    destruct (tagMismatch c) eqn:Hm.
    + split; [|discriminate]. intros _. rewrite (Hp eq_refl). reflexivity.
    + cbn [orb]. rewrite (Hr eq_refl). cbn [bind].
      specialize (IH (mkAudio (name a) (DataReferenceIndex a) (ChannelCount a)
                        (SampleSize a) (SampleRate a)
                        (lastEsds [c] (Esds a)) (lastSinf [c] (Sinf a))
                        (Children a ++ [c]))).
      cbn [name DataReferenceIndex ChannelCount SampleSize SampleRate Esds
           Sinf Children] in IH.
      destruct IH as [IH1 IH2]. split; [exact IH1|].
      intros H. rewrite (IH2 H). rewrite <- app_assoc. reflexivity.
Qed.

(** X7. A sequence of [AddChild] calls panics when one of the children has
    the tag "esds" or "sinf" without the dynamic type asserted for it.
    Otherwise it appends the children in call order, leaves the name and the
    four numeric fields as they were, and leaves in [Esds] and [Sinf] the
    last child added with that type (the reference from before when none
    was added). *)
Theorem AddChild_sequence (cs : list Box) :
  forall a : AudioSampleEntryBox,
    (existsb tagMismatch cs = true -> addChildren a cs = Panic)
    /\ (existsb tagMismatch cs = false ->
        addChildren a cs
        = Ret (mkAudio (name a) (DataReferenceIndex a) (ChannelCount a)
                       (SampleSize a) (SampleRate a)
                       (lastEsds cs (Esds a)) (lastSinf cs (Sinf a))
                       (Children a ++ cs))).
Proof. apply addChildren_spec. Qed.

Lemma AddChild_sequence_witness :
  addChildren (Audio.NewAudioSampleEntryBox "enca")
              [BEsds esdsA; btrtBox; BOther (mkOther "sinf" opaqueImpl)]
  = Panic
  /\ addChildren (Audio.NewAudioSampleEntryBox "enca")
                 [BEsds esdsA; BSinf sinfA; btrtBox; BEsds esdsB; BSinf sinfB]
     = Ret (mkAudio "enca" 1 0 0 0 (Some esdsB) (Some sinfB)
                    [BEsds esdsA; BSinf sinfA; btrtBox; BEsds esdsB;
                     BSinf sinfB]).
Proof.
  split.
  - apply (proj1 (AddChild_sequence
                    [BEsds esdsA; btrtBox; BOther (mkOther "sinf" opaqueImpl)]
                    (Audio.NewAudioSampleEntryBox "enca"))).
    reflexivity.
  - apply (proj2 (AddChild_sequence
                    [BEsds esdsA; BSinf sinfA; btrtBox; BEsds esdsB;
                     BSinf sinfB]
                    (Audio.NewAudioSampleEntryBox "enca"))).
    reflexivity.
Defined.

(** ** AudioSampleEntryBox.RemoveEncryption on every box *)

Lemma findSinf_Some (cs : list Box) :
  forall k i,
    Audio.findSinf cs k = Some i ->
    exists pre c post,
      cs = pre ++ c :: post /\ i = (k + List.length pre)%nat
      /\ sinfTagged c = true /\ noSinf pre = true.
Proof.
  induction cs as [|c cs IH]; intros k i H; [discriminate|].
  cbn [Audio.findSinf] in H.
  destruct (String.eqb (BoxType c) "sinf") eqn:E.
  - injection H as <-. exists [], c, cs. cbn. repeat split; auto.
  - apply IH in H as (pre & c' & post & -> & -> & Hc & Hpre).
    exists (c :: pre), c', post. cbn [app List.length].
    split; [reflexivity|]. split; [lia|]. split; [exact Hc|].
    unfold noSinf, sinfTagged in *. cbn [forallb]. rewrite E. exact Hpre.
Qed.

Lemma findSinf_None (cs : list Box) :
  forall k, Audio.findSinf cs k = None -> noSinf cs = true.
Proof.
  induction cs as [|c cs IH]; intros k H; [reflexivity|].
  cbn [Audio.findSinf] in H. cbn [noSinf forallb]. unfold sinfTagged.
  destruct (String.eqb (BoxType c) "sinf"); [discriminate|].
  cbn [negb andb]. exact (IH _ H).
Qed.

Lemma remove_at (pre post : list Box) (c : Box) :
  firstn (List.length pre) (pre ++ c :: post)
  ++ skipn (S (List.length pre)) (pre ++ c :: post)
  = pre ++ post.
Proof.
  f_equal.
  - rewrite firstn_app, Nat.sub_diag, firstn_all. cbn [firstn].
    apply app_nil_r.
  - rewrite skipn_app, (skipn_all2 pre) by lia.
    replace (S (List.length pre) - List.length pre)%nat with 1%nat by lia.
    reflexivity.
Qed.

(** X8. A call of [RemoveEncryption] that returns a box and no error was
    made on a box named "enca" whose [Sinf] reference was set; it returns the
    referenced box, whose [DataFormat] is the new name, and the numeric
    fields and [Esds] stay. It has removed one child, the first whose tag is
    "sinf", whatever box that is, and then cleared [Sinf]; when no child has
    that tag the children stay and [Sinf] stays set. *)
Theorem RemoveEncryption_successful_call
    (a a' : AudioSampleEntryBox) (sinf : SinfBox) :
  Audio.RemoveEncryption a = (a', Ret sinf) ->
  name a = "enca" /\ Sinf a = Some sinf
  /\ name a' = DataFormat (Frma sinf)
  /\ DataReferenceIndex a' = DataReferenceIndex a
  /\ ChannelCount a' = ChannelCount a
  /\ SampleSize a' = SampleSize a
  /\ SampleRate a' = SampleRate a
  /\ Esds a' = Esds a
  /\ ((exists pre c post,
          Children a = pre ++ c :: post /\ noSinf pre = true
          /\ sinfTagged c = true
          /\ Children a' = pre ++ post /\ Sinf a' = None)
      \/ (noSinf (Children a) = true
          /\ Children a' = Children a /\ Sinf a' = Some sinf)).
Proof.
  unfold Audio.RemoveEncryption.
  destruct (String.eqb (name a) "enca") eqn:Hn; cbn [negb];
    [|intros H; apply pair_equal_spec in H as [_ H]; discriminate].
  destruct (Sinf a) as [s|] eqn:Hs;
    [|intros H; apply pair_equal_spec in H as [_ H]; discriminate].
  intros H. apply pair_equal_spec in H as [Ha Hr].
  assert (s = sinf) by congruence. subst s. subst a'.
  split; [apply String.eqb_eq; exact Hn|]. split; [reflexivity|].
  destruct (Audio.findSinf (Children a) 0) as [i|] eqn:Hf.
  - apply findSinf_Some in Hf as (pre & c & post & Hc & -> & Htag & Hpre).
    cbn [name DataReferenceIndex ChannelCount SampleSize SampleRate Esds Sinf
         Children Nat.add].
    repeat split. left. exists pre, c, post.
    rewrite Hc at 2 3. rewrite remove_at. auto.
  - apply findSinf_None in Hf.
    cbn [name DataReferenceIndex ChannelCount SampleSize SampleRate Esds Sinf
         Children].
    repeat split. right. auto.
Qed.

Lemma RemoveEncryption_successful_call_witness :
  name encaOpaqueFirst = "enca" /\ Sinf encaOpaqueFirst = Some sinfA
  /\ name (fst (Audio.RemoveEncryption encaOpaqueFirst))
     = DataFormat (Frma sinfA)
  /\ DataReferenceIndex (fst (Audio.RemoveEncryption encaOpaqueFirst))
     = DataReferenceIndex encaOpaqueFirst
  /\ ChannelCount (fst (Audio.RemoveEncryption encaOpaqueFirst))
     = ChannelCount encaOpaqueFirst
  /\ SampleSize (fst (Audio.RemoveEncryption encaOpaqueFirst))
     = SampleSize encaOpaqueFirst
  /\ SampleRate (fst (Audio.RemoveEncryption encaOpaqueFirst))
     = SampleRate encaOpaqueFirst
  /\ Esds (fst (Audio.RemoveEncryption encaOpaqueFirst))
     = Esds encaOpaqueFirst
  /\ ((exists pre c post,
          Children encaOpaqueFirst = pre ++ c :: post /\ noSinf pre = true
          /\ sinfTagged c = true
          /\ Children (fst (Audio.RemoveEncryption encaOpaqueFirst))
             = pre ++ post
          /\ Sinf (fst (Audio.RemoveEncryption encaOpaqueFirst)) = None)
      \/ (noSinf (Children encaOpaqueFirst) = true
          /\ Children (fst (Audio.RemoveEncryption encaOpaqueFirst))
             = Children encaOpaqueFirst
          /\ Sinf (fst (Audio.RemoveEncryption encaOpaqueFirst))
             = Some sinfA)).
Proof.
  apply (RemoveEncryption_successful_call
           encaOpaqueFirst (fst (Audio.RemoveEncryption encaOpaqueFirst))
           sinfA).
  reflexivity.
Defined.

(** ** The typed references stay among the children *)

Lemma In_remove_other (pre post : list Box) (c x : Box) :
  In x (pre ++ c :: post) -> x <> c -> In x (pre ++ post).
Proof.
  intros Hin Hne. apply in_app_or in Hin as [H|[H|H]].
  - apply in_or_app. left. exact H.
  - congruence.
  - apply in_or_app. right. exact H.
Qed.

(** X9. The typed references alias children: [NewAudioSampleEntryBox] gives
    a box in which every reference that is set is one of the children (none
    is set), and [AddChild] and [RemoveEncryption] keep it so; after a
    successful [RemoveEncryption] on such a box [Sinf] is nil. *)
Theorem references_alias_children :
  (forall nm, refsAliasChildren (Audio.NewAudioSampleEntryBox nm))
  /\ (forall a child a',
         refsAliasChildren a -> Audio.AddChild a child = Ret a' ->
         refsAliasChildren a')
  /\ (forall a,
         refsAliasChildren a ->
         refsAliasChildren (fst (Audio.RemoveEncryption a))
         /\ (forall sinf, snd (Audio.RemoveEncryption a) = Ret sinf ->
                          Sinf (fst (Audio.RemoveEncryption a)) = None)).
Proof.
  split; [|split].
  - intros nm. split; intros x H; discriminate.
  - intros a child a' [He Hs] H.
    destruct (AddChild_cases a child) as [Hp Hr].
    destruct (tagMismatch child); [rewrite (Hp eq_refl) in H; discriminate|].
    rewrite (Hr eq_refl) in H. injection H as <-.
    unfold refsAliasChildren, lastEsds, lastSinf.
    cbn [Esds Sinf Children fold_left]. split; intros x Hx; apply in_or_app.
    + destruct child; try (left; apply He; exact Hx).
      injection Hx as <-. right. left. reflexivity.
    + destruct child; try (left; apply Hs; exact Hx).
      injection Hx as <-. right. left. reflexivity.
  - intros a [He Hs]. unfold Audio.RemoveEncryption.
    destruct (negb (String.eqb (name a) "enca")); cbn [fst snd];
      [split; [split; assumption|discriminate]|].
    destruct (Sinf a) as [sinf|] eqn:Hsinf; cbn [fst snd];
      [|split; [split; [assumption|rewrite Hsinf; discriminate]|discriminate]].
    destruct (Audio.findSinf (Children a) 0) as [i|] eqn:Hf.
    + apply findSinf_Some in Hf as (pre & c & post & Hc & -> & Htag & Hpre).
      cbn [Nat.add]. rewrite Hc, remove_at.
      split; [|reflexivity].
      split; cbn [Esds Sinf Children]; intros x Hx; [|discriminate].
      apply (In_remove_other pre post c).
      * rewrite <- Hc. apply He. exact Hx.
      * intros <-. discriminate.
    + exfalso. apply findSinf_None in Hf.
      pose proof (Hs sinf eq_refl) as Hin.
      unfold noSinf in Hf. rewrite forallb_forall in Hf.
      specialize (Hf _ Hin). discriminate.
Qed.

Lemma encaOne_refs : refsAliasChildren encaOne.
Proof.
  split; intros x H; [discriminate|].
  injection H as <-. right. left. reflexivity.
Qed.

Lemma references_alias_children_witness :
  refsAliasChildren (Audio.NewAudioSampleEntryBox "enca")
  /\ refsAliasChildren (mkAudio "enca" 1 0 0 0 None (Some sinfA) [BSinf sinfA])
  /\ refsAliasChildren (fst (Audio.RemoveEncryption encaOne))
  /\ Sinf (fst (Audio.RemoveEncryption encaOne)) = None.
Proof.
  pose proof references_alias_children as [H1 [H2 H3]].
  split; [apply H1|]. split.
  - apply (H2 (Audio.NewAudioSampleEntryBox "enca") (BSinf sinfA));
      [apply H1|reflexivity].
  - destruct (H3 encaOne encaOne_refs) as [Ha Hb].
    split; [exact Ha|]. apply (Hb sinfA). reflexivity.
Defined.

(** ** Size after RemoveEncryption *)

Lemma sumSizes_app (l1 l2 : list Box) :
  sumSizes (l1 ++ l2) = sumSizes l1 + sumSizes l2.
Proof.
  unfold sumSizes. induction l1 as [|c l1 IH]; cbn [app fold_right]; [lia|].
  rewrite IH. lia.
Qed.

Lemma sumSizes_nonneg' (cs : list Box) :
  Forall (fun c => 0 <= BoxSize c) cs -> 0 <= sumSizes cs.
Proof.
  induction 1 as [|c cs Hc _ IH]; cbn [sumSizes fold_right]; [lia|].
  fold (sumSizes cs). lia.
Qed.

Lemma fold_sizes_exact (cs : list Box) :
  Forall (fun c => 0 <= BoxSize c) cs ->
  forall acc, 0 <= acc -> acc + sumSizes cs < 2 ^ 64 ->
    fold_left (fun totalSize child => uint64 (totalSize + BoxSize child)) cs acc
    = acc + sumSizes cs.
Proof.
  induction 1 as [|c cs Hc Hcs IH]; intros acc Hacc Hsum;
    cbn [fold_left sumSizes fold_right] in *; [lia|].
  fold (sumSizes cs) in *.
  pose proof (sumSizes_nonneg' cs Hcs).
  unfold uint64 at 2. rewrite Z.mod_small by lia.
  rewrite IH by lia. lia.
Qed.

Lemma Audio_Size_exact (a : AudioSampleEntryBox) :
  Forall (fun c => 0 <= BoxSize c) (Children a) ->
  nrAudioSampleBytesBeforeChildren + sumSizes (Children a) < 2 ^ 64 ->
  Audio.Size a = nrAudioSampleBytesBeforeChildren + sumSizes (Children a).
Proof.
  intros Hcs Hsum. unfold Audio.Size.
  unfold uint64 at 2. rewrite Z.mod_small by (cbv; split; congruence).
  apply fold_sizes_exact; [assumption|cbv; congruence|assumption].
Qed.

(** X10. [Size()] follows the children: when the child sizes are [uint64]
    values whose sum with 36 does not wrap around, a successful
    [RemoveEncryption] lowers [Size()] by the size of the child it removes,
    the first child tagged "sinf". *)
Theorem RemoveEncryption_lowers_Size
    (a : AudioSampleEntryBox) (sinf : SinfBox)
    (pre post : list Box) (c : Box) :
  name a = "enca" -> Sinf a = Some sinf ->
  Children a = pre ++ c :: post ->
  noSinf pre = true -> sinfTagged c = true ->
  Forall (fun x => 0 <= BoxSize x) (Children a) ->
  nrAudioSampleBytesBeforeChildren + sumSizes (Children a) < 2 ^ 64 ->
  Audio.Size (fst (Audio.RemoveEncryption a)) = Audio.Size a - BoxSize c.
Proof.
  intros Hn Hs Hc Hpre Htag Hnn Hsum.
  rewrite (Audio_Size_exact a Hnn Hsum).
  unfold Audio.RemoveEncryption.
  apply String.eqb_eq in Hn. rewrite Hn, Hs. cbn [negb fst].
  rewrite Hc, findSinf_first by assumption. cbn [Nat.add].
  rewrite remove_at.
  rewrite Hc in Hnn, Hsum.
  rewrite sumSizes_app in *. cbn [sumSizes fold_right] in *.
  fold (sumSizes post) in *.
  apply Forall_app in Hnn as [Hnpre Hnpost].
  inversion Hnpost as [|? ? Hcn Hnpost']; subst.
  pose proof (sumSizes_nonneg' pre Hnpre).
  pose proof (sumSizes_nonneg' post Hnpost').
  rewrite Audio_Size_exact; cbn [Children].
  - rewrite sumSizes_app. lia.
  - apply Forall_app. split; assumption.
  - rewrite sumSizes_app. unfold nrAudioSampleBytesBeforeChildren in *. lia.
Qed.

Lemma RemoveEncryption_lowers_Size_witness :
  Audio.Size (fst (Audio.RemoveEncryption encaOne))
  = Audio.Size encaOne - BoxSize (BSinf sinfA).
Proof.
  apply (RemoveEncryption_lowers_Size
           encaOne sinfA [BOther (mkOther "btrt" opaqueImpl)] [] (BSinf sinfA));
    try reflexivity.
  unfold encaOne. cbn [Children].
  apply Forall_cons; [cbn; lia|]. apply Forall_cons; [cbn; lia|].
  apply Forall_nil.
Defined.

(** ** The fixed fields: encoding then decoding *)

Lemma BigEndian_Uint16_PutUint16 (n : Z) (rest : list byte) :
  0 <= n < 2 ^ 16 -> BigEndian_Uint16 (PutUint16 n ++ rest) = Some n.
Proof.
  intros Hn. unfold PutUint16. cbn [app BigEndian_Uint16]. f_equal.
  pose proof (Z_of_byte_range (byte_of_Z n)).
  rewrite lor_shiftl_add by lia.
  rewrite !Z_of_byte_of_Z, Z.shiftr_div_pow2 by lia.
  change 256 with (2 ^ 8).
  pose proof (Z.div_mod n (2 ^ 8) ltac:(lia)).
  assert (0 <= n / 2 ^ 8 < 2 ^ 8).
  { split; [apply Z.div_pos; lia|]. apply Z.div_lt_upper_bound; lia. }
  rewrite (Z.mod_small (n / 2 ^ 8)) by lia. lia.
Qed.

Lemma ReadUint16_at (A C : list byte) (n : Z) :
  0 <= n < 2 ^ 16 ->
  SliceReader.ReadUint16 (SliceReader.mk (A ++ PutUint16 n ++ C) (len A))
  = Ret (n, SliceReader.mk (A ++ PutUint16 n ++ C) (len A + 2)).
Proof.
  intros Hn. unfold SliceReader.ReadUint16.
  cbn [SliceReader.data SliceReader.pos].
  pose proof (slice_app_middle A (PutUint16 n) C) as H.
  change (len (PutUint16 n)) with 2 in H. rewrite H. cbn [orPanic bind].
  pose proof (BigEndian_Uint16_PutUint16 n [] Hn) as E.
  rewrite app_nil_r in E. rewrite E. reflexivity.
Qed.

Lemma ReadUint32_at (A C : list byte) (n : Z) :
  0 <= n < 2 ^ 32 ->
  SliceReader.ReadUint32 (SliceReader.mk (A ++ PutUint32 n ++ C) (len A))
  = Ret (n, SliceReader.mk (A ++ PutUint32 n ++ C) (len A + 4)).
Proof.
  intros Hn. unfold SliceReader.ReadUint32.
  cbn [SliceReader.data SliceReader.pos].
  pose proof (slice_app_middle A (PutUint32 n) C) as H.
  change (len (PutUint32 n)) with 4 in H. rewrite H. cbn [orPanic bind].
  pose proof (BigEndian_Uint32_PutUint32 n [] Hn) as E.
  rewrite app_nil_r in E. rewrite E. reflexivity.
Qed.

Lemma makeUint16FromFixed32_makeFixed32Uint (nr : Z) :
  0 <= nr < 2 ^ 16 ->
  0 <= makeFixed32Uint nr < 2 ^ 32
  /\ makeUint16FromFixed32 (makeFixed32Uint nr) = nr.
Proof.
  intros Hn. rewrite makeFixed32Uint_shift by assumption.
  rewrite Z.shiftl_mul_pow2 by lia. split; [lia|].
  unfold makeUint16FromFixed32, uint16.
  rewrite Z.shiftr_div_pow2, Z.div_mul by lia. apply Z.mod_small. lia.
Qed.

(** What the decoder reads from the bytes [writeFixedFields] writes. *)
Lemma decodeFixedFields_fixedFieldBytes
    (nm : string) (a : AudioSampleEntryBox) (rest : list byte) :
  audioInRange a ->
  Audio.decodeFixedFields nm
    (SliceReader.NewSliceReader (fixedFieldBytes a ++ rest))
  = Ret (mkAudio nm (DataReferenceIndex a) (ChannelCount a) (SampleSize a)
                 (SampleRate a) None None [],
         SliceReader.mk (fixedFieldBytes a ++ rest) 28).
Proof.
  intros (Hd & Hc & Hs & Hr).
  destruct (makeUint16FromFixed32_makeFixed32Uint _ Hr) as [Hfr Hfx].
  unfold Audio.decodeFixedFields, SliceReader.SkipBytes,
    SliceReader.NewSliceReader, fixedFieldBytes.
  cbn [bind SliceReader.data SliceReader.pos].
  set (Z6 := repeat x00 6). set (Z8 := repeat x00 8). set (Z4 := repeat x00 4).
  rewrite <- !app_assoc.
  change (0 + 6) with (len Z6).
  rewrite ReadUint16_at by assumption. cbn [bind SliceReader.data SliceReader.pos].
  change (len Z6 + 2 + 8) with (len (Z6 ++ PutUint16 (DataReferenceIndex a) ++ Z8)).
  rewrite (app_assoc Z6), (app_assoc (Z6 ++ _) Z8), <- (app_assoc Z6).
  rewrite ReadUint16_at by assumption. cbn [bind SliceReader.data SliceReader.pos].
  change (len (Z6 ++ PutUint16 (DataReferenceIndex a) ++ Z8) + 2)
    with (len ((Z6 ++ PutUint16 (DataReferenceIndex a) ++ Z8)
               ++ PutUint16 (ChannelCount a))).
  rewrite (app_assoc (Z6 ++ _ ++ Z8)).
  rewrite ReadUint16_at by assumption. cbn [bind SliceReader.data SliceReader.pos].
  change (len ((Z6 ++ PutUint16 (DataReferenceIndex a) ++ Z8)
               ++ PutUint16 (ChannelCount a)) + 2 + 4)
    with (len ((((Z6 ++ PutUint16 (DataReferenceIndex a) ++ Z8)
                 ++ PutUint16 (ChannelCount a))
                ++ PutUint16 (SampleSize a)) ++ Z4)).
  rewrite (app_assoc ((Z6 ++ _ ++ Z8) ++ _)),
    (app_assoc (((Z6 ++ _ ++ Z8) ++ _) ++ _) Z4).
  rewrite ReadUint32_at by assumption. cbn [bind SliceReader.data SliceReader.pos].
  rewrite Hfx. reflexivity.
Qed.

Lemma RemainingBytes_at (A C : list byte) :
  SliceReader.RemainingBytes (SliceReader.mk (A ++ C) (len A)) = Ret C.
Proof.
  unfold SliceReader.RemainingBytes. cbn [SliceReader.data SliceReader.pos].
  pose proof (slice_app_middle A C []) as H.
  rewrite app_nil_r in H. rewrite <- len_app in H. rewrite H. reflexivity.
Qed.

(** X11. Encoding then decoding the fixed fields loses nothing: for a box
    whose four numeric fields are [uint16] values, the decoder reads from
    the 28 bytes that [writeFixedFields] writes the same data reference
    index, channel count, sample size and sample rate, takes the name from
    the header, and is left at byte 28 with what follows as the bytes of the
    children. *)
Theorem fixed_fields_encode_then_decode
    (a : AudioSampleEntryBox) (nm : string) (rest : list byte) :
  audioInRange a ->
  Bits.Bytes (Audio.writeFixedFields a (Bits.NewSliceWriterWithSize 28))
  = fixedFieldBytes a
  /\ exists s,
      Audio.decodeFixedFields nm
        (SliceReader.NewSliceReader (fixedFieldBytes a ++ rest))
      = Ret (mkAudio nm (DataReferenceIndex a) (ChannelCount a)
                     (SampleSize a) (SampleRate a) None None [], s)
      /\ SliceReader.RemainingBytes s = Ret rest.
Proof.
  intros Hr. split.
  - rewrite writeFixedFields_fits; [reflexivity|reflexivity|cbn; lia].
  - eexists. split; [apply decodeFixedFields_fixedFieldBytes; exact Hr|].
    change 28 with (len (fixedFieldBytes a)). apply RemainingBytes_at.
Qed.

Lemma fixed_fields_encode_then_decode_witness :
  Bits.Bytes (Audio.writeFixedFields mp4aBox (Bits.NewSliceWriterWithSize 28))
  = fixedFieldBytes mp4aBox
  /\ exists s,
      Audio.decodeFixedFields "mp4a"
        (SliceReader.NewSliceReader (fixedFieldBytes mp4aBox ++ [x2a]))
      = Ret (mkAudio "mp4a" 1 2 16 48000 None None [], s)
      /\ SliceReader.RemainingBytes s = Ret [x2a].
Proof.
  apply (fixed_fields_encode_then_decode mp4aBox "mp4a" [x2a]).
  unfold audioInRange. cbn. lia.
Defined.

(** ** AudioSampleEntryBox: what Encode and EncodeSW write *)

Lemma audioHead_length (a : AudioSampleEntryBox) :
  len (audioHead a) = nrAudioSampleBytesBeforeChildren.
Proof.
  unfold audioHead. rewrite !len_app, tagBytes_length, fixedFieldBytes_length.
  reflexivity.
Qed.

Lemma Audio_Encode_layout_fits (a : AudioSampleEntryBox) (w : ioWriter) :
  36 <= Audio.Size a < 2 ^ 32 ->
  Audio.Encode a w = Audio.encodeChildren (Children a) (w ++ audioHead a).
Proof.
  intros Hs. unfold Audio.Encode, EncodeHeader, headerBytes.
  destruct (Z.geb_spec (Audio.Size a) (2 ^ 32)); [lia|].
  assert (Hbuf : Audio.makebuf_len a = Audio.Size a - boxHeaderSize).
  { unfold Audio.makebuf_len, uint64, int_of_uint64, boxHeaderSize.
    rewrite Z.mod_small by lia.
    destruct (Z.ltb_spec (Audio.Size a - 8) (2 ^ 63)); lia. }
  rewrite Hbuf. unfold boxHeaderSize.
  destruct (Z.ltb_spec (Audio.Size a - 8) 0); [lia|].
  rewrite writeFixedFields_fits; [|reflexivity|cbn; lia].
  cbn [Bits.Bytes Bits.sw_buf Bits.NewSliceWriterWithSize app].
  unfold Write, audioHead, Audio.Type_. rewrite <- !app_assoc. reflexivity.
Qed.

(** X12. [AudioSampleEntryBox.Encode] on a box whose [Size()] is at least 36
    and fits the 4-byte size field writes the 8-byte header and the 28 bytes
    of the fixed fields and then hands the writer to the children in their
    order: its result is theirs, so the bytes before a child that fails stay
    written. When [Size()] does not fit the 4-byte size field it returns the
    error of the header and has written nothing. *)
Theorem Audio_Encode_layout (a : AudioSampleEntryBox) (w : ioWriter) :
  (36 <= Audio.Size a < 2 ^ 32 ->
     Audio.Encode a w
     = Audio.encodeChildren (Children a) (w ++ audioHead a))
  /\ (2 ^ 32 <= Audio.Size a ->
        exists e, Audio.Encode a w = (w, Fail e)).
Proof.
  split; intros Hs.
  - apply Audio_Encode_layout_fits. exact Hs.
  - unfold Audio.Encode, EncodeHeader, headerBytes.
    destruct (Z.geb_spec (Audio.Size a) (2 ^ 32)); [|lia].
    eexists. reflexivity.
Qed.

Lemma Audio_Encode_layout_witness :
  Audio.Encode mp4aBox [x2a]
  = Audio.encodeChildren (Children mp4aBox) ([x2a] ++ audioHead mp4aBox)
  /\ exists e,
      Audio.Encode (mkAudio "mp4a" 1 2 16 48000 None None [hugeChild]) [x2a]
      = ([x2a], Fail e).
Proof.
  split.
  - apply (proj1 (Audio_Encode_layout mp4aBox [x2a])). vm_compute.
    split; [discriminate|reflexivity].
  - apply (proj2 (Audio_Encode_layout
                    (mkAudio "mp4a" 1 2 16 48000 None None [hugeChild]) [x2a])).
    vm_compute. discriminate.
Defined.

Lemma encodeChildren_as (cs : list Box) (bss : list (list byte)) :
  Forall2 encodesAs cs bss ->
  forall w, Audio.encodeChildren cs w = (w ++ List.concat bss, ok).
Proof.
  induction 1 as [|c bs cs bss Hc _ IH]; intros w;
    cbn [Audio.encodeChildren List.concat].
  - rewrite app_nil_r. reflexivity.
  - destruct Hc as [Hc _]. rewrite Hc. unfold ok at 1.
    rewrite IH, <- app_assoc. reflexivity.
Qed.

Lemma encodeChildrenSW_as (cs : list Box) (bss : list (list byte)) :
  Forall2 encodesAs cs bss ->
  forall buf n,
    len buf + len (List.concat bss) <= n ->
    Audio.encodeChildrenSW cs (Bits.mkSW buf n None)
    = (Bits.mkSW (buf ++ List.concat bss) n None, ok).
Proof.
  induction 1 as [|c bs cs bss Hc _ IH]; intros buf n Hfit;
    cbn [Audio.encodeChildrenSW List.concat] in *.
  - rewrite app_nil_r. reflexivity.
  - destruct Hc as [_ Hc]. rewrite len_app in Hfit.
    assert (0 <= len (List.concat bss)) by (unfold len; lia).
    rewrite Hc by lia. unfold ok at 1.
    rewrite IH, <- app_assoc; [reflexivity|].
    rewrite len_app. lia.
Qed.

(** X13. The two encoders of the audio sample entry write the same bytes.
    For a box whose [Size()] is at least 36 and fits the 4-byte size field,
    and whose children each encode to the same bytes on both paths,
    [Encode] appends to the writer, and [EncodeSW] appends to a slice writer
    without error and with room, the header, the fixed fields and the bytes
    of the children in order; both return nil. *)
Theorem Audio_Encode_EncodeSW_agree
    (a : AudioSampleEntryBox) (bss : list (list byte)) :
  36 <= Audio.Size a < 2 ^ 32 ->
  Forall2 encodesAs (Children a) bss ->
  (forall w, Audio.Encode a w = (w ++ audioHead a ++ List.concat bss, ok))
  /\ (forall buf n,
         len buf + len (audioHead a ++ List.concat bss) <= n ->
         Audio.EncodeSW a (Bits.mkSW buf n None)
         = (Bits.mkSW (buf ++ audioHead a ++ List.concat bss) n None, ok)).
Proof.
  intros Hs Hcs. split.
  - intros w. rewrite (Audio_Encode_layout_fits a w Hs).
    rewrite (encodeChildren_as _ _ Hcs), <- app_assoc. reflexivity.
  - intros buf n Hfit. rewrite len_app, audioHead_length in Hfit.
    unfold nrAudioSampleBytesBeforeChildren in Hfit.
    assert (0 <= len (List.concat bss)) by (unfold len; lia).
    unfold Audio.EncodeSW, EncodeHeaderSW, headerBytes.
    destruct (Z.geb_spec (Audio.Size a) (2 ^ 32)); [lia|].
    rewrite WriteBytes_fits;
      [|reflexivity
       |cbn [Bits.sw_buf Bits.sw_len]; rewrite len_app, tagBytes_length;
        unfold len in *; cbn [List.length PutUint32]; lia].
    cbn [Bits.sw_buf Bits.sw_len]. unfold ok at 1.
    rewrite writeFixedFields_fits;
      [|reflexivity
       |cbn [Bits.sw_buf Bits.sw_len]; rewrite !len_app, tagBytes_length;
        unfold len in *; cbn [List.length PutUint32]; lia].
    cbn [Bits.sw_buf Bits.sw_len].
    rewrite (encodeChildrenSW_as _ _ Hcs).
    + unfold audioHead, Audio.Type_. rewrite <- !app_assoc. reflexivity.
    + rewrite !len_app, tagBytes_length, fixedFieldBytes_length.
      unfold len in *. cbn [List.length PutUint32]. lia.
Qed.

Lemma BStss_encodesAs (b : StssBox) :
  boxHeaderSize + 8 + 4 * len (SampleNumber b) < 2 ^ 32 ->
  encodesAs (BStss b) (stssBytes b).
Proof.
  intros Hk. split; cbn [BoxEncode BoxEncodeSW].
  - intros w. apply Stss_Encode_fits. exact Hk.
  - intros buf n Hfit. apply Stss_EncodeSW_fits; [|exact Hfit].
    rewrite (Stss_Size_nowrap b) by lia. exact Hk.
Qed.

Lemma raw_encodesAs (tag : string) (bs : list byte) :
  encodesAs (BOther (mkOther tag (rawImpl bs))) bs.
Proof.
  split; cbn [BoxEncode BoxEncodeSW other_impl rawImpl impl_encode
              impl_encodeSW].
  - intros w. reflexivity.
  - intros buf n Hfit. rewrite WriteBytes_fits; [reflexivity|reflexivity|].
    exact Hfit.
Qed.

Lemma Audio_Encode_EncodeSW_agree_witness :
  (forall w,
      Audio.Encode mp4aBox w
      = (w ++ audioHead mp4aBox
           ++ List.concat [PutUint32 20 ++ tagBytes "btrt" ++ repeat x00 12;
                      stssBytes (mkStss 0 0 [1; 25])], ok))
  /\ (forall buf n,
         len buf
         + len (audioHead mp4aBox
                ++ List.concat [PutUint32 20 ++ tagBytes "btrt" ++ repeat x00 12;
                           stssBytes (mkStss 0 0 [1; 25])]) <= n ->
         Audio.EncodeSW mp4aBox (Bits.mkSW buf n None)
         = (Bits.mkSW
              (buf ++ audioHead mp4aBox
                 ++ List.concat [PutUint32 20 ++ tagBytes "btrt" ++ repeat x00 12;
                            stssBytes (mkStss 0 0 [1; 25])]) n None, ok)).
Proof.
  apply (Audio_Encode_EncodeSW_agree mp4aBox).
  - vm_compute. split; [discriminate|reflexivity].
  - unfold mp4aBox, btrtBox. cbn [Children].
    apply Forall2_cons; [apply raw_encodesAs|].
    apply Forall2_cons; [|apply Forall2_nil].
    apply BStss_encodesAs. vm_compute. reflexivity.
Defined.

(** ** DecodeAudioSampleEntry: how the loop over the children ends *)

Section LoopEnds.

Variable DecodeBox : Z -> ioReader -> outcome (option Box) * ioReader.
Variable hdr : boxHeader.
Variable startPos : Z.

Lemma decode_after_iterations
    (r r' : ioReader) (body : list byte) (k : nat)
    (st0 st : Audio.LoopState) (res : outcome AudioSampleEntryBox) :
  readBoxBody r hdr = (Ret body, r') ->
  Audio.loopInit hdr startPos body = Ret st0 ->
  Audio.iterations DecodeBox k hdr startPos st0 = Some st ->
  Audio.loopStep DecodeBox hdr startPos st = inr res ->
  forall fuel : nat,
    (k < fuel)%nat ->
    Audio.DecodeAudioSampleEntry DecodeBox fuel hdr startPos r
    = (Some res, r').
Proof.
  intros Hbody Hinit Hiter Hstep fuel Hfuel.
  unfold Audio.DecodeAudioSampleEntry. rewrite Hbody, Hinit. f_equal.
  replace fuel with (k + S (fuel - S k))%nat by lia.
  rewrite (loop_after_iterations DecodeBox hdr startPos k st0 st _ Hiter).
  cbn [Audio.loop]. rewrite Hstep. reflexivity.
Qed.

End LoopEnds.

(** X14. The end of the input ends the decoding of the children without any
    check of the position: when the dispatcher reports [io.EOF],
    [DecodeAudioSampleEntry] returns the box with the children added so far,
    also when the position has not reached [startPos + hdr.size]. Any other
    error of the dispatcher is returned as it is, without a box. *)
Theorem DecodeAudioSampleEntry_dispatcher_error
    (DecodeBox : Z -> ioReader -> outcome (option Box) * ioReader)
    (hdr : boxHeader) (startPos : Z) (r r' : ioReader) (body : list byte)
    (k : nat) (st0 st : Audio.LoopState) (e : error) (rest : ioReader) :
  readBoxBody r hdr = (Ret body, r') ->
  Audio.loopInit hdr startPos body = Ret st0 ->
  Audio.iterations DecodeBox k hdr startPos st0 = Some st ->
  DecodeBox (Audio.ls_pos st) (Audio.ls_rest st) = (Fail e, rest) ->
  forall fuel : nat,
    (k < fuel)%nat ->
    Audio.DecodeAudioSampleEntry DecodeBox fuel hdr startPos r
    = (Some (match e with
             | EOF => Ret (Audio.ls_box st)
             | _ => Fail e
             end), r').
Proof.
  intros Hbody Hinit Hiter Hd fuel Hfuel.
  apply (decode_after_iterations DecodeBox hdr startPos r r' body k st0 st);
    try assumption.
  unfold Audio.loopStep. rewrite Hd. destruct e; reflexivity.
Qed.

(** An "mp4a" box that declares 81 bytes: header, fixed fields, two children
    of 20 bytes and five more bytes. *)
Lemma DecodeAudioSampleEntry_dispatcher_error_witness :
  Audio.DecodeAudioSampleEntry headerDecodeBox 5 (mkHdr "mp4a" 81 8) 0
    (repeat x00 73)
  = (Some (Ret (mkAudio "mp4a" 0 0 0 0 None None [btrtBox; btrtBox])), [])
  /\ Audio.Size (mkAudio "mp4a" 0 0 0 0 None None [btrtBox; btrtBox]) = 76.
Proof.
  split; [|reflexivity].
  apply (DecodeAudioSampleEntry_dispatcher_error
           headerDecodeBox (mkHdr "mp4a" 81 8) 0 (repeat x00 73) []
           (repeat x00 73) 2
           (Audio.mkLS (mkAudio "mp4a" 0 0 0 0 None None []) 36
                       (repeat x00 45))
           (Audio.mkLS (mkAudio "mp4a" 0 0 0 0 None None [btrtBox; btrtBox]) 76
                       (repeat x00 5))
           EOF (repeat x00 5)).
  - reflexivity.
  - vm_compute. reflexivity.
  - vm_compute. reflexivity.
  - reflexivity.
  - lia.
Defined.

(** X15. A child that the dispatcher returns with the tag "esds" or "sinf"
    and another dynamic type than the one [AddChild] asserts makes
    [DecodeAudioSampleEntry] panic: no box and no error is returned. *)
Theorem DecodeAudioSampleEntry_mismatched_child_panics
    (DecodeBox : Z -> ioReader -> outcome (option Box) * ioReader)
    (hdr : boxHeader) (startPos : Z) (r r' : ioReader) (body : list byte)
    (k : nat) (st0 st : Audio.LoopState) (box : Box) (rest : ioReader) :
  readBoxBody r hdr = (Ret body, r') ->
  Audio.loopInit hdr startPos body = Ret st0 ->
  Audio.iterations DecodeBox k hdr startPos st0 = Some st ->
  DecodeBox (Audio.ls_pos st) (Audio.ls_rest st) = (Ret (Some box), rest) ->
  tagMismatch box = true ->
  forall fuel : nat,
    (k < fuel)%nat ->
    Audio.DecodeAudioSampleEntry DecodeBox fuel hdr startPos r
    = (Some Panic, r').
Proof.
  intros Hbody Hinit Hiter Hd Hm fuel Hfuel.
  apply (decode_after_iterations DecodeBox hdr startPos r r' body k st0 st);
    try assumption.
  unfold Audio.loopStep. rewrite Hd.
  rewrite (proj1 (AddChild_cases (Audio.ls_box st) box) Hm). reflexivity.
Qed.

Lemma DecodeAudioSampleEntry_mismatched_child_witness :
  Audio.DecodeAudioSampleEntry opaqueDecodeBox 5 (mkHdr "mp4a" 56 8) 0
    (repeat x00 48)
  = (Some Panic, []).
Proof.
  apply (DecodeAudioSampleEntry_mismatched_child_panics
           opaqueDecodeBox (mkHdr "mp4a" 56 8) 0 (repeat x00 48) []
           (repeat x00 48) 0
           (Audio.mkLS (mkAudio "mp4a" 0 0 0 0 None None []) 36
                       (repeat x00 20))
           (Audio.mkLS (mkAudio "mp4a" 0 0 0 0 None None []) 36
                       (repeat x00 20))
           (BOther (mkOther "esds" (rawImpl (repeat x00 20)))) []).
  - reflexivity.
  - vm_compute. reflexivity.
  - reflexivity.
  - reflexivity.
  - reflexivity.
  - lia.
Defined.

(** ** DecodeAudioSampleEntry: the box it returns *)

Lemma decodeFixedFields_shape
    (nm : string) (s0 s : SliceReader.t) (a : AudioSampleEntryBox) :
  Audio.decodeFixedFields nm s0 = Ret (a, s) ->
  name a = nm /\ Esds a = None /\ Sinf a = None /\ Children a = [].
Proof.
  unfold Audio.decodeFixedFields, SliceReader.SkipBytes. cbn [bind].
  repeat match goal with
         | |- bind ?m _ = _ -> _ =>
             let x := fresh "x" in
             destruct m as [[? ?]| |]; cbn [bind]; try discriminate
         end.
  intros H. injection H as <- _. cbn. auto.
Qed.

Lemma addChildren_snoc (cs : list Box) :
  forall (a a1 a2 : AudioSampleEntryBox) (c : Box),
    addChildren a cs = Ret a1 -> Audio.AddChild a1 c = Ret a2 ->
    addChildren a (cs ++ [c]) = Ret a2.
Proof.
  induction cs as [|x cs IH]; intros a a1 a2 c H1 H2; cbn [app addChildren] in *.
  - injection H1 as <-. rewrite H2. reflexivity.
  - destruct (Audio.AddChild a x) as [ax| |]; cbn [bind] in *; try discriminate.
    eapply IH; eauto.
Qed.

Lemma uint64_range (z : Z) : 0 <= uint64 z < 2 ^ 64.
Proof. unfold uint64. apply Z.mod_pos_bound. lia. Qed.

Lemma uint64_add_l (x y : Z) : uint64 (uint64 x + y) = uint64 (x + y).
Proof. unfold uint64. apply Zplus_mod_idemp_l. Qed.

Lemma uint64_add_r (x y : Z) : uint64 (x + uint64 y) = uint64 (x + y).
Proof. unfold uint64. apply Zplus_mod_idemp_r. Qed.

Lemma Audio_Size_range (a : AudioSampleEntryBox) : 0 <= Audio.Size a < 2 ^ 64.
Proof.
  unfold Audio.Size.
  assert (H : forall cs acc,
             0 <= acc < 2 ^ 64 ->
             0 <= fold_left (fun t c => uint64 (t + BoxSize c)) cs acc < 2 ^ 64).
  { induction cs as [|c cs IH]; intros acc Hacc; cbn [fold_left]; [exact Hacc|].
    apply IH. apply uint64_range. }
  apply H. apply uint64_range.
Qed.

Lemma AddChild_Size (a a' : AudioSampleEntryBox) (c : Box) :
  Audio.AddChild a c = Ret a' ->
  Audio.Size a' = uint64 (Audio.Size a + BoxSize c).
Proof.
  intros H. destruct (AddChild_cases a c) as [Hp Hr].
  destruct (tagMismatch c); [rewrite (Hp eq_refl) in H; discriminate|].
  rewrite (Hr eq_refl) in H. injection H as <-.
  unfold Audio.Size. cbn [Children]. rewrite fold_left_app. reflexivity.
Qed.

Section DecodedBox.

Variable DecodeBox : Z -> ioReader -> outcome (option Box) * ioReader.
Variable hdr : boxHeader.
Variable startPos : Z.
Variable a0 : AudioSampleEntryBox.

Lemma loopStep_inv (st st' : Audio.LoopState) :
  loopInv startPos a0 st -> Audio.loopStep DecodeBox hdr startPos st = inl st' ->
  loopInv startPos a0 st'.
Proof.
  intros [[cs Hcs] Hpos]. unfold Audio.loopStep.
  destruct (DecodeBox (Audio.ls_pos st) (Audio.ls_rest st)) as [[box|e|] rest];
    [|destruct e; discriminate|discriminate].
  destruct box as [b|].
  - destruct (Audio.AddChild (Audio.ls_box st) b) as [a| |] eqn:Ha;
      cbn [bind]; try discriminate.
    destruct (_ =? _); [discriminate|]. destruct (_ >? _); [discriminate|].
    intros H. injection H as <-. split; cbn [Audio.ls_box Audio.ls_pos].
    + exists (cs ++ [b]). eapply addChildren_snoc; eauto.
    + rewrite (AddChild_Size _ _ _ Ha), Hpos.
      rewrite uint64_add_l, uint64_add_r. f_equal. lia.
  - destruct (_ =? _); [discriminate|]. destruct (_ >? _); [discriminate|].
    intros H. injection H as <-. split; cbn [Audio.ls_box Audio.ls_pos].
    + exists cs. exact Hcs.
    + exact Hpos.
Qed.

Lemma loopStep_returns (st : Audio.LoopState) (a : AudioSampleEntryBox) :
  loopInv startPos a0 st -> Audio.loopStep DecodeBox hdr startPos st = inr (Ret a) ->
  exists cs, addChildren a0 cs = Ret a.
Proof.
  intros [[cs Hcs] Hpos]. unfold Audio.loopStep.
  destruct (DecodeBox (Audio.ls_pos st) (Audio.ls_rest st)) as [[box|e|] rest];
    [|destruct e; try discriminate|discriminate].
  - destruct box as [b|].
    + destruct (Audio.AddChild (Audio.ls_box st) b) as [a'| |] eqn:Ha;
        cbn [bind]; try discriminate.
      destruct (_ =? _).
      * intros H. injection H as <-. exists (cs ++ [b]).
        eapply addChildren_snoc; eauto.
      * destruct (_ >? _); discriminate.
    + destruct (_ =? _).
      * intros H. injection H as <-. exists cs. exact Hcs.
      * destruct (_ >? _); discriminate.
  - intros H. injection H as <-. exists cs. exact Hcs.
Qed.

Lemma loop_returns (fuel : nat) :
  forall (st : Audio.LoopState) (a : AudioSampleEntryBox),
    loopInv startPos a0 st ->
    Audio.loop DecodeBox fuel hdr startPos st = Some (Ret a) ->
    exists cs, addChildren a0 cs = Ret a.
Proof.
  induction fuel as [|fuel IH]; intros st a Hinv H; cbn [Audio.loop] in H;
    [discriminate|].
  destruct (Audio.loopStep DecodeBox hdr startPos st) as [st'|res] eqn:Hs.
  - eapply IH; [|exact H]. eapply loopStep_inv; eauto.
  - injection H as ->. eapply loopStep_returns; eauto.
Qed.

Lemma iterations_inv (k : nat) :
  forall st0 st : Audio.LoopState,
    loopInv startPos a0 st0 ->
    Audio.iterations DecodeBox k hdr startPos st0 = Some st ->
    loopInv startPos a0 st.
Proof.
  induction k as [|k IH]; intros st0 st Hinv H; cbn [Audio.iterations] in H.
  - injection H as <-. exact Hinv.
  - destruct (Audio.loopStep DecodeBox hdr startPos st0) as [st1|res] eqn:Hs;
      [|discriminate].
    eapply IH; [|exact H]. eapply loopStep_inv; eauto.
Qed.

End DecodedBox.

Lemma loopInit_inv (hdr : boxHeader) (startPos : Z) (body : list byte)
    (st0 : Audio.LoopState) :
  Audio.loopInit hdr startPos body = Ret st0 ->
  loopInv startPos (Audio.ls_box st0) st0
  /\ exists s,
      Audio.decodeFixedFields (hdr_name hdr) (SliceReader.NewSliceReader body)
      = Ret (Audio.ls_box st0, s).
Proof.
  unfold Audio.loopInit.
  destruct (Audio.decodeFixedFields _ _) as [[a s]| |] eqn:Hd; cbn [bind];
    try discriminate.
  destruct (SliceReader.RemainingBytes s) as [rem| |]; cbn [bind];
    try discriminate.
  intros H. injection H as <-. cbn [Audio.ls_box Audio.ls_pos].
  split; [|eauto]. split; [exists []; reflexivity|].
  cbn [Audio.ls_box Audio.ls_pos].
  apply decodeFixedFields_shape in Hd as (_ & _ & _ & Hc).
  unfold Audio.Size. rewrite Hc. cbn [fold_left].
  rewrite uint64_add_r. reflexivity.
Qed.

(** C8. [DecodeAudioSampleEntry] keeps in [SampleRate] the top 16 bits of
    the 32-bit field at bytes 24 to 28 of the body, and [Encode] of the box
    it returns writes, after the 8 bytes of the header and 24 more bytes,
    [SampleRate] shifted left by 16 bits. So decoding then encoding clears
    the low 16 bits of the field: the field comes back as it was when its
    fraction is zero, and differs when it is not. The box is one [Encode]
    writes: its size is at least 36 and fits the 4-byte size field. *)
Theorem sample_rate_fixed_point_round_trip
    (DecodeBox : Z -> ioReader -> outcome (option Box) * ioReader)
    (fuel : nat) (hdr : boxHeader) (startPos : Z) (r r' : ioReader)
    (a : AudioSampleEntryBox) (w : ioWriter) :
  Audio.DecodeAudioSampleEntry DecodeBox fuel hdr startPos r
  = (Some (Ret a), r') ->
  36 <= Audio.Size a < 2 ^ 32 ->
  exists body f v hb pre,
    readBoxBody r hdr = (Ret body, r')
    /\ slice body 24 28 = Some f /\ BigEndian_Uint32 f = Some v
    /\ SampleRate a = Z.shiftr v 16
    /\ len hb = 8 /\ len pre = 24
    /\ Audio.Encode a w
       = Audio.encodeChildren (Children a)
           (w ++ hb ++ pre ++ PutUint32 (Z.shiftl (SampleRate a) 16))
    /\ Z.shiftl (SampleRate a) 16 = v - v mod 2 ^ 16
    /\ (v mod 2 ^ 16 = 0 -> PutUint32 (Z.shiftl (SampleRate a) 16) = f)
    /\ (v mod 2 ^ 16 <> 0 -> PutUint32 (Z.shiftl (SampleRate a) 16) <> f).
Proof.
  unfold Audio.DecodeAudioSampleEntry.
  destruct (readBoxBody r hdr) as [[body|e|] r1] eqn:Hb;
    try (intros H; apply pair_equal_spec in H as [H _]; discriminate).
  destruct (Audio.loopInit hdr startPos body) as [st0| |] eqn:Hi;
    try (intros H; apply pair_equal_spec in H as [H _]; discriminate).
  intros H Hs. apply pair_equal_spec in H as [H <-].
  destruct (loopInit_inv _ _ _ _ Hi) as [Hinv [s Hd]].
  destruct (loop_returns DecodeBox hdr startPos _ fuel st0 a Hinv H)
    as [cs Hcs].
  assert (Hsr0 : SampleRate a = SampleRate (Audio.ls_box st0)).
  { destruct (addChildren_spec cs (Audio.ls_box st0)) as [Hp Hr].
    destruct (existsb tagMismatch cs);
      [rewrite (Hp eq_refl) in Hcs; discriminate|].
    rewrite (Hr eq_refl) in Hcs. injection Hcs as <-. reflexivity. }
  destruct (decodeFixedFields_SampleRate _ _ _ _ Hd)
    as (f & v & Hf & Hv & Hsr & _ & _).
  rewrite <- Hsr0 in Hsr.
  pose proof (BigEndian_Uint32_range _ _ Hv) as Hr.
  pose proof (fixed_round_trip v Hr) as Hrt. rewrite <- Hsr in Hrt.
  rewrite makeUint16FromFixed32_top in Hsr by assumption.
  assert (Hsr16 : 0 <= SampleRate a < 2 ^ 16).
  { rewrite Hsr, Z.shiftr_div_pow2 by lia.
    split; [apply Z.div_pos; lia|]. apply Z.div_lt_upper_bound; lia. }
  assert (Hf4 : PutUint32 v = f).
  { pose proof (slice_len _ _ _ _ Hf) as Hl.
    destruct (four_bytes f ltac:(lia)) as (b0 & b1 & b2 & b3 & ->).
    apply PutUint32_BigEndian_Uint32. exact Hv. }
  exists body, f, v,
    (PutUint32 (uint32 (Audio.Size a)) ++ tagBytes (name a)),
    (repeat x00 6 ++ PutUint16 (DataReferenceIndex a)
       ++ repeat x00 8 ++ PutUint16 (ChannelCount a)
       ++ PutUint16 (SampleSize a) ++ repeat x00 4).
  split; [reflexivity|]. split; [exact Hf|]. split; [exact Hv|].
  split; [exact Hsr|].
  split; [rewrite len_app, tagBytes_length; reflexivity|].
  split; [reflexivity|].
  split.
  { rewrite (Audio_Encode_layout_fits a w Hs).
    unfold audioHead, fixedFieldBytes.
    rewrite (makeFixed32Uint_shift (SampleRate a)) by assumption.
    rewrite <- !app_assoc. reflexivity. }
  rewrite makeFixed32Uint_shift in Hrt by assumption.
  split; [exact Hrt|]. split.
  - intros Hz. rewrite Hrt, Hz, Z.sub_0_r. exact Hf4.
  - intros Hnz Heq. rewrite Hrt in Heq.
    assert (H1 : BigEndian_Uint32 (PutUint32 (v - v mod 2 ^ 16) ++ [])
                 = Some (v - v mod 2 ^ 16)).
    { apply BigEndian_Uint32_PutUint32.
      pose proof (Z.mod_pos_bound v (2 ^ 16) ltac:(lia)).
      pose proof (Z.div_mod v (2 ^ 16) ltac:(lia)).
      assert (0 <= v / 2 ^ 16) by (apply Z.div_pos; lia). lia. }
    rewrite app_nil_r, Heq, Hv in H1. injection H1 as H1. lia.
Qed.

Lemma sample_rate_fixed_point_round_trip_witness :
  exists body f v hb pre,
    readBoxBody body_44100_5 (mkHdr "mp4a" 36 8) = (Ret body, [])
    /\ slice body 24 28 = Some f /\ BigEndian_Uint32 f = Some v
    /\ SampleRate (mkAudio "mp4a" 0 0 0 44100 None None []) = Z.shiftr v 16
    /\ len hb = 8 /\ len pre = 24
    /\ Audio.Encode (mkAudio "mp4a" 0 0 0 44100 None None []) [x2a]
       = Audio.encodeChildren []
           ([x2a] ++ hb ++ pre ++ PutUint32 (Z.shiftl 44100 16))
    /\ Z.shiftl 44100 16 = v - v mod 2 ^ 16
    /\ (v mod 2 ^ 16 = 0 -> PutUint32 (Z.shiftl 44100 16) = f)
    /\ (v mod 2 ^ 16 <> 0 -> PutUint32 (Z.shiftl 44100 16) <> f).
Proof.
  apply (sample_rate_fixed_point_round_trip
           headerDecodeBox 1 (mkHdr "mp4a" 36 8) 0 body_44100_5 []
           (mkAudio "mp4a" 0 0 0 44100 None None []) [x2a]).
  - vm_compute. reflexivity.
  - vm_compute. split; [discriminate|reflexivity].
Defined.

(** X16. Every box that [DecodeAudioSampleEntry] returns has the name of the
    header and the four numeric fields read from the first 28 bytes of the
    body; no child carries the tag "esds" or "sinf" with another dynamic
    type, and [Esds] and [Sinf] refer to the last child of their type, or
    are nil when there is none. *)
Theorem DecodeAudioSampleEntry_returns
    (DecodeBox : Z -> ioReader -> outcome (option Box) * ioReader)
    (fuel : nat) (hdr : boxHeader) (startPos : Z) (r r' : ioReader)
    (a : AudioSampleEntryBox) :
  Audio.DecodeAudioSampleEntry DecodeBox fuel hdr startPos r
  = (Some (Ret a), r') ->
  exists body a0 s,
    readBoxBody r hdr = (Ret body, r')
    /\ Audio.decodeFixedFields (hdr_name hdr) (SliceReader.NewSliceReader body)
       = Ret (a0, s)
    /\ existsb tagMismatch (Children a) = false
    /\ a = mkAudio (hdr_name hdr) (DataReferenceIndex a0) (ChannelCount a0)
                   (SampleSize a0) (SampleRate a0)
                   (lastEsds (Children a) None) (lastSinf (Children a) None)
                   (Children a).
Proof.
  unfold Audio.DecodeAudioSampleEntry.
  destruct (readBoxBody r hdr) as [[body|e|] r1] eqn:Hb;
    try (intros H; apply pair_equal_spec in H as [H _]; discriminate).
  destruct (Audio.loopInit hdr startPos body) as [st0| |] eqn:Hi;
    try (intros H; apply pair_equal_spec in H as [H _]; discriminate).
  intros H. apply pair_equal_spec in H as [H <-].
  destruct (loopInit_inv _ _ _ _ Hi) as [Hinv [s Hd]].
  destruct (loop_returns DecodeBox hdr startPos _ fuel st0 a Hinv H)
    as [cs Hcs].
  pose proof (decodeFixedFields_shape _ _ _ _ Hd) as (Hn & He & Hs & Hc).
  exists body, (Audio.ls_box st0), s.
  split; [reflexivity|]. split; [exact Hd|].
  destruct (addChildren_spec cs (Audio.ls_box st0)) as [Hp Hr].
  destruct (existsb tagMismatch cs) eqn:Hm;
    [rewrite (Hp eq_refl) in Hcs; discriminate|].
  rewrite (Hr eq_refl) in Hcs. injection Hcs as <-.
  cbn [Children]. rewrite Hn, He, Hs, Hc. cbn [app]. auto.
Qed.

Lemma DecodeAudioSampleEntry_returns_witness :
  exists body a0 s,
    readBoxBody (repeat x00 73) (mkHdr "mp4a" 81 8) = (Ret body, [])
    /\ Audio.decodeFixedFields "mp4a" (SliceReader.NewSliceReader body)
       = Ret (a0, s)
    /\ existsb tagMismatch [btrtBox; btrtBox] = false
    /\ mkAudio "mp4a" 0 0 0 0 None None [btrtBox; btrtBox]
       = mkAudio "mp4a" (DataReferenceIndex a0) (ChannelCount a0)
                 (SampleSize a0) (SampleRate a0)
                 (lastEsds [btrtBox; btrtBox] None)
                 (lastSinf [btrtBox; btrtBox] None) [btrtBox; btrtBox].
Proof.
  apply (DecodeAudioSampleEntry_returns
           headerDecodeBox 5 (mkHdr "mp4a" 81 8) 0 (repeat x00 73) []
           (mkAudio "mp4a" 0 0 0 0 None None [btrtBox; btrtBox])).
  vm_compute. reflexivity.
Defined.

(** X17. A child that ends exactly at [startPos + hdr.size] ends the
    decoding: the box is returned with that child as its last, the
    dispatcher is not called again, and [Size()] of the returned box is the
    size the header declares. *)
Theorem DecodeAudioSampleEntry_exact_end
    (DecodeBox : Z -> ioReader -> outcome (option Box) * ioReader)
    (hdr : boxHeader) (startPos : Z) (r r' : ioReader) (body : list byte)
    (k : nat) (st0 st : Audio.LoopState) (box : Box) (rest : ioReader)
    (a' : AudioSampleEntryBox) :
  0 <= hdr_size hdr < 2 ^ 64 ->
  readBoxBody r hdr = (Ret body, r') ->
  Audio.loopInit hdr startPos body = Ret st0 ->
  Audio.iterations DecodeBox k hdr startPos st0 = Some st ->
  DecodeBox (Audio.ls_pos st) (Audio.ls_rest st) = (Ret (Some box), rest) ->
  Audio.AddChild (Audio.ls_box st) box = Ret a' ->
  uint64 (Audio.ls_pos st + BoxSize box) = uint64 (startPos + hdr_size hdr) ->
  (forall fuel : nat,
      (k < fuel)%nat ->
      Audio.DecodeAudioSampleEntry DecodeBox fuel hdr startPos r
      = (Some (Ret a'), r'))
  /\ Audio.Size a' = hdr_size hdr
  /\ exists pre, Children a' = pre ++ [box].
Proof.
  intros Hsz Hbody Hinit Hiter Hd Ha Heq. split; [|split].
  - intros fuel Hfuel.
    apply (decode_after_iterations DecodeBox hdr startPos r r' body k st0 st);
      try assumption.
    unfold Audio.loopStep. rewrite Hd, Ha. cbn [bind].
    rewrite Heq, Z.eqb_refl. reflexivity.
  - destruct (loopInit_inv _ _ _ _ Hinit) as [Hinv _].
    pose proof (iterations_inv DecodeBox hdr startPos _ k st0 st Hinv Hiter)
      as [_ Hpos].
    rewrite Hpos, uint64_add_l, <- Z.add_assoc in Heq.
    rewrite <- uint64_add_r, <- (AddChild_Size _ _ _ Ha) in Heq.
    pose proof (Audio_Size_range a') as Hr.
    unfold uint64 in Heq.
    assert (Hdiv : (Audio.Size a' - hdr_size hdr) mod 2 ^ 64 = 0).
    { replace (Audio.Size a' - hdr_size hdr)
        with ((startPos + Audio.Size a') - (startPos + hdr_size hdr)) by lia.
      rewrite Zminus_mod, Heq, Z.sub_diag. reflexivity. }
    apply Z.mod_divide in Hdiv; [|lia]. destruct Hdiv as [q Hq]. lia.
  - destruct (AddChild_cases (Audio.ls_box st) box) as [Hp Hr].
    destruct (tagMismatch box); [rewrite (Hp eq_refl) in Ha; discriminate|].
    rewrite (Hr eq_refl) in Ha. injection Ha as <-. cbn [Children]. eauto.
Qed.

Lemma DecodeAudioSampleEntry_exact_end_witness :
  (forall fuel : nat,
      (1 < fuel)%nat ->
      Audio.DecodeAudioSampleEntry headerDecodeBox fuel (mkHdr "mp4a" 76 8) 0
        (repeat x00 68)
      = (Some (Ret (mkAudio "mp4a" 0 0 0 0 None None [btrtBox; btrtBox])), []))
  /\ Audio.Size (mkAudio "mp4a" 0 0 0 0 None None [btrtBox; btrtBox]) = 76
  /\ exists pre, [btrtBox; btrtBox] = pre ++ [btrtBox].
Proof.
  apply (DecodeAudioSampleEntry_exact_end
           headerDecodeBox (mkHdr "mp4a" 76 8) 0 (repeat x00 68) []
           (repeat x00 68) 1
           (Audio.mkLS (mkAudio "mp4a" 0 0 0 0 None None []) 36
                       (repeat x00 40))
           (Audio.mkLS (mkAudio "mp4a" 0 0 0 0 None None [btrtBox]) 56
                       (repeat x00 20))
           btrtBox []
           (mkAudio "mp4a" 0 0 0 0 None None [btrtBox; btrtBox])).
  - cbn. lia.
  - reflexivity.
  - vm_compute. reflexivity.
  - vm_compute. reflexivity.
  - reflexivity.
  - reflexivity.
  - vm_compute. reflexivity.
Defined.

(** ** AudioSampleEntryBox without children: encoding then decoding *)

(** X18. Encoding then decoding a box without children gives the box back:
    for a box with [uint16] fields, no child and no typed reference,
    [Encode] writes the header with size 36 and the fixed fields, and
    [DecodeAudioSampleEntry], given that header and a dispatcher that
    reports [io.EOF] on the empty input, returns the same box and leaves what
    follows the 28 bytes of the body in the reader. *)
Theorem Audio_encode_then_decode_childless
    (DecodeBox : Z -> ioReader -> outcome (option Box) * ioReader)
    (a : AudioSampleEntryBox) (startPos : Z) (rest : ioReader) :
  (forall p, fst (DecodeBox p []) = Fail EOF) ->
  audioInRange a ->
  Children a = [] -> Esds a = None -> Sinf a = None ->
  Audio.Encode a []
  = (PutUint32 36 ++ tagBytes (name a) ++ fixedFieldBytes a, ok)
  /\ forall fuel : nat,
      (0 < fuel)%nat ->
      Audio.DecodeAudioSampleEntry DecodeBox fuel
        (mkHdr (name a) 36 boxHeaderSize) startPos (fixedFieldBytes a ++ rest)
      = (Some (Ret a), rest).
Proof.
  intros Heof Hr Hc He Hs.
  assert (Hsz : Audio.Size a = 36) by (unfold Audio.Size; rewrite Hc; reflexivity).
  split.
  - rewrite Audio_Encode_layout_fits by lia. rewrite Hc.
    cbn [Audio.encodeChildren app]. unfold audioHead. rewrite Hsz. reflexivity.
  - intros fuel Hfuel. destruct fuel as [|fuel]; [lia|].
    unfold Audio.DecodeAudioSampleEntry, readBoxBody.
    cbn [hdr_size hdr_hdrlen hdr_name]. unfold boxHeaderSize.
    change (uint64 (36 - 8)) with 28. cbn [Z.eqb].
    rewrite len_app, fixedFieldBytes_length.
    destruct (Z.eqb_spec (28 + len rest) 0); [unfold len in *; lia|].
    destruct (Z.ltb_spec (28 + len rest) 28); [unfold len in *; lia|].
    change (Z.to_nat 28) with (List.length (fixedFieldBytes a)).
    rewrite firstn_length_app, skipn_length_app.
    unfold Audio.loopInit. cbn [hdr_name hdr_size].
    pose proof (decodeFixedFields_fixedFieldBytes (name a) a [] Hr) as Hd.
    rewrite app_nil_r in Hd. rewrite Hd. cbn [bind].
    pose proof (RemainingBytes_at (fixedFieldBytes a) []) as Hrem.
    rewrite app_nil_r in Hrem. change (len (fixedFieldBytes a)) with 28 in Hrem.
    rewrite Hrem. cbn [bind Audio.loop].
    unfold Audio.loopStep. cbn [Audio.ls_pos Audio.ls_rest Audio.ls_box].
    specialize (Heof (uint64 (startPos + nrAudioSampleBytesBeforeChildren))).
    destruct (DecodeBox _ []) as [res rd]. cbn [fst] in Heof. subst res.
    destruct a. cbn in *. subst. reflexivity.
Qed.

Lemma Audio_encode_then_decode_childless_witness :
  Audio.Encode (mkAudio "mp4a" 1 2 16 48000 None None []) []
  = (PutUint32 36 ++ tagBytes "mp4a"
     ++ fixedFieldBytes (mkAudio "mp4a" 1 2 16 48000 None None []), ok)
  /\ forall fuel : nat,
      (0 < fuel)%nat ->
      Audio.DecodeAudioSampleEntry headerDecodeBox fuel
        (mkHdr "mp4a" 36 boxHeaderSize) 100
        (fixedFieldBytes (mkAudio "mp4a" 1 2 16 48000 None None []) ++ [x2a])
      = (Some (Ret (mkAudio "mp4a" 1 2 16 48000 None None [])), [x2a]).
Proof.
  apply (Audio_encode_then_decode_childless
           headerDecodeBox (mkAudio "mp4a" 1 2 16 48000 None None []) 100 [x2a]).
  - intros p. reflexivity.
  - unfold audioInRange. cbn. lia.
  - reflexivity.
  - reflexivity.
  - reflexivity.
Defined.

(** ** Annex-B: streams of well-formed units *)

(** X19. On the model of the Annex-B functions (annexb_test.go holds their
    cases): for a stream built from well-formed units, the scanner returns
    exactly the units, in order, and the conversion to sample format is each
    unit after its four-byte length; neither depends on which start codes
    had three bytes and which four. *)
Theorem byte_stream_units (units : list (bool * list byte)) :
  Forall (fun u => Avc.wfNalu (snd u) = true) units ->
  Avc.ExtractNalusFromByteStream (Avc.byteStream units)
  = Avc.orNil (map snd units)
  /\ Avc.ConvertByteStreamToNaluSample (Avc.byteStream units)
     = lengthPrefixed (map snd units)
  /\ Avc.ConvertSampleToByteStream (lengthPrefixed (map snd units))
     = flat_map (fun u => Avc.startCode4 ++ u) (map snd units).
Proof.
  intros Hwf.
  unfold Avc.ExtractNalusFromByteStream, Avc.ConvertByteStreamToNaluSample.
  rewrite (scan_byteStream units Hwf None). cbn [Avc.closeUnit app].
  split; [reflexivity|]. split; [reflexivity|].
  unfold Avc.ConvertSampleToByteStream.
  apply sampleToByteStream_lengthPrefixed.
  - rewrite Forall_map. eapply Forall_impl; [|exact Hwf].
    intros u Hu. apply wfNalu_parts in Hu. tauto.
  - apply lengthPrefixed_length.
Qed.

Lemma byte_stream_units_witness :
  Avc.ExtractNalusFromByteStream (Avc.byteStream twoUnits)
  = Avc.orNil (map snd twoUnits)
  /\ Avc.ConvertByteStreamToNaluSample (Avc.byteStream twoUnits)
     = lengthPrefixed (map snd twoUnits)
  /\ Avc.ConvertSampleToByteStream (lengthPrefixed (map snd twoUnits))
     = flat_map (fun u => Avc.startCode4 ++ u) (map snd twoUnits).
Proof.
  apply (byte_stream_units twoUnits).
  unfold twoUnits.
  apply Forall_cons; [vm_compute; reflexivity|].
  apply Forall_cons; [vm_compute; reflexivity|apply Forall_nil].
Defined.
